(** * vial_scan: the extraction pipeline of extract.py, parse_fields.py and
    spreadsheet.py, embedded in Rocq.

    Text is modelled as [string], a sequence of characters with code points
    0..255; the character-level functions work on [list ascii].  The regular
    expressions of the program are run by a backtracking matcher with the
    priorities of Python's [re].  JSON values are the Python objects that
    [json.loads] builds, with numbers restricted to integers.  Python
    dictionaries with string keys are [gmap string _].  The inference service
    is the environment: a task is a computation that suspends at its two
    requests and is resumed with whatever the service answers.  The filename
    correlator, whose answer depends on which characters count as digits, is
    modelled a second time on all code points (module [Unicode]). *)

From Stdlib Require Import ZArith Ascii String.
From stdpp Require Import gmap strings list fin_maps.

Set Warnings "-register-all".
Local Open Scope string_scope.
Local Open Scope list_scope.
Local Open Scope nat_scope.

(** ** Characters *)

Module Chars.

Definition chars := list ascii.

Definition of_string (s : string) : chars := list_ascii_of_string s.
Definition to_string (l : chars) : string := string_of_list_ascii l.

Definition code (c : ascii) : N := N_of_ascii c.

(** [\d] of Python's [re] on [str]: the decimal digits; below code point 256
    these are '0'..'9'. *)
Definition is_digit (c : ascii) : bool :=
  (48 <=? code c)%N && (code c <=? 57)%N.

(** [str.isspace] below code point 256, the set removed by [str.strip()]. *)
Definition is_space (c : ascii) : bool :=
  ((9 <=? code c)%N && (code c <=? 13)%N)
  || ((28 <=? code c)%N && (code c <=? 32)%N)
  || (code c =? 133)%N || (code c =? 160)%N.

(** [str.lower] on one character below code point 256. *)
Definition lower (c : ascii) : ascii :=
  let n := code c in
  if ((65 <=? n)%N && (n <=? 90)%N)
     || ((192 <=? n)%N && (n <=? 222)%N && negb (n =? 215)%N)
  then ascii_of_N (n + 32) else c.

Definition eqc (a b : ascii) : bool := Ascii.eqb a b.

Fixpoint drop_while (p : ascii -> bool) (s : chars) : chars :=
  match s with
  | c :: s' => if p c then drop_while p s' else s
  | [] => []
  end.

Fixpoint take_while (p : ascii -> bool) (s : chars) : chars :=
  match s with
  | c :: s' => if p c then c :: take_while p s' else []
  | [] => []
  end.

(** [s.startswith(w)] and [s.endswith(w)] *)
Fixpoint starts_with (w s : chars) : bool :=
  match w, s with
  | [], _ => true
  | c :: w', x :: s' => eqc x c && starts_with w' s'
  | _ :: _, [] => false
  end.

Definition ends_with (w s : chars) : bool := starts_with (rev w) (rev s).

(** [s.strip()] *)
Definition strip (s : chars) : chars :=
  rev (drop_while is_space (rev (drop_while is_space s))).

End Chars.

Import Chars.

(** ** Regular expressions

    The four patterns of the program use literals, [\d], sequencing, the
    greedy quantifiers [?], [*] and [+], one capturing group, and the anchors
    [^] and [$].  [re_match] is a backtracking matcher in
    continuation-passing style with the priorities of Python's [re]: a greedy
    quantifier first takes as much as it can and gives characters back when
    the rest of the pattern fails. *)

Module Re.

Inductive atom : Type :=
| Lit (c : ascii)      (* a literal character *)
| Digit.               (* \d *)

Inductive regex : Type :=
| Atom (a : atom)
| Seq (r1 r2 : regex)
| Opt (r : regex)      (* r?  and (?:r)? *)
| Star (a : atom)      (* a* *)
| Plus (a : atom)      (* a+ *)
| Group (r : regex)    (* (r), the pattern's group 1 *)
| Bol                  (* ^ without re.MULTILINE *)
| Eol.                 (* $ without re.MULTILINE *)

(** A successful match: the position after its last character, and group 1. *)
Definition outcome : Type := nat * option chars.

(** The rest of the pattern: position, remaining input, group 1 so far. *)
Definition cont : Type := nat -> chars -> option chars -> option outcome.

Definition atom_ok (ic : bool) (a : atom) (x : ascii) : bool :=
  match a with
  | Lit c => eqc x c || (ic && eqc (lower x) (lower c))
  | Digit => is_digit x
  end.

(** Greedy repetition of one atom: the longest run first, then shorter ones. *)
Fixpoint star (ic : bool) (a : atom) (pos : nat) (s : chars)
    (g : option chars) (k : cont) : option outcome :=
  match s with
  | x :: s' =>
      if atom_ok ic a x then
        match star ic a (S pos) s' g k with
        | Some o => Some o
        | None => k pos s g
        end
      else k pos s g
  | [] => k pos s g
  end.

Fixpoint re_match (ic : bool) (r : regex) (pos : nat) (s : chars)
    (g : option chars) (k : cont) : option outcome :=
  match r with
  | Atom a =>
      match s with
      | x :: s' => if atom_ok ic a x then k (S pos) s' g else None
      | [] => None
      end
  | Seq r1 r2 =>
      re_match ic r1 pos s g (fun pos' s' g' => re_match ic r2 pos' s' g' k)
  | Opt r1 =>
      match re_match ic r1 pos s g k with
      | Some o => Some o
      | None => k pos s g
      end
  | Star a => star ic a pos s g k
  | Plus a =>
      match s with
      | x :: s' => if atom_ok ic a x then star ic a (S pos) s' g k else None
      | [] => None
      end
  | Group r1 =>
      re_match ic r1 pos s g
        (fun pos' s' _ => k pos' s' (Some (take (pos' - pos) s)))
  | Bol => if Nat.eqb pos 0 then k pos s g else None
  | Eol =>
      match s with
      | [] => k pos s g
      | [x] => if eqc x "010"%char then k pos s g else None
      | _ => None
      end
  end.

Definition accept : cont := fun pos _ g => Some (pos, g).

(** A match found by [re.search]: start, end, group 1. *)
Record found : Type := Found { m_start : nat; m_end : nat; m_group : option chars }.

(** The leftmost match at or after the current position; [pos] is the
    position of [s] in the whole text. *)
Fixpoint search_from (ic : bool) (r : regex) (pos : nat) (s : chars) : option found :=
  match re_match ic r pos s None accept with
  | Some (e, g) => Some (Found pos e g)
  | None =>
      match s with
      | [] => None
      | _ :: s' => search_from ic r (S pos) s'
      end
  end.

(** [re.search(r, text, flags)] *)
Definition search (ic : bool) (r : regex) (text : chars) : option found :=
  search_from ic r 0 text.

(** [re.sub(r, '', text)]: the non-overlapping matches, leftmost first, are
    deleted.  An empty match deletes nothing and the scan moves on by one
    character. *)
Fixpoint sub_loop (fuel : nat) (ic : bool) (r : regex) (pos : nat) (s : chars) : chars :=
  match fuel with
  | 0 => s
  | S fuel' =>
      match search_from ic r pos s with
      | None => s
      | Some (Found a b _) =>
          if Nat.eqb a b then
            take (S (a - pos)) s
              ++ sub_loop fuel' ic r (S a) (drop (S (a - pos)) s)
          else
            take (a - pos) s ++ sub_loop fuel' ic r b (drop (b - pos) s)
      end
  end.

Definition sub_delete (ic : bool) (r : regex) (text : chars) : chars :=
  sub_loop (S (length text)) ic r 0 text.

(** A literal word. *)
Fixpoint word (w : chars) : regex :=
  match w with
  | [] => Opt Bol  (* matches the empty text *)
  | [c] => Atom (Lit c)
  | c :: w' => Seq (Atom (Lit c)) (word w')
  end.

End Re.

(** ** pathlib *)

Module Pathlib.

Definition sep : ascii := "/"%char.
Definition dot : ascii := "."%char.

(** Splitting at every separator. *)
Fixpoint split_sep (cur : chars) (s : chars) : list chars :=
  match s with
  | [] => [rev cur]
  | c :: s' => if eqc c sep then rev cur :: split_sep [] s' else split_sep (c :: cur) s'
  end.

(** The components of a POSIX path: empty ones and "." are dropped. *)
Definition parts (p : chars) : list chars :=
  filter (fun x => x <> [] /\ x <> [dot]) (split_sep [] p).

(** [PurePath.name] *)
Definition name (p : chars) : chars := List.last (parts p) [].

(** [str.rfind('.')], as an option. *)
Fixpoint rfind_dot (s : chars) : option nat :=
  match s with
  | [] => None
  | c :: s' =>
      match rfind_dot s' with
      | Some i => Some (S i)
      | None => if eqc c dot then Some 0 else None
      end
  end.

(** The index at which the suffix starts, when there is one:
    [0 < i < len(name) - 1]. *)
Definition suffix_at (n : chars) : option nat :=
  match rfind_dot n with
  | Some i => if (0 <? i) && (S i <? length n) then Some i else None
  | None => None
  end.

(** [PurePath.suffix] *)
Definition suffix (p : chars) : chars :=
  let n := name p in
  match suffix_at n with Some i => drop i n | None => [] end.

(** [PurePath.stem] *)
Definition stem (p : chars) : chars :=
  let n := name p in
  match suffix_at n with Some i => take i n | None => n end.

End Pathlib.

(** ** extract.py: the filename correlator *)

(** [r'DunnLab0*(\d+)'] *)
Definition VENDOR_RE : Re.regex :=
  Re.Seq (Re.word (of_string "DunnLab"))
    (Re.Seq (Re.Star (Re.Lit "0"%char)) (Re.Group (Re.Plus Re.Digit))).

(** [r'(\d+)'] *)
Definition DIGITS_RE : Re.regex := Re.Group (Re.Plus Re.Digit).

Definition group1 (m : Re.found) : option string :=
  to_string <$> Re.m_group m.

Definition extract_integer_from_filename (filename : string) : option string :=
  let stem := Pathlib.stem (of_string filename) in
  match Re.search true VENDOR_RE stem with
  | Some m => group1 m
  | None =>
      match Re.search false DIGITS_RE stem with
      | Some m => group1 m
      | None => None
      end
  end.

(** ** The correlator, as a policy on the digits of a name

    The two tiers stated without regular expressions. *)

Module Policy.

Definition is_zero (c : ascii) : bool := eqc c "0"%char.

(** Case-insensitive prefix test. *)
Fixpoint has_prefix_ci (w s : chars) : bool :=
  match w, s with
  | [], _ => true
  | c :: w', x :: s' => eqc (lower x) (lower c) && has_prefix_ci w' s'
  | _ :: _, [] => false
  end.

Definition TOKEN : chars := of_string "DunnLab".

(** Does the token, followed by at least one digit, start here? *)
Definition vendor_here (s : chars) : bool :=
  has_prefix_ci TOKEN s
  && match drop (length TOKEN) s with x :: _ => is_digit x | [] => false end.

(** The digits that follow the first occurrence of the token that is followed
    by a digit. *)
Fixpoint vendor_digits (s : chars) : option chars :=
  if vendor_here s then Some (take_while is_digit (drop (length TOKEN) s))
  else match s with
       | [] => None
       | _ :: s' => vendor_digits s'
       end.

(** Leading zeros removed; a run of zeros only is the number 0. *)
Definition strip_zeros (d : chars) : chars :=
  match drop_while is_zero d with
  | [] => match d with [] => [] | _ => ["0"%char] end
  | r => r
  end.

(** The first run of digits. *)
Definition first_digit_run (s : chars) : option chars :=
  match drop_while (fun c => negb (is_digit c)) s with
  | [] => None
  | r => Some (take_while is_digit r)
  end.

Definition has_digit (s : chars) : bool := existsb is_digit s.

(** The two-tier policy. *)
Definition identifier (s : chars) : option chars :=
  match vendor_digits s with
  | Some d => Some (strip_zeros d)
  | None => first_digit_run s
  end.

End Policy.

(** ** Item names: extract.py, find_images *)

Definition EXTENSIONS : list string := [".png"; ".jpg"; ".jpeg"; ".tif"; ".tiff"].

(** [p.suffix.lower() in EXTENSIONS] *)
Definition has_image_suffix (p : string) : bool :=
  bool_decide (to_string (map lower (Pathlib.suffix (of_string p))) ∈ EXTENSIONS).

(** The name of a discovered item: one path component, kept by [find_images]. *)
Definition is_item_name (n : string) : bool :=
  forallb (fun c => negb (eqc c Pathlib.sep)) (of_string n) && has_image_suffix n.

(** ** Python values

    The objects built by [json.loads], and [None].  JSON numbers are integers
    here; replies with fractional or exponent numbers are outside the model. *)

Inductive value : Type :=
| VNone
| VBool (b : bool)
| VInt (n : Z)
| VStr (s : string)
| VList (l : list value)
| VDict (d : gmap string value).

Abbreviation dict := (gmap string value).

(** [type(v).__name__] *)
Definition type_name (v : value) : string :=
  match v with
  | VNone => "NoneType"
  | VBool _ => "bool"
  | VInt _ => "int"
  | VStr _ => "str"
  | VList _ => "list"
  | VDict _ => "dict"
  end.

(** [bool(v)] *)
Definition truthy (v : value) : bool :=
  match v with
  | VNone => false
  | VBool b => b
  | VInt n => negb (n =? 0)%Z
  | VStr s => negb (String.eqb s "")
  | VList l => match l with [] => false | _ => true end
  | VDict d => negb (bool_decide (d = ∅))
  end.

(** [v == s] for a [str] [s]: only an equal [str] compares equal. *)
Definition py_eq_str (v : value) (s : string) : bool :=
  match v with
  | VStr t => String.eqb t s
  | _ => false
  end.

(** An optional string as a Python object. *)
Definition of_option (o : option string) : value :=
  match o with Some s => VStr s | None => VNone end.

(** ** Exceptions

    Instances of [Exception]: the class name and [str(e)]. *)

Record exn : Type := Exn { exn_class : string; exn_str : string }.

Inductive res (A : Type) : Type :=
| Ok (a : A)
| Raise (e : exn).
Arguments Ok {A} a.
Arguments Raise {A} e.

#[global] Instance res_ret : MRet res := fun A a => Ok a.
#[global] Instance res_bind : MBind res := fun A B f r =>
  match r with Ok a => f a | Raise e => Raise e end.

Definition AttributeError (v : value) (attr : string) : exn :=
  Exn "AttributeError"
    ("'" +:+ type_name v +:+ "' object has no attribute '" +:+ attr +:+ "'").

Definition NotAMapping (v : value) : exn :=
  Exn "TypeError" ("'" +:+ type_name v +:+ "' object is not a mapping").

(** [v.get(key)] *)
Definition py_get (v : value) (key : string) : res value :=
  match v with
  | VDict d => Ok (default VNone (d !! key))
  | _ => Raise (AttributeError v "get")
  end.

(** [**v] inside a dict display *)
Definition py_mapping (v : value) : res dict :=
  match v with
  | VDict d => Ok d
  | _ => Raise (NotAMapping v)
  end.

(** ** The response decoder

    The last three lines of [extract_from_image] and of
    [parse_transcription] are the same. *)

(** [r'^```(?:json)?\n?'] *)
Definition FENCE_OPEN_RE : Re.regex :=
  Re.Seq Re.Bol
    (Re.Seq (Re.word (of_string "```"))
       (Re.Seq (Re.Opt (Re.word (of_string "json")))
          (Re.Opt (Re.Atom (Re.Lit "010"%char))))).

(** [r'\n?```$'] *)
Definition FENCE_CLOSE_RE : Re.regex :=
  Re.Seq (Re.Opt (Re.Atom (Re.Lit "010"%char)))
    (Re.Seq (Re.word (of_string "```")) Re.Eol).

Definition strip_code_fences (raw : chars) : chars :=
  let raw := Re.sub_delete false FENCE_OPEN_RE raw in
  Re.sub_delete false FENCE_CLOSE_RE raw.

(** The closing pattern read off the text: the fence, then the end of the
    text or the line break that ends it. *)
Definition FENCE : chars := of_string "```".
Definition NL : ascii := "010"%char.
Definition BT : ascii := "`"%char.

Definition close_tail (pos : nat) (s : chars) : option Re.outcome :=
  if starts_with FENCE s then
    match drop 3 s with
    | [] => Some (pos + 3, None)
    | [x] => if eqc x NL then Some (pos + 3, None) else None
    | _ => None
    end
  else None.

Definition fence_char (c : ascii) : bool := eqc c BT || eqc c NL.


(** A record between fences: the opening fence with or without the tag and
    with or without a line break after it, the text of the record, and the
    closing fence with or without a line break before it. *)
Definition fenced (tagged break_after break_before : bool) (inner : string) : string :=
  to_string
    (FENCE ++ (if tagged then of_string "json" else [])
       ++ (if break_after then ["010"%char] else [])
       ++ of_string inner
       ++ (if break_before then ["010"%char] else [])
       ++ FENCE).

(** The text of a structured record: it opens with a brace and closes with
    one. *)
Definition is_record_text (inner : string) : bool :=
  starts_with ["{"%char] (of_string inner) && ends_with ["}"%char] (of_string inner).

(** ** The inference service, seen from one item

    A request either raises (the image could not be read, the transport
    failed or timed out, the response has no first choice) or yields the
    [content] of the first choice, which may be [None]. *)

Inductive reply : Type :=
| Raises (e : exn)
| Replies (content : option string).

(** A computation that suspends at the two requests. *)
Inductive proc (A : Type) : Type :=
| Ret (a : A)
| Vision (image_path : string) (k : reply -> proc A)
| Parse (transcribed_text : value) (k : reply -> proc A).
Arguments Ret {A} a.
Arguments Vision {A} image_path k.
Arguments Parse {A} transcribed_text k.

Fixpoint proc_bind_def {A B : Type} (f : A -> proc B) (p : proc A) : proc B :=
  match p with
  | Ret a => f a
  | Vision path k => Vision path (fun o => proc_bind_def f (k o))
  | Parse text k => Parse text (fun o => proc_bind_def f (k o))
  end.

#[global] Instance proc_ret : MRet proc := fun A a => Ret a.
#[global] Instance proc_bind : MBind proc := fun A B f p => proc_bind_def f p.

Section Pipeline.

(** [json.loads], the standard library's decoder. *)
Variable json_loads : string -> res value.

(** [raw = content.strip(); raw = re.sub(...); raw = re.sub(...);
    return json.loads(raw)] *)
Definition decode_reply (content : option string) : res value :=
  match content with
  | None => Raise (AttributeError VNone "strip")
  | Some c => json_loads (to_string (strip_code_fences (strip (of_string c))))
  end.

Definition decode (o : reply) : res value :=
  match o with
  | Raises e => Raise e
  | Replies content => decode_reply content
  end.

Definition extract_from_image (image_path : string) : proc (res value) :=
  Vision image_path (fun o => Ret (decode o)).

(** parse_fields.py *)
Definition parse_transcription (transcribed_text : value) : proc (res value) :=
  Parse transcribed_text (fun o => Ret (decode o)).

(** The three dictionaries substituted by [process_one]. *)
Definition extraction_failed (e : exn) : dict :=
  <["datamatrix_integer" := VNone]>
  (<["transcribed_text" := VNone]>
  (<["transcription_confidence" := VInt 0]>
  (<["transcription_comments" := VStr ("Extraction failed: " +:+ exn_str e)]> ∅))).

Definition parse_sentinel (comments : string) : dict :=
  <["sample_number" := VNone]>
  (<["date" := VNone]>
  (<["sampling_event" := VNone]>
  (<["species" := VNone]>
  (<["tissue" := VNone]>
  (<["notes" := VStr ""]>
  (<["parse_confidence" := VInt 0]>
  (<["parse_comments" := VStr comments]> ∅))))))).

Definition parsing_failed (e : exn) : dict :=
  parse_sentinel ("Parsing failed: " +:+ exn_str e).

Definition no_text : dict := parse_sentinel "No transcribed text to parse.".

(** [dm_from_image == filename_integer if dm_from_image is not None and
    filename_integer is not None else None] *)
Definition datamatrix_match (dm_from_image : value) (filename_integer : option string) : value :=
  match dm_from_image, filename_integer with
  | VNone, _ => VNone
  | _, None => VNone
  | v, Some s => VBool (py_eq_str v s)
  end.

(** The dict display that [process_one] returns: later entries win. *)
Definition build_row (path : string) (filename_integer : option string)
    (dm_match : value) (extracted parsed : value) : res dict :=
  e ← py_mapping extracted;
  p ← py_mapping parsed;
  mret (p ∪ (e ∪ (<["image_file" := VStr path]>
                  (<["filename_integer" := of_option filename_integer]>
                  (<["datamatrix_match" := dm_match]> ∅))))).

(** [except Exception as e: extracted = {...}] and
    [except Exception as e: parsed = {...}] *)
Definition or_extraction_failed (r : res value) : value :=
  match r with Ok v => v | Raise e => VDict (extraction_failed e) end.

Definition or_parsing_failed (r : res value) : value :=
  match r with Ok v => v | Raise e => VDict (parsing_failed e) end.

(** The second stage of [process_one]. *)
Definition parse_stage (transcribed : value) : proc value :=
  if truthy transcribed then
    r ← parse_transcription transcribed;
    mret (or_parsing_failed r)
  else mret (VDict no_text).

(** The body of [process_one], inside [async with sem]. *)
Definition process_one (path : string) : proc (res dict) :=
  let filename_integer :=
    extract_integer_from_filename (to_string (Pathlib.name (of_string path))) in
  r ← extract_from_image path;
  let extracted := or_extraction_failed r in
  match py_get extracted "transcribed_text" with
  | Raise e => mret (Raise e)
  | Ok transcribed =>
      parsed ← parse_stage transcribed;
      mret (dm_from_image ← py_get extracted "datamatrix_integer";
            build_row path filename_integer
              (datamatrix_match dm_from_image filename_integer) extracted parsed)
  end.

(** *** Running one item against the answers it receives *)

Record service : Type := Service {
  vision_reply : string -> reply;
  parse_reply : value -> reply
}.

Inductive call : Type :=
| CallVision (image_path : string)
| CallParse (transcribed_text : value).

Fixpoint run {A : Type} (sv : service) (p : proc A) : list call * A :=
  match p with
  | Ret a => ([], a)
  | Vision path k =>
      let '(t, a) := run sv (k (vision_reply sv path)) in (CallVision path :: t, a)
  | Parse text k =>
      let '(t, a) := run sv (k (parse_reply sv text)) in (CallParse text :: t, a)
  end.

Definition is_parse_call (c : call) : bool :=
  match c with CallParse _ => true | CallVision _ => false end.

(** An item: its path and the answers the service gives to its requests. *)
Definition item : Type := string * service.

Definition calls_of (it : item) : list call := (run it.2 (process_one it.1)).1.
Definition row_of (it : item) : res dict := (run it.2 (process_one it.1)).2.

(** The local variables of [process_one] for an item: [filename_integer],
    [extracted] and, for a transcribed text, [parsed]. *)
Definition filename_integer_of (it : item) : option string :=
  extract_integer_from_filename (to_string (Pathlib.name (of_string it.1))).

Definition extracted_of (it : item) : value :=
  or_extraction_failed (decode (vision_reply it.2 it.1)).

Definition parsed_of (it : item) (transcribed : value) : value :=
  if truthy transcribed
  then or_parsing_failed (decode (parse_reply it.2 transcribed))
  else VDict no_text.

(** *** process_all

    [asyncio.as_completed] hands the tasks over in the order in which they
    complete: [order] lists the task indices in that order.  Awaiting a task
    that raised re-raises its exception out of [process_all].  Logging and
    printing are not modelled. *)
Fixpoint collect (items : list item) (order : list nat) (results : list dict)
    : res (list dict) :=
  match order with
  | [] => Ok results
  | j :: order' =>
      match items !! j with
      | None => collect items order' results
      | Some it =>
          match row_of it with
          | Ok result => collect items order' (results ++ [result])
          | Raise e => Raise e
          end
      end
  end.

Definition process_all (order : list nat) (items : list item) : res (list dict) :=
  collect items order [].

(** A completion order of [n] tasks. *)
Definition completion_order (n : nat) (order : list nat) : Prop :=
  order ≡ₚ seq 0 n.

(** [r] is the row of the task with index [j]. *)
Definition row_at (items : list item) (j : nat) (r : dict) : Prop :=
  exists it, items !! j = Some it /\ row_of it = Ok r.

(** *** The semaphore

    [sem = Semaphore(batch_size)]; every task runs [process_one] inside
    [async with sem].  A task is waiting at [acquire], running (suspended at
    a request, or about to leave the block), or finished.  [sem_value] is the
    counter of [asyncio.Semaphore]: [acquire] needs it positive and
    decrements it, [release] increments it. *)

Inductive task : Type :=
| Waiting (path : string)
| Running (p : proc (res dict))
| Finished (r : res dict).

Record sched : Type := Sched { sem_value : nat; tasks : list task }.

Definition start (batch_size : nat) (paths : list string) : sched :=
  Sched batch_size (Waiting <$> paths).

Inductive step : sched -> sched -> Prop :=
| step_acquire v ts i path :
    ts !! i = Some (Waiting path) ->
    step (Sched (S v) ts) (Sched v (<[i := Running (process_one path)]> ts))
| step_vision v ts i path k o :
    ts !! i = Some (Running (Vision path k)) ->
    step (Sched v ts) (Sched v (<[i := Running (k o)]> ts))
| step_parse v ts i text k o :
    ts !! i = Some (Running (Parse text k)) ->
    step (Sched v ts) (Sched v (<[i := Running (k o)]> ts))
| step_release v ts i r :
    ts !! i = Some (Running (Ret r)) ->
    step (Sched v ts) (Sched (S v) (<[i := Finished r]> ts)).

(** Does the task hold the semaphore?  Is one of its requests in flight? *)
Definition holds (t : task) : bool :=
  match t with Running _ => true | _ => false end.

Definition in_flight (t : task) : bool :=
  match t with
  | Running (Vision _ _) | Running (Parse _ _) => true
  | _ => false
  end.

Definition count (p : task -> bool) (ts : list task) : nat :=
  length (filter (fun t => p t = true) ts).

End Pipeline.

(** ** spreadsheet.py *)

Definition COLUMNS : list string :=
  [ "image_file"; "filename_integer"; "datamatrix_integer"; "datamatrix_match";
    "transcribed_text"; "transcription_confidence"; "transcription_comments";
    "sample_number"; "date"; "sampling_event"; "species"; "tissue"; "notes";
    "parse_confidence"; "parse_comments" ].

Inductive fill : Type :=
| RED_FILL
| YELLOW_FILL.

(** [row.get(key)] on a row, which is a dictionary. *)
Definition row_get (row : dict) (key : string) : value :=
  default VNone (row !! key).

(** [v or d] *)
Definition py_or (v d : value) : value := if truthy v then v else d.

(** The integer that a value is in a comparison: [bool] is a subclass of
    [int]. *)
Definition as_number (v : value) : option Z :=
  match v with
  | VBool b => Some (Z.b2z b)
  | VInt n => Some n
  | _ => None
  end.

(** [min(t_conf, p_conf)] followed by the comparisons with 3 and 6.  Both
    operands are truthy here.  When one of them is a [str], a [list] or a
    [dict], either [min] or [min_conf <= 3] raises [TypeError]; the text of
    that error is not modelled. *)
Definition NotComparable : exn := Exn "TypeError" "not supported between instances".

Definition confidence_fill (t_conf p_conf : value) : res (option fill) :=
  match as_number t_conf, as_number p_conf with
  | Some t, Some p =>
      let min_conf := Z.min t p in
      if (min_conf <=? 3)%Z then Ok (Some RED_FILL)
      else if (min_conf <=? 6)%Z then Ok (Some YELLOW_FILL)
      else Ok None
  | _, _ => Raise NotComparable
  end.

(** The fill chosen for the whole row. *)
Definition row_fill (row : dict) : res (option fill) :=
  let t_conf := py_or (row_get row "transcription_confidence") (VInt 10) in
  let p_conf := py_or (row_get row "parse_confidence") (VInt 10) in
  confidence_fill t_conf p_conf.

(** [row.get("datamatrix_match") is False] *)
Definition is_False (v : value) : bool :=
  match v with VBool false => true | _ => false end.

(** The fill of one cell of the row once the loop body is done: the row's
    fill, then the mismatch flag on the [datamatrix_match] cell. *)
Definition cell_fill (row : dict) (column : string) : res (option fill) :=
  f ← row_fill row;
  mret (if String.eqb column "datamatrix_match" && is_False (row_get row "datamatrix_match")
        then Some RED_FILL else f).

(** The fills of the data rows, cell by cell in the order of [COLUMNS].  Cell
    values, the header and the workbook are openpyxl's. *)
Fixpoint mapM_res {A B : Type} (f : A -> res B) (l : list A) : res (list B) :=
  match l with
  | [] => Ok []
  | a :: l' => b ← f a; bs ← mapM_res f l'; mret (b :: bs)
  end.

Definition write_spreadsheet (rows : list dict) : res (list (list (option fill))) :=
  mapM_res (fun row => mapM_res (cell_fill row) COLUMNS) rows.

(** ** A reference decoder

    The results that hold for every decoder take [json.loads] as a parameter.
    The evaluations on concrete replies use [Json.loads], a decoder for JSON
    texts whose numbers are integers and whose characters are below code
    point 256.  On a text with a fractional or exponent number, or with a
    [\u] escape above 255, it answers with the class [OutsideModel], which
    Python never raises; no result below evaluates it on such a text.  The
    texts of the decode errors are abbreviated to the kind of error. *)

Module Json.

Definition quote : ascii := "034"%char.
Definition backslash : ascii := "\"%char.

Definition JSONDecodeError (msg : string) : exn := Exn "JSONDecodeError" msg.
Definition OutsideModel (what : string) : exn := Exn "OutsideModel" what.

(** [WHITESPACE = r'[ \t\n\r]*'] *)
Definition is_ws (c : ascii) : bool :=
  eqc c " "%char || eqc c "009"%char || eqc c "010"%char || eqc c "013"%char.

Definition skip_ws (s : chars) : chars := drop_while is_ws s.

Definition hex_digit (c : ascii) : option N :=
  let n := code c in
  if is_digit c then Some (n - 48)%N
  else if ((97 <=? n) && (n <=? 102))%N then Some (n - 87)%N
  else if ((65 <=? n) && (n <=? 70))%N then Some (n - 55)%N
  else None.

Definition hex4 (a b c d : ascii) : option N :=
  a ← hex_digit a; b ← hex_digit b; c ← hex_digit c; d ← hex_digit d;
  mret (((a * 16 + b) * 16 + c) * 16 + d)%N.

Definition escape (c : ascii) : option ascii :=
  if eqc c quote then Some quote
  else if eqc c backslash then Some backslash
  else if eqc c "/"%char then Some "/"%char
  else if eqc c "b"%char then Some "008"%char
  else if eqc c "f"%char then Some "012"%char
  else if eqc c "n"%char then Some "010"%char
  else if eqc c "r"%char then Some "013"%char
  else if eqc c "t"%char then Some "009"%char
  else None.

(** The characters of a string literal, after its opening quote. *)
Fixpoint parse_string (s : chars) (acc : chars) : res (string * chars) :=
  match s with
  | [] => Raise (JSONDecodeError "Unterminated string starting at")
  | c :: s' =>
      if eqc c quote then Ok (to_string (rev acc), s')
      else if eqc c backslash then
        match s' with
        | [] => Raise (JSONDecodeError "Unterminated string starting at")
        | e :: s'' =>
            if eqc e "u"%char then
              match s'' with
              | h1 :: h2 :: h3 :: h4 :: s3 =>
                  match hex4 h1 h2 h3 h4 with
                  | Some n =>
                      if (n <? 256)%N then parse_string s3 (ascii_of_N n :: acc)
                      else Raise (OutsideModel "character above code point 255")
                  | None => Raise (JSONDecodeError "Invalid \uXXXX escape")
                  end
              | _ => Raise (JSONDecodeError "Invalid \uXXXX escape")
              end
            else
              match escape e with
              | Some x => parse_string s'' (x :: acc)
              | None => Raise (JSONDecodeError "Invalid \escape")
              end
        end
      else if (code c <? 32)%N then
        Raise (JSONDecodeError "Invalid control character at")
      else parse_string s' (c :: acc)
  end.

Definition digits_value (d : chars) : Z :=
  fold_left (fun n c => (n * 10 + Z.of_N (code c - 48))%Z) d 0%Z.

(** Is a fraction or an exponent next?  [(\.\d+)?([eE][-+]?\d+)?] *)
Definition float_follows (s : chars) : bool :=
  match s with
  | c :: d :: rest =>
      (eqc c "."%char && is_digit d)
      || ((eqc c "e"%char || eqc c "E"%char)
          && (is_digit d
              || ((eqc d "-"%char || eqc d "+"%char)
                  && match rest with x :: _ => is_digit x | [] => false end)))
  | _ => false
  end.

(** The integer part of a number, at a text that starts with a digit: a
    single 0, or a run of digits that does not start with 0. *)
Definition parse_natural (s : chars) : chars * chars :=
  match s with
  | c :: s' =>
      if eqc c "0"%char then ([c], s')
      else (take_while is_digit s, drop_while is_digit s)
  | [] => ([], [])
  end.

Definition parse_number (negative : bool) (s : chars) : res (value * chars) :=
  let '(d, rest) := parse_natural s in
  if float_follows rest then Raise (OutsideModel "float")
  else Ok (VInt (if negative then - digits_value d else digits_value d)%Z, rest).

Fixpoint strip_prefix (w s : chars) : option chars :=
  match w, s with
  | [], _ => Some s
  | c :: w', x :: s' => if eqc c x then strip_prefix w' s' else None
  | _ :: _, [] => None
  end.

Definition parse_constant (s : chars) : res (value * chars) :=
  match strip_prefix (of_string "null") s with
  | Some r => Ok (VNone, r)
  | None =>
  match strip_prefix (of_string "true") s with
  | Some r => Ok (VBool true, r)
  | None =>
  match strip_prefix (of_string "false") s with
  | Some r => Ok (VBool false, r)
  | None =>
  match strip_prefix (of_string "NaN") s, strip_prefix (of_string "Infinity") s,
        strip_prefix (of_string "-Infinity") s with
  | None, None, None => Raise (JSONDecodeError "Expecting value")
  | _, _, _ => Raise (OutsideModel "float")
  end end end end.

Definition TooDeep : exn := Exn "RecursionError" "maximum recursion depth exceeded".

Fixpoint parse_value (fuel : nat) (s : chars) : res (value * chars) :=
  match fuel with
  | 0 => Raise TooDeep
  | S fuel' =>
      match s with
      | [] => Raise (JSONDecodeError "Expecting value")
      | c :: s' =>
          if eqc c quote then
            '(str, rest) ← parse_string s' []; mret (VStr str, rest)
          else if eqc c "{"%char then
            match skip_ws s' with
            | x :: rest =>
                if eqc x "}"%char then Ok (VDict ∅, rest)
                else parse_members fuel' (x :: rest) ∅
            | [] => parse_members fuel' [] ∅
            end
          else if eqc c "["%char then
            match skip_ws s' with
            | x :: rest =>
                if eqc x "]"%char then Ok (VList [], rest)
                else parse_elements fuel' (x :: rest) []
            | [] => parse_elements fuel' [] []
            end
          else if is_digit c then parse_number false s
          else if eqc c "-"%char
                  && match s' with d :: _ => is_digit d | [] => false end
          then parse_number true s'
          else parse_constant s
      end
  end

(** The elements of an array, at the first character of an element. *)
with parse_elements (fuel : nat) (s : chars) (acc : list value) : res (value * chars) :=
  match fuel with
  | 0 => Raise TooDeep
  | S fuel' =>
      '(v, rest) ← parse_value fuel' s;
      match skip_ws rest with
      | x :: rest' =>
          if eqc x "]"%char then Ok (VList (rev (v :: acc)), rest')
          else if eqc x ","%char then parse_elements fuel' (skip_ws rest') (v :: acc)
          else Raise (JSONDecodeError "Expecting ',' delimiter")
      | [] => Raise (JSONDecodeError "Expecting ',' delimiter")
      end
  end

(** The members of an object, at the opening quote of a key.  A repeated key
    keeps its last value. *)
with parse_members (fuel : nat) (s : chars) (acc : dict) : res (value * chars) :=
  match fuel with
  | 0 => Raise TooDeep
  | S fuel' =>
      match s with
      | q :: s' =>
          if eqc q quote then
            '(key, rest) ← parse_string s' [];
            match skip_ws rest with
            | x :: rest' =>
                if eqc x ":"%char then
                  '(v, rest'') ← parse_value fuel' (skip_ws rest');
                  match skip_ws rest'' with
                  | y :: rest3 =>
                      if eqc y "}"%char then Ok (VDict (<[key := v]> acc), rest3)
                      else if eqc y ","%char
                      then parse_members fuel' (skip_ws rest3) (<[key := v]> acc)
                      else Raise (JSONDecodeError "Expecting ',' delimiter")
                  | [] => Raise (JSONDecodeError "Expecting ',' delimiter")
                  end
                else Raise (JSONDecodeError "Expecting ':' delimiter")
            | [] => Raise (JSONDecodeError "Expecting ':' delimiter")
            end
          else Raise (JSONDecodeError "Expecting property name enclosed in double quotes")
      | [] => Raise (JSONDecodeError "Expecting property name enclosed in double quotes")
      end
  end.

(** [json.loads(s)] *)
Definition loads (s : string) : res value :=
  let text := skip_ws (of_string s) in
  '(v, rest) ← parse_value (2 * length text + 2) text;
  match skip_ws rest with
  | [] => Ok v
  | _ => Raise (JSONDecodeError "Extra data")
  end.

End Json.

(** Did it return, and what? *)
Definition is_ok {A : Type} (r : res A) : bool :=
  match r with Ok _ => true | Raise _ => false end.

Definition the_row (r : res dict) : dict :=
  match r with Ok d => d | Raise _ => ∅ end.

(** ** Sample replies and items

    The JSON texts below are written with an apostrophe where the text has a
    double quote; [dq] puts the double quotes in. *)

Definition dq (s : string) : string :=
  to_string (map (fun c => if eqc c "'"%char then Json.quote else c) (of_string s)).

Definition nl : string := String "010"%char "".

Definition replying (vision parse : string) : service :=
  Service (fun _ => Replies (Some vision)) (fun _ => Replies (Some parse)).

Definition PARSED_OK : string :=
  dq "{'sample_number': '187', 'date': '20190412', 'sampling_event': 'D1041-D4', 'species': 'Nanomia bijuga', 'tissue': 'nectophore', 'notes': '', 'parse_confidence': 8, 'parse_comments': ''}".

(** A reply of the expected shape. *)
Definition good_item : item :=
  ("scans/DunnLab000187.jpg",
   replying
     (dq "{'datamatrix_integer': '187', 'transcribed_text': 'Nanomia necto', 'transcription_confidence': 9, 'transcription_comments': ''}")
     PARSED_OK).

(** The request times out. *)
Definition timeout_item : item :=
  ("scans/DunnLab000188.jpg",
   Service (fun _ => Raises (Exn "APITimeoutError" "Request timed out."))
           (fun _ => Replies (Some PARSED_OK))).

(** The reply is a JSON array. *)
Definition array_item : item :=
  ("scans/DunnLab000189.jpg", replying "[]" PARSED_OK).

(** The reply has a [datamatrix_match] entry of its own. *)
Definition clash_item : item :=
  ("scans/DunnLab000190.jpg",
   replying
     (dq "{'datamatrix_integer': '190', 'datamatrix_match': false, 'transcribed_text': '', 'transcription_confidence': 9, 'transcription_comments': ''}")
     PARSED_OK).

(** The transcription is empty. *)
Definition empty_text_item : item :=
  ("scans/vial_007.png",
   replying
     (dq "{'datamatrix_integer': '7', 'transcribed_text': '', 'transcription_confidence': 2, 'transcription_comments': 'label blank'}")
     PARSED_OK).

(** The same reply as [good_item], inside a fence. *)
Definition fenced_item : item :=
  ("scans/DunnLab000191.jpg",
   replying
     ("```json" +:+ nl +:+
      dq "{'datamatrix_integer': '191', 'transcribed_text': 'Nanomia necto', 'transcription_confidence': 9, 'transcription_comments': ''}"
      +:+ nl +:+ "```")
     PARSED_OK).
(** ** spreadsheet.py: the workbook

    [write_spreadsheet] with the cells it writes.  The two calls into
    openpyxl that can fail are parameters: [ws_cell v] is
    [ws.cell(row=..., column=..., value=v)], which raises for a value that
    it cannot store in a cell, and [wb_save] is [wb.save(output_path)].  The
    header styles, the assignments of a fill and the column widths are
    computed from the cells and do not fail. *)

Definition cell : Type := value * option fill.

Module Sink.
Section Workbook.
Variable ws_cell : value -> res unit.
Variable wb_save : list (list cell) -> res unit.

(** [row.get(name, "")] *)
Definition cell_value (row : dict) (name : string) : value :=
  default (VStr "") (row !! name).

(** The header row. *)
Definition write_header : res unit :=
  mapM_res (fun name => ws_cell (VStr name)) COLUMNS ;; mret tt.

(** One pass of the loop over the rows: the values of the cells, then the
    fill of the row and the mismatch flag. *)
Definition write_row (row : dict) : res (list cell) :=
  values ← mapM_res (fun name => ws_cell (cell_value row name) ;;
                                 mret (cell_value row name)) COLUMNS;
  fills ← mapM_res (cell_fill row) COLUMNS;
  mret (zip values fills).

(** The data rows of the workbook that was saved. *)
Definition write_spreadsheet (rows : list dict) : res (list (list cell)) :=
  write_header ;;
  sheet ← mapM_res write_row rows;
  wb_save sheet ;;
  mret sheet.

End Workbook.
End Sink.

(** ** extract.py: main

    [main] from the list of images found on: it exits with status 1 when
    there is none.  Otherwise [--limit], when given and not 0, cuts the list
    with the slice [image_paths[:limit]], and [process_all] builds the client
    and the semaphore from the configuration, processes the images, and the
    rows are written.  Reading the configuration file and setting up the
    directories and the logging come before and are not modelled. *)

(** [l[:n]] *)
Definition py_slice_to {A : Type} (l : list A) (n : Z) : list A :=
  if (0 <=? n)%Z then take (Z.to_nat n) l
  else take (length l - Z.to_nat (- n)) l.

(** The images that [main] hands to [process_all]; [None] is
    [sys.exit(1)]. *)
Definition select_images {A : Type} (limit : option Z) (image_paths : list A)
    : option (list A) :=
  match image_paths with
  | [] => None
  | _ =>
      Some (match limit with
            | Some n => if (n =? 0)%Z then image_paths else py_slice_to image_paths n
            | None => image_paths
            end)
  end.






Section Main.
Variable json_loads : string -> res value.

(** The constructor of the client, [AsyncOpenAI(base_url=..., api_key=...)],
    is the library's. *)
Variable AsyncOpenAI : value -> res unit.
Variable ws_cell : value -> res unit.
Variable wb_save : list (list cell) -> res unit.



(** The row of the task with index [j]. *)
Definition row_number (items : list item) (j : nat) : dict :=
  match items !! j with
  | Some it => the_row (row_of json_loads it)
  | None => ∅
  end.

(** *** The states of one task

    What [process_one] still has to do after the answer to its first
    request. *)
Definition after_vision (path : string) (o : reply) : proc (res dict) :=
  let filename_integer :=
    extract_integer_from_filename (to_string (Pathlib.name (of_string path))) in
  let extracted := or_extraction_failed (decode json_loads o) in
  match py_get extracted "transcribed_text" with
  | Raise e => mret (Raise e)
  | Ok transcribed =>
      parsed ← parse_stage json_loads transcribed;
      mret (dm_from_image ← py_get extracted "datamatrix_integer";
            build_row path filename_integer
              (datamatrix_match dm_from_image filename_integer) extracted parsed)
  end.

(** The states that the task of [path] goes through. *)
Definition task_of (path : string) (t : task) : Prop :=
  t = Waiting path
  \/ t = Running (process_one json_loads path)
  \/ (exists o, t = Running (after_vision path o))
  \/ (exists sv, t = Running (Ret (row_of json_loads (path, sv))))
  \/ (exists sv, t = Finished (row_of json_loads (path, sv))).

Definition is_finished (t : task) : bool :=
  match t with Finished _ => true | _ => false end.

(** *** A run with its events

    The steps of [step], each with the task that moves and, at a request,
    the answer that the task is given. *)
Inductive event : Type :=
| Acquired (i : nat)
| VisionAnswered (i : nat) (o : reply)
| ParseAnswered (i : nat) (o : reply)
| Released (i : nat).

Inductive step_with : sched -> event -> sched -> Prop :=
| with_acquire v ts i path :
    ts !! i = Some (Waiting path) ->
    step_with (Sched (S v) ts) (Acquired i)
      (Sched v (<[i := Running (process_one json_loads path)]> ts))
| with_vision v ts i path k o :
    ts !! i = Some (Running (Vision path k)) ->
    step_with (Sched v ts) (VisionAnswered i o) (Sched v (<[i := Running (k o)]> ts))
| with_parse v ts i text k o :
    ts !! i = Some (Running (Parse text k)) ->
    step_with (Sched v ts) (ParseAnswered i o) (Sched v (<[i := Running (k o)]> ts))
| with_release v ts i r :
    ts !! i = Some (Running (Ret r)) ->
    step_with (Sched v ts) (Released i) (Sched (S v) (<[i := Finished r]> ts)).

(** The states of the task of [path] once it has been given the answers
    [vs] to its vision request and [ps] to its parse request. *)
Definition task_after (path : string) (vs ps : list reply) (t : task) : Prop :=
  match vs, ps with
  | [], [] => t = Waiting path \/ t = Running (process_one json_loads path)
  | [o], [] =>
      t = Running (after_vision path o)
      \/ t = Finished (row_of json_loads
                         (path, Service (fun _ => o) (fun _ => Replies None)))
  | [o], [o'] =>
      (exists text k, after_vision path o = Parse text k)
      /\ (t = Running (Ret (row_of json_loads
                              (path, Service (fun _ => o) (fun _ => o'))))
          \/ t = Finished (row_of json_loads
                             (path, Service (fun _ => o) (fun _ => o'))))
  | _, _ => False
  end.

(** A run and the events of its steps, in their order. *)
Inductive run_with : sched -> list event -> sched -> Prop :=
| run_nil s : run_with s [] s
| run_snoc s tr s1 ev s2 :
    run_with s tr s1 -> step_with s1 ev s2 -> run_with s (tr ++ [ev]) s2.

End Main.

(** The answers that task [i] was given in a run, and the service that gives
    just these. *)
Definition vision_answers (i : nat) (tr : list event) : list reply :=
  omap (fun ev => match ev with
                  | VisionAnswered j o => if decide (j = i) then Some o else None
                  | _ => None
                  end) tr.

Definition parse_answers (i : nat) (tr : list event) : list reply :=
  omap (fun ev => match ev with
                  | ParseAnswered j o => if decide (j = i) then Some o else None
                  | _ => None
                  end) tr.

Definition answers (i : nat) (tr : list event) : service :=
  Service (fun _ => default (Replies None) (head (vision_answers i tr)))
          (fun _ => default (Replies None) (head (parse_answers i tr))).

(** No dot in [s]. *)
Definition no_dot (s : chars) : bool :=
  forallb (fun c => negb (eqc c Pathlib.dot)) s.

(** All of [s] is white space. *)
Definition all_space (s : chars) : bool := forallb is_space s.

(** A workbook that stores every value and is saved; a client that is
    built; a configuration with two permits. *)
Definition any_cell (v : value) : res unit := Ok tt.
Definition saved (sheet : list (list cell)) : res unit := Ok tt.




(** The second request times out; the second reply is a JSON array. *)
Definition GOOD_EXTRACTION : string :=
  dq "{'datamatrix_integer': '187', 'transcribed_text': 'Nanomia necto', 'transcription_confidence': 9, 'transcription_comments': ''}".

Definition parse_timeout_item : item :=
  ("scans/DunnLab000187.jpg",
   Service (fun _ => Replies (Some GOOD_EXTRACTION))
           (fun _ => Raises (Exn "APITimeoutError" "Request timed out."))).

Definition parse_array_item : item :=
  ("scans/DunnLab000187.jpg", replying GOOD_EXTRACTION "[1, 2]").

(** The dictionary that a value is. *)
Definition the_dict (v : value) : dict :=
  match v with VDict d => d | _ => ∅ end.

(** ** The filename correlator on Unicode text

    A Python [str] is a sequence of code points, and a file name can hold any
    of them.  The definitions above keep to the code points below 256.  Here
    the correlator and the test of [find_images] are modelled for all code
    points, with the tables of Python 3.11 (Unicode 14.0): [\d] matches the
    decimal digits of every script, while the [0] of the vendor pattern is
    the one character U+0030. *)

Module UChars.

Definition text : Type := list N.

(** The text of a string of the 8-bit model. *)
Definition of_chars (s : chars) : text := code <$> s.

(** The characters of category Nd, in runs: what [\d] matches on [str], and
    what [str.isdecimal] accepts. *)
Definition DECIMAL_DIGITS : list (N * N) :=
  [(48, 57); (1632, 1641); (1776, 1785); (1984, 1993); (2406, 2415);
   (2534, 2543); (2662, 2671); (2790, 2799); (2918, 2927); (3046, 3055);
   (3174, 3183); (3302, 3311); (3430, 3439); (3558, 3567); (3664, 3673);
   (3792, 3801); (3872, 3881); (4160, 4169); (4240, 4249); (6112, 6121);
   (6160, 6169); (6470, 6479); (6608, 6617); (6784, 6793); (6800, 6809);
   (6992, 7001); (7088, 7097); (7232, 7241); (7248, 7257); (42528, 42537);
   (43216, 43225); (43264, 43273); (43472, 43481); (43504, 43513);
   (43600, 43609); (44016, 44025); (65296, 65305); (66720, 66729);
   (68912, 68921); (69734, 69743); (69872, 69881); (69942, 69951);
   (70096, 70105); (70384, 70393); (70736, 70745); (70864, 70873);
   (71248, 71257); (71360, 71369); (71472, 71481); (71904, 71913);
   (72016, 72025); (72784, 72793); (73040, 73049); (73120, 73129);
   (92768, 92777); (92864, 92873); (93008, 93017); (120782, 120831);
   (123200, 123209); (123632, 123641); (125264, 125273); (130032, 130041)]%N.

Definition in_range (c : N) (r : N * N) : bool := (r.1 <=? c)%N && (c <=? r.2)%N.

Definition is_digit (c : N) : bool := existsb (in_range c) DECIMAL_DIGITS.

(** The value of a decimal digit: the runs count from 0 to 9. *)
Definition digit_value (c : N) : option N :=
  (fun r => ((c - r.1) mod 10)%N) <$> List.find (in_range c) DECIMAL_DIGITS.

Definition is_upper (c : N) : bool := (65 <=? c)%N && (c <=? 90)%N.
Definition is_letter (c : N) : bool := is_upper c || ((97 <=? c)%N && (c <=? 122)%N).
Definition to_lower (c : N) : N := if is_upper c then (c + 32)%N else c.

(** [re.IGNORECASE] on a literal [c] of the ASCII range: the characters that
    the literal matches.  A letter matches its two cases and the characters
    that Unicode folds to it: U+0130 and U+0131 for i, U+017F for s and
    U+212A for k.  Another character matches itself. *)
Definition case_variants (c : N) : list N :=
  if is_letter c then
    let l := to_lower c in
    [l; (l - 32)%N]
      ++ (if (l =? 105)%N then [304; 305]
          else if (l =? 115)%N then [383]
          else if (l =? 107)%N then [8490]
          else [])%N
  else [c].

Definition lit_ok (ic : bool) (c x : N) : bool :=
  if ic then bool_decide (x ∈ case_variants c) else (x =? c)%N.

(** [str.lower] on one character, when the result is one ASCII character:
    besides the ASCII characters themselves this is the case for U+212A
    only. *)
Definition lower_char (c : N) : option N :=
  if (c <? 128)%N then Some (to_lower c)
  else if (c =? 8490)%N then Some 107%N
  else None.

(** [s.lower()], when it is an ASCII string. *)
Definition ascii_lower (s : text) : option text := mapM lower_char s.

Fixpoint drop_while (p : N -> bool) (s : text) : text :=
  match s with
  | c :: s' => if p c then drop_while p s' else s
  | [] => []
  end.

Fixpoint take_while (p : N -> bool) (s : text) : text :=
  match s with
  | c :: s' => if p c then c :: take_while p s' else []
  | [] => []
  end.

End UChars.

(** The matcher of [Re], on code points. *)
Module URe.
Import UChars.

Inductive atom : Type :=
| Lit (c : N)
| Digit.

Inductive regex : Type :=
| Atom (a : atom)
| Seq (r1 r2 : regex)
| Opt (r : regex)
| Star (a : atom)
| Plus (a : atom)
| Group (r : regex)
| Bol
| Eol.

Definition outcome : Type := nat * option text.

Definition cont : Type := nat -> text -> option text -> option outcome.

Definition atom_ok (ic : bool) (a : atom) (x : N) : bool :=
  match a with
  | Lit c => lit_ok ic c x
  | Digit => is_digit x
  end.

Fixpoint star (ic : bool) (a : atom) (pos : nat) (s : text)
    (g : option text) (k : cont) : option outcome :=
  match s with
  | x :: s' =>
      if atom_ok ic a x then
        match star ic a (S pos) s' g k with
        | Some o => Some o
        | None => k pos s g
        end
      else k pos s g
  | [] => k pos s g
  end.

Fixpoint re_match (ic : bool) (r : regex) (pos : nat) (s : text)
    (g : option text) (k : cont) : option outcome :=
  match r with
  | Atom a =>
      match s with
      | x :: s' => if atom_ok ic a x then k (S pos) s' g else None
      | [] => None
      end
  | Seq r1 r2 =>
      re_match ic r1 pos s g (fun pos' s' g' => re_match ic r2 pos' s' g' k)
  | Opt r1 =>
      match re_match ic r1 pos s g k with
      | Some o => Some o
      | None => k pos s g
      end
  | Star a => star ic a pos s g k
  | Plus a =>
      match s with
      | x :: s' => if atom_ok ic a x then star ic a (S pos) s' g k else None
      | [] => None
      end
  | Group r1 =>
      re_match ic r1 pos s g
        (fun pos' s' _ => k pos' s' (Some (take (pos' - pos) s)))
  | Bol => if Nat.eqb pos 0 then k pos s g else None
  | Eol =>
      match s with
      | [] => k pos s g
      | [x] => if (x =? 10)%N then k pos s g else None
      | _ => None
      end
  end.

Definition accept : cont := fun pos _ g => Some (pos, g).

Record found : Type := Found { m_start : nat; m_end : nat; m_group : option text }.

Fixpoint search_from (ic : bool) (r : regex) (pos : nat) (s : text) : option found :=
  match re_match ic r pos s None accept with
  | Some (e, g) => Some (Found pos e g)
  | None =>
      match s with
      | [] => None
      | _ :: s' => search_from ic r (S pos) s'
      end
  end.

Definition search (ic : bool) (r : regex) (t : text) : option found :=
  search_from ic r 0 t.

Fixpoint word (w : text) : regex :=
  match w with
  | [] => Opt Bol
  | [c] => Atom (Lit c)
  | c :: w' => Seq (Atom (Lit c)) (word w')
  end.

End URe.

(** [Pathlib], on code points. *)
Module UPathlib.
Import UChars.

Definition sep : N := 47%N.
Definition dot : N := 46%N.

Fixpoint split_sep (cur : text) (s : text) : list text :=
  match s with
  | [] => [rev cur]
  | c :: s' =>
      if (c =? sep)%N then rev cur :: split_sep [] s' else split_sep (c :: cur) s'
  end.

Definition parts (p : text) : list text :=
  filter (fun x => x <> [] /\ x <> [dot]) (split_sep [] p).

Definition name (p : text) : text := List.last (parts p) [].

Fixpoint rfind_dot (s : text) : option nat :=
  match s with
  | [] => None
  | c :: s' =>
      match rfind_dot s' with
      | Some i => Some (S i)
      | None => if (c =? dot)%N then Some 0 else None
      end
  end.

Definition suffix_at (n : text) : option nat :=
  match rfind_dot n with
  | Some i => if (0 <? i) && (S i <? length n) then Some i else None
  | None => None
  end.

Definition suffix (p : text) : text :=
  let n := name p in
  match suffix_at n with Some i => drop i n | None => [] end.

Definition stem (p : text) : text :=
  let n := name p in
  match suffix_at n with Some i => take i n | None => n end.

End UPathlib.

Module Unicode.
Import UChars.

(** [r'DunnLab0*(\d+)'] *)
Definition VENDOR_RE : URe.regex :=
  URe.Seq (URe.word (of_chars (of_string "DunnLab")))
    (URe.Seq (URe.Star (URe.Lit 48%N)) (URe.Group (URe.Plus URe.Digit))).

(** [r'(\d+)'] *)
Definition DIGITS_RE : URe.regex := URe.Group (URe.Plus URe.Digit).

Definition extract_integer_from_filename (filename : text) : option text :=
  let stem := UPathlib.stem filename in
  match URe.search true VENDOR_RE stem with
  | Some m => URe.m_group m
  | None =>
      match URe.search false DIGITS_RE stem with
      | Some m => URe.m_group m
      | None => None
      end
  end.

Definition EXTENSIONS : list text := of_chars <$> (of_string <$> EXTENSIONS).

(** [p.suffix.lower() in EXTENSIONS] *)
Definition has_image_suffix (p : text) : bool :=
  match ascii_lower (UPathlib.suffix p) with
  | Some e => bool_decide (e ∈ EXTENSIONS)
  | None => false
  end.

(** The name of a discovered item: one path component, kept by [find_images]. *)
Definition is_item_name (n : text) : bool :=
  forallb (fun c => negb (c =? UPathlib.sep)%N) n && has_image_suffix n.

End Unicode.

(** The two tiers on code points, stated without regular expressions.  A
    zero is the character U+0030; a digit is a decimal digit of any script. *)
Module UPolicy.
Import UChars.

Definition is_zero (c : N) : bool := (c =? 48)%N.

Fixpoint has_prefix_ci (w s : text) : bool :=
  match w, s with
  | [], _ => true
  | c :: w', x :: s' => lit_ok true c x && has_prefix_ci w' s'
  | _ :: _, [] => false
  end.

Definition TOKEN : text := of_chars (of_string "DunnLab").

Definition vendor_here (s : text) : bool :=
  has_prefix_ci TOKEN s
  && match drop (length TOKEN) s with x :: _ => is_digit x | [] => false end.

Fixpoint vendor_digits (s : text) : option text :=
  if vendor_here s then Some (take_while is_digit (drop (length TOKEN) s))
  else match s with
       | [] => None
       | _ :: s' => vendor_digits s'
       end.

Definition strip_zeros (d : text) : text :=
  match drop_while is_zero d with
  | [] => match d with [] => [] | _ => [48%N] end
  | r => r
  end.

Definition first_digit_run (s : text) : option text :=
  match drop_while (fun c => negb (is_digit c)) s with
  | [] => None
  | r => Some (take_while is_digit r)
  end.

Definition has_digit (s : text) : bool := existsb is_digit s.

Definition identifier (s : text) : option text :=
  match vendor_digits s with
  | Some d => Some (strip_zeros d)
  | None => first_digit_run s
  end.

(** A name whose decimal digits are all ASCII digits. *)
Definition ascii_digits_only (s : text) : bool :=
  forallb (fun c => negb (is_digit c) || ((48 <=? c)%N && (c <=? 57)%N)) s.

End UPolicy.

(** "DunnLab" followed by the full-width digits 0 0 1 8 7 and ".jpg". *)
Definition FULLWIDTH_NAME : UChars.text :=
  UChars.of_chars (of_string "DunnLab")
    ++ [65296; 65296; 65297; 65304; 65303]%N
    ++ UChars.of_chars (of_string ".jpg").
(* ===================================================================== *)
(** * Properties *)
(* ===================================================================== *)

(** ** Evaluations of the correlator *)

Example correlator_vendor : extract_integer_from_filename "DunnLab000187.jpg" = Some "187".
Proof. reflexivity. Qed.
Example correlator_fallback : extract_integer_from_filename "vial_42_after.png" = Some "42".
Proof. reflexivity. Qed.
Example correlator_none : extract_integer_from_filename "nocode.png" = None.
Proof. reflexivity. Qed.
Example correlator_zero : extract_integer_from_filename "dunnlab000.tif" = Some "0".
Proof. reflexivity. Qed.
Example correlator_padded : extract_integer_from_filename "vial_007.png" = Some "007".
Proof. reflexivity. Qed.
Example correlator_dir : extract_integer_from_filename "run12/DUNNLAB0042b7.jpeg" = Some "42".
Proof. reflexivity. Qed.
Example item_name_ok : is_item_name "DunnLab000187.JPG" = true.
Proof. reflexivity. Qed.
Example item_name_txt : is_item_name "notes12.txt" = false.
Proof. reflexivity. Qed.

(** ** Results *)

Lemma ok_the_row (r : res dict) : is_ok r = true -> r = Ok (the_row r).
Proof. by destruct r. Qed.

(** ** The matcher on the two patterns of the correlator *)

Module ReFacts.
Import Re Policy.

Ltac each_char x :=
  destruct x as [[] [] [] [] [] [] [] []].

Lemma zero_atom (x : ascii) : atom_ok true (Lit "0"%char) x = is_zero x.
Proof. each_char x; reflexivity. Qed.

Lemma zero_is_digit (x : ascii) : is_zero x = true -> is_digit x = true.
Proof. each_char x; (reflexivity || discriminate). Qed.

Lemma lit_atom_ci (c x : ascii) :
  atom_ok true (Lit c) x = eqc (lower x) (lower c).
Proof.
  unfold atom_ok, eqc. destruct (Ascii.eqb_spec x c) as [->|]; simpl.
  - symmetry. apply Ascii.eqb_refl.
  - reflexivity.
Qed.

(** A literal word consumes exactly its own characters. *)
Lemma word_match (w : chars) (pos : nat) (s : chars) (g : option chars) (k : cont) :
  w <> [] ->
  re_match true (word w) pos s g k =
  if has_prefix_ci w s then k (pos + length w) (drop (length w) s) g else None.
Proof.
  revert pos s. induction w as [|c w IH]; intros pos s Hw; [done|].
  destruct w as [|c' w].
  - cbn [word re_match has_prefix_ci]. destruct s as [|x s]; [done|].
    rewrite lit_atom_ci. destruct (eqc (lower x) (lower c)); cbn [andb]; [|done].
    destruct s; cbn [length drop]; by rewrite Nat.add_1_r.
  - change (word (c :: c' :: w)) with (Seq (Atom (Lit c)) (word (c' :: w))).
    cbn [re_match]. destruct s as [|x s]; [done|].
    rewrite lit_atom_ci. cbn [has_prefix_ci].
    destruct (eqc (lower x) (lower c)); cbn [andb]; [|done].
    rewrite IH by done. cbn [length drop].
    by replace (S pos + S (length w)) with (pos + S (S (length w))) by lia.
Qed.

(** Greedy [\d*] before a continuation that accepts wherever it is reached. *)
Lemma star_digits (pos : nat) (s : chars) (g : option chars) (k : cont) :
  (forall p t, is_Some (k p t g)) ->
  star false Digit pos s g k =
  k (pos + length (take_while is_digit s)) (drop_while is_digit s) g.
Proof.
  intros Hk. revert pos. induction s as [|x s IH]; intros pos; simpl.
  - by rewrite Nat.add_0_r.
  - destruct (is_digit x) eqn:Hx; simpl.
    + rewrite IH. destruct (Hk (S pos + length (take_while is_digit s)) (drop_while is_digit s)) as [o Ho].
      rewrite Ho. rewrite <- Ho. f_equal. lia.
    + by rewrite Nat.add_0_r.
Qed.

Lemma star_digits_ic (ic : bool) pos s g k :
  star ic Digit pos s g k = star false Digit pos s g k.
Proof. revert pos. induction s as [|x s IH]; intros pos; simpl; [done|]. by rewrite IH. Qed.

Lemma take_take_while (p : ascii -> bool) (s : chars) :
  take (length (take_while p s)) s = take_while p s.
Proof. induction s as [|x s IH]; simpl; [done|]. destruct (p x); simpl; [by rewrite IH|done]. Qed.

(** [(\d+)] at the end of a pattern takes the whole run of digits in front. *)
Lemma digits_group (ic : bool) (pos : nat) (s : chars) (g : option chars) :
  re_match ic (Group (Plus Digit)) pos s g accept =
  match take_while is_digit s with
  | [] => None
  | d => Some (pos + length d, Some d)
  end.
Proof.
  cbn [re_match]. destruct s as [|x s]; [done|]. cbn [atom_ok take_while].
  destruct (is_digit x) eqn:Hx; [|done].
  rewrite star_digits_ic, star_digits by (intros; eexists; reflexivity).
  cbn [length]. f_equal.
  replace (S pos + length (take_while is_digit s)) with (pos + S (length (take_while is_digit s))) by lia.
  f_equal. f_equal.
  replace (pos + S (length (take_while is_digit s)) - pos) with (S (length (take_while is_digit s))) by lia.
  simpl. by rewrite take_take_while.
Qed.

Lemma strip_zeros_cons0 (x : ascii) (d : chars) :
  is_zero x = true -> d <> [] -> strip_zeros (x :: d) = strip_zeros d.
Proof.
  intros Hx Hd. unfold strip_zeros. simpl. rewrite Hx.
  destruct (drop_while is_zero d); [|done]. by destruct d.
Qed.

Lemma strip_zeros_nonzero (x : ascii) (d : chars) :
  is_zero x = false -> strip_zeros (x :: d) = x :: d.
Proof. intros Hx. unfold strip_zeros. simpl. by rewrite Hx. Qed.

(** [0*(\d+)]: the zeros are given back one at a time until a digit is left
    for the group. *)
Lemma zeros_then_digits (pos : nat) (s : chars) (g : option chars) :
  star true (Lit "0"%char) pos s g
    (fun pos' s' g' => re_match true (Group (Plus Digit)) pos' s' g' accept) =
  match take_while is_digit s with
  | [] => None
  | d => Some (pos + length d, Some (strip_zeros d))
  end.
Proof.
  revert pos. induction s as [|x s IH]; intros pos.
  - done.
  - cbn [star]. rewrite zero_atom. destruct (is_zero x) eqn:Hz.
    + rewrite IH. cbn [take_while]. rewrite (zero_is_digit _ Hz).
      destruct (take_while is_digit s) as [|y d] eqn:Hd.
      * rewrite digits_group. cbn [take_while]. rewrite (zero_is_digit _ Hz), Hd.
        f_equal. f_equal. f_equal. unfold strip_zeros. simpl. rewrite Hz. simpl.
        each_char x; (reflexivity || discriminate).
      * rewrite (strip_zeros_cons0 x (y :: d) Hz) by discriminate. f_equal. f_equal. simpl. lia.
    + rewrite digits_group. cbn [take_while]. destruct (is_digit x) eqn:Hx; [|done].
      by rewrite strip_zeros_nonzero.
Qed.

(** The vendor pattern at one position. *)
Lemma vendor_match_here (pos : nat) (s : chars) :
  re_match true VENDOR_RE pos s None accept =
  if vendor_here s
  then Some (pos + length TOKEN + length (take_while is_digit (drop (length TOKEN) s)),
             Some (strip_zeros (take_while is_digit (drop (length TOKEN) s))))
  else None.
Proof.
  unfold VENDOR_RE. cbn [re_match]. rewrite word_match by done.
  fold TOKEN. unfold vendor_here.
  destruct (has_prefix_ci TOKEN s); cbn [andb]; [|done].
  rewrite zeros_then_digits.
  destruct (drop (length TOKEN) s) as [|x t]; [done|].
  cbn [take_while]. by destruct (is_digit x).
Qed.

Lemma vendor_search_from (pos : nat) (s : chars) :
  m_group <$> search_from true VENDOR_RE pos s = (fun d => Some (strip_zeros d)) <$> vendor_digits s.
Proof.
  revert pos. induction s as [|x s IH]; intros pos.
  - done.
  - cbn [search_from vendor_digits]. rewrite vendor_match_here.
    destruct (vendor_here (x :: s)).
    + reflexivity.
    + apply IH.
Qed.

Lemma digits_search_from (pos : nat) (s : chars) :
  m_group <$> search_from false DIGITS_RE pos s = Some <$> first_digit_run s.
Proof.
  revert pos. induction s as [|x s IH]; intros pos.
  - done.
  - cbn [search_from]. unfold DIGITS_RE. rewrite digits_group.
    unfold first_digit_run. cbn [take_while drop_while].
    destruct (is_digit x) eqn:Hx; cbn [negb].
    + cbn [take_while]. by rewrite Hx.
    + apply IH.
Qed.

End ReFacts.

(** ** The correlator and the policy *)

Module CorrelatorFacts.
Import Re Policy ReFacts.

Lemma of_to_string (l : chars) : of_string (to_string l) = l.
Proof. apply list_ascii_of_string_of_list_ascii. Qed.

Lemma to_of_string (s : string) : to_string (of_string s) = s.
Proof. apply string_of_list_ascii_of_string. Qed.

(** The correlator is the two-tier policy applied to the stem. *)
Lemma correlator_on_stem (f : string) :
  extract_integer_from_filename f
  = to_string <$> identifier (Pathlib.stem (of_string f)).
Proof.
  unfold extract_integer_from_filename, identifier, search, group1.
  pose proof (vendor_search_from 0 (Pathlib.stem (of_string f))) as Hv.
  pose proof (digits_search_from 0 (Pathlib.stem (of_string f))) as Hd.
  destruct (search_from true VENDOR_RE 0 _) as [m|];
    destruct (vendor_digits _) as [d|]; simplify_eq/=; [by rewrite Hv|].
  destruct (search_from false DIGITS_RE 0 _) as [m|];
    destruct (first_digit_run _) as [d|]; simplify_eq/=; [by rewrite Hd|done].
Qed.

(** *** Digits and the policy *)

Lemma take_while_app_stop (p : ascii -> bool) (t e : chars) (y : ascii) :
  p y = false -> take_while p (t ++ y :: e) = take_while p t.
Proof.
  intros Hy. induction t as [|x t IH]; simpl; [by rewrite Hy|].
  destruct (p x); [by rewrite IH|done].
Qed.

Lemma no_digit_run (s : chars) : has_digit s = false -> first_digit_run s = None.
Proof.
  unfold first_digit_run. induction s as [|x s IH]; simpl; [done|].
  destruct (is_digit x); simpl; [done|]. apply IH.
Qed.

Lemma digit_run_some (s : chars) : has_digit s = true -> is_Some (first_digit_run s).
Proof.
  unfold first_digit_run. induction s as [|x s IH]; simpl; [done|].
  destruct (is_digit x); simpl; [eauto|]. apply IH.
Qed.

Lemma has_digit_app (s t : chars) : has_digit (s ++ t) = has_digit s || has_digit t.
Proof. apply existsb_app. Qed.

Lemma has_digit_drop (n : nat) (s : chars) : has_digit (drop n s) = true -> has_digit s = true.
Proof.
  revert s. induction n as [|n IH]; intros [|x s]; simpl; try done.
  intros H. rewrite (IH _ H). apply orb_true_r.
Qed.

Lemma vendor_here_digit (s : chars) : vendor_here s = true -> has_digit s = true.
Proof.
  unfold vendor_here. intros [_ H]%andb_true_iff.
  apply (has_digit_drop (length TOKEN)).
  destruct (drop (length TOKEN) s); [done|]. simpl. by rewrite H.
Qed.

Lemma vendor_digits_digit (s : chars) : is_Some (vendor_digits s) -> has_digit s = true.
Proof.
  induction s as [|x s IH]; cbn [vendor_digits].
  - by intros [? ?].
  - destruct (vendor_here (x :: s)) eqn:Hv; [intros _; by apply vendor_here_digit|].
    intros H. simpl. rewrite (IH H). apply orb_true_r.
Qed.

Lemma identifier_none (s : chars) : identifier s = None <-> has_digit s = false.
Proof.
  unfold identifier. split.
  - destruct (vendor_digits s); [done|]. intros H.
    destruct (has_digit s) eqn:Hd; [|done].
    destruct (digit_run_some s Hd) as [? ?]; congruence.
  - intros Hd. destruct (vendor_digits s) eqn:Hv.
    + assert (has_digit s = true) by (apply vendor_digits_digit; eauto). congruence.
    + by apply no_digit_run.
Qed.

(** *** A suffix without digits changes nothing *)

Section Suffix.
Variable e : chars.
Hypothesis e_no_digit : has_digit e = false.

Local Abbreviation sfx := (Pathlib.dot :: e).

Lemma sfx_no_digit : has_digit sfx = false.
Proof. done. Qed.

Lemma first_digit_run_sfx (t : chars) :
  first_digit_run (t ++ sfx) = first_digit_run t.
Proof.
  induction t as [|x t IH].
  - simpl. by rewrite (no_digit_run sfx).
  - unfold first_digit_run in *. cbn [app drop_while].
    destruct (is_digit x) eqn:Hx; cbn [negb]; [|apply IH].
    f_equal. cbn [take_while]. rewrite Hx. f_equal.
    by apply take_while_app_stop.
Qed.

Lemma prefix_sfx (w t : chars) :
  forallb (fun c => negb (eqc (lower Pathlib.dot) (lower c))) w = true ->
  has_prefix_ci w (t ++ sfx) = has_prefix_ci w t.
Proof.
  revert t. induction w as [|c w IH]; intros t Hw; [done|].
  apply andb_true_iff in Hw as [Hc Hw].
  destruct t as [|x t]; cbn [app has_prefix_ci].
  - apply negb_true_iff in Hc. by rewrite Hc.
  - by rewrite IH.
Qed.

Lemma vendor_here_sfx (t : chars) : vendor_here (t ++ sfx) = vendor_here t.
Proof.
  unfold vendor_here. rewrite prefix_sfx by reflexivity.
  destruct (has_prefix_ci TOKEN t) eqn:Hp; cbn [andb]; [|done].
  destruct (decide (length TOKEN < length t)) as [Hl|Hl].
  - rewrite drop_app_le by lia.
    destruct (drop (length TOKEN) t) eqn:Hd; [|done].
    apply (f_equal length) in Hd. rewrite length_drop in Hd. cbn [length] in Hd. lia.
  - assert (length t = length TOKEN) as Hlen.
    { assert (length TOKEN <= length t); [|lia]. clear -Hp.
      revert t Hp. generalize TOKEN. intros w.
      induction w as [|c w IH]; intros [|x t] Hp; simpl in *; try done; try lia.
      apply andb_true_iff in Hp as [_ H]. apply IH in H. lia. }
    rewrite drop_app_length'  by done. rewrite drop_ge by lia. done.
Qed.

Lemma vendor_digits_sfx (t : chars) : vendor_digits (t ++ sfx) = vendor_digits t.
Proof.
  induction t as [|x t IH].
  - cbn [app vendor_digits]. destruct (vendor_digits sfx) eqn:Hv; [|done].
    assert (has_digit sfx = true) by (apply vendor_digits_digit; eauto).
    by rewrite sfx_no_digit in *.
  - change ((x :: t) ++ sfx) with (x :: (t ++ sfx)). cbn [vendor_digits].
    change (x :: (t ++ sfx)) with ((x :: t) ++ sfx).
    rewrite vendor_here_sfx, IH.
    destruct (vendor_here (x :: t)) eqn:Hv; [|done].
    f_equal.
    assert (length TOKEN < length (x :: t)) as Hl.
    { unfold vendor_here in Hv. apply andb_true_iff in Hv as [_ Hv].
      destruct (drop (length TOKEN) (x :: t)) eqn:Hd; [done|].
      apply (f_equal length) in Hd. rewrite length_drop in Hd. cbn [length] in *. lia. }
    rewrite drop_app_le by lia. by apply take_while_app_stop.
Qed.

Lemma identifier_sfx (t : chars) : identifier (t ++ sfx) = identifier t.
Proof. unfold identifier. by rewrite vendor_digits_sfx, first_digit_run_sfx. Qed.
End Suffix.
End CorrelatorFacts.

(** ** Item names *)

Module ItemFacts.
Import Re Policy ReFacts CorrelatorFacts.

Lemma split_no_sep (cur s : chars) :
  forallb (fun c => negb (eqc c Pathlib.sep)) s = true ->
  Pathlib.split_sep cur s = [rev cur ++ s].
Proof.
  revert cur. induction s as [|x s IH]; intros cur H; simpl in *.
  - by rewrite app_nil_r.
  - apply andb_true_iff in H as [Hx H]. apply negb_true_iff in Hx. rewrite Hx.
    rewrite IH by done. simpl. by rewrite <- app_assoc.
Qed.

Lemma name_no_sep (s : chars) :
  forallb (fun c => negb (eqc c Pathlib.sep)) s = true ->
  Pathlib.name s = s \/ Pathlib.name s = [].
Proof.
  intros H. unfold Pathlib.name, Pathlib.parts. rewrite split_no_sep by done.
  simpl. rewrite filter_cons, filter_nil. case_decide; simpl; auto.
Qed.

Lemma rfind_dot_spec (s : chars) (i : nat) :
  Pathlib.rfind_dot s = Some i ->
  exists e, drop i s = Pathlib.dot :: e.
Proof.
  revert i. induction s as [|x s IH]; intros i; simpl; [done|].
  destruct (Pathlib.rfind_dot s) as [j|].
  - intros [= <-]. simpl. by apply IH.
  - destruct (eqc x Pathlib.dot) eqn:Hx; [|done]. intros [= <-].
    apply Ascii.eqb_eq in Hx. subst. simpl. eauto.
Qed.

Lemma lower_digit (c : ascii) : is_digit (lower c) = is_digit c.
Proof. each_char c; reflexivity. Qed.

Lemma has_digit_lower (s : chars) : has_digit (map lower s) = has_digit s.
Proof. induction s as [|x s IH]; simpl; [done|]. by rewrite lower_digit, IH. Qed.

Lemma extension_no_digit (s : chars) :
  to_string (map lower s) ∈ EXTENSIONS -> has_digit s = false.
Proof.
  intros H. rewrite <- has_digit_lower.
  rewrite <- (of_to_string (map lower s)).
  unfold EXTENSIONS in H. set_unfold in H.
  destruct H as [->|[->|[->|[->|[->|[]]]]]]; reflexivity.
Qed.

(** An item name is its stem followed by a dot and an extension without
    digits. *)
Lemma item_name_shape (n : string) :
  is_item_name n = true ->
  exists e, has_digit e = false
    /\ of_string n = Pathlib.stem (of_string n) ++ Pathlib.dot :: e.
Proof.
  unfold is_item_name, has_image_suffix. intros [Hsep Hsuf]%andb_true_iff.
  apply bool_decide_eq_true in Hsuf.
  pose proof (extension_no_digit _ Hsuf) as Hnd.
  unfold Pathlib.suffix, Pathlib.stem in *.
  destruct (Pathlib.suffix_at (Pathlib.name (of_string n))) as [i|] eqn:Hi.
  - destruct (name_no_sep _ Hsep) as [Hn|Hn]; rewrite Hn in *; [|done].
    unfold Pathlib.suffix_at in Hi.
    destruct (Pathlib.rfind_dot (of_string n)) as [j|] eqn:Hj; [|done].
    destruct (_ && _); [|done]. injection Hi as ->.
    destruct (rfind_dot_spec _ _ Hj) as [e He].
    exists e. split.
    + rewrite He in Hnd. exact Hnd.
    + by rewrite <- He, take_drop.
  - exfalso. simpl in Hsuf. unfold EXTENSIONS in Hsuf. set_unfold in Hsuf.
    destruct Hsuf as [?|[?|[?|[?|[?|[]]]]]]; discriminate.
Qed.

Lemma item_name_identifier (n : string) :
  is_item_name n = true ->
  identifier (Pathlib.stem (of_string n)) = identifier (of_string n)
  /\ has_digit (Pathlib.stem (of_string n)) = has_digit (of_string n).
Proof.
  intros H. destruct (item_name_shape n H) as (e & He & Hn).
  rewrite Hn at 2 4. rewrite identifier_sfx by done. split; [done|].
  rewrite has_digit_app. simpl. rewrite He. by rewrite orb_false_r.
Qed.

End ItemFacts.

(** ** The filename correlator *)

Section Correlator.
Import Policy CorrelatorFacts ItemFacts.

Lemma strip_zeros_length (d : chars) : length (strip_zeros d) <= length d.
Proof.
  unfold strip_zeros.
  assert (length (drop_while is_zero d) <= length d) as H.
  { induction d as [|x d IH]; simpl; [done|]. destruct (is_zero x); simpl; lia. }
  destruct (drop_while is_zero d); [|done]. destruct d; simpl; lia.
Qed.

(** What is removed by [strip_zeros] is a run of zeros, and what is left does
    not start with a zero unless it is the single digit 0. *)
Lemma strip_zeros_spec (d : chars) :
  d <> [] ->
  exists k,
    d = replicate k "0"%char ++ strip_zeros d
    /\ (strip_zeros d = ["0"%char]
        \/ exists x r, strip_zeros d = x :: r /\ is_zero x = false).
Proof.
  induction d as [|x d IH]; [done|]. intros _.
  destruct (is_zero x) eqn:Hx.
  - assert (x = "0"%char) as -> by (by apply Ascii.eqb_eq in Hx).
    destruct d as [|y d].
    + exists 0. split; [done|by left].
    + destruct IH as (k & Hk & Ht); [done|].
      exists (S k). rewrite ReFacts.strip_zeros_cons0 by done.
      split; [|done]. simpl. by rewrite <- Hk.
  - exists 0. rewrite ReFacts.strip_zeros_nonzero by done.
    split; [done|]. right. eauto.
Qed.

Lemma padded_differs (x : ascii) (d : chars) :
  is_zero x = true -> d <> [] -> strip_zeros (x :: d) <> x :: d.
Proof.
  intros Hx Hd Heq. pose proof (strip_zeros_length d) as Hl.
  rewrite ReFacts.strip_zeros_cons0 in Heq by done.
  apply (f_equal length) in Heq. simpl in Heq. lia.
Qed.

Lemma to_string_inj (a b : chars) : to_string a = to_string b -> a = b.
Proof. intros H. by rewrite <- (of_to_string a), <- (of_to_string b), H. Qed.

End Correlator.

(** C10.  For every name whose stem has digits but no vendor token followed
    by digits, the identifier is the first run of digits of the stem exactly
    as written, leading zeros included ("vial_007.png" gives "007"); and when
    that run is zero-padded, the comparison of [datamatrix_match] with the
    unpadded number read from the image is false. *)
Theorem fallback_keeps_leading_zeros :
  (forall f : string,
      Policy.vendor_digits (Pathlib.stem (of_string f)) = None ->
      Policy.has_digit (Pathlib.stem (of_string f)) = true ->
      exists d,
        Policy.first_digit_run (Pathlib.stem (of_string f)) = Some d
        /\ extract_integer_from_filename f = Some (to_string d)
        /\ (forall x d', d = x :: d' -> Policy.is_zero x = true -> d' <> [] ->
              datamatrix_match (VStr (to_string (Policy.strip_zeros d)))
                (extract_integer_from_filename f) = VBool false))
  /\ extract_integer_from_filename "vial_007.png" = Some "007".
Proof.
  split; [|reflexivity].
  intros f Hv Hd. rewrite CorrelatorFacts.correlator_on_stem.
  unfold Policy.identifier. rewrite Hv.
  destruct (CorrelatorFacts.digit_run_some _ Hd) as [d Hrun].
  exists d. rewrite Hrun. repeat split.
  intros x d' -> Hx Hd'. simpl. f_equal.
  apply String.eqb_neq. intros Heq.
  change (String x (to_string d')) with (to_string (x :: d')) in Heq.
  apply to_string_inj in Heq.
  by apply (padded_differs x d').
Qed.

Lemma fallback_keeps_leading_zeros_witness :
  exists d,
    Policy.first_digit_run (Pathlib.stem (of_string "vial_007.png")) = Some d
    /\ extract_integer_from_filename "vial_007.png" = Some (to_string d)
    /\ (forall x d', d = x :: d' -> Policy.is_zero x = true -> d' <> [] ->
          datamatrix_match (VStr (to_string (Policy.strip_zeros d)))
            (extract_integer_from_filename "vial_007.png") = VBool false).
Proof.
  apply (proj1 fallback_keeps_leading_zeros "vial_007.png"); reflexivity.
Defined.

(** ** The correlator on Unicode text *)

Module UReFacts.
Import UChars URe UPolicy.

Lemma zero_atom_u (x : N) : atom_ok true (Lit 48%N) x = is_zero x.
Proof.
  unfold atom_ok, lit_ok, is_zero. change (case_variants 48) with [48%N].
  destruct (N.eqb_spec x 48) as [->|Hx].
  - apply bool_decide_eq_true, elem_of_cons. by left.
  - apply bool_decide_eq_false. by intros [?|?%elem_of_nil]%elem_of_cons.
Qed.

Lemma zero_is_digit_u (x : N) : is_zero x = true -> is_digit x = true.
Proof. unfold is_zero. intros ->%N.eqb_eq. reflexivity. Qed.

(** A literal word consumes exactly its own characters. *)
Lemma word_match_u (w : text) (pos : nat) (s : text) (g : option text) (k : cont) :
  w <> [] ->
  re_match true (word w) pos s g k =
  if has_prefix_ci w s then k (pos + length w) (drop (length w) s) g else None.
Proof.
  revert pos s. induction w as [|c w IH]; intros pos s Hw; [done|].
  destruct w as [|c' w].
  - cbn [word re_match has_prefix_ci atom_ok]. destruct s as [|x s]; [done|].
    destruct (lit_ok true c x); cbn [andb]; [|done].
    destruct s; cbn [length drop]; by rewrite Nat.add_1_r.
  - change (word (c :: c' :: w)) with (Seq (Atom (Lit c)) (word (c' :: w))).
    cbn [re_match atom_ok]. destruct s as [|x s]; [done|].
    cbn [has_prefix_ci].
    destruct (lit_ok true c x); cbn [andb]; [|done].
    rewrite IH by done. cbn [length drop].
    by replace (S pos + S (length w)) with (pos + S (S (length w))) by lia.
Qed.

(** Greedy [\d*] before a continuation that accepts wherever it is reached. *)
Lemma star_digits_u (pos : nat) (s : text) (g : option text) (k : cont) :
  (forall p t, is_Some (k p t g)) ->
  star false Digit pos s g k =
  k (pos + length (take_while is_digit s)) (drop_while is_digit s) g.
Proof.
  intros Hk. revert pos. induction s as [|x s IH]; intros pos; cbn [star take_while drop_while atom_ok].
  - by rewrite Nat.add_0_r.
  - destruct (is_digit x) eqn:Hx.
    + rewrite IH.
      destruct (Hk (S pos + length (take_while is_digit s)) (drop_while is_digit s))
        as [o Ho].
      rewrite Ho. rewrite <- Ho. cbn [length]. f_equal. lia.
    + cbn [length]. by rewrite Nat.add_0_r.
Qed.

Lemma star_digits_ic_u (ic : bool) pos s g k :
  star ic Digit pos s g k = star false Digit pos s g k.
Proof.
  revert pos. induction s as [|x s IH]; intros pos; cbn [star atom_ok]; [done|].
  by rewrite IH.
Qed.

Lemma take_take_while_u (p : N -> bool) (s : text) :
  take (length (take_while p s)) s = take_while p s.
Proof.
  induction s as [|x s IH]; cbn [take_while]; [done|].
  destruct (p x); cbn [length take]; [by rewrite IH|done].
Qed.

(** [(\d+)] at the end of a pattern takes the whole run of digits in front. *)
Lemma digits_group_u (ic : bool) (pos : nat) (s : text) (g : option text) :
  re_match ic (Group (Plus Digit)) pos s g accept =
  match take_while is_digit s with
  | [] => None
  | d => Some (pos + length d, Some d)
  end.
Proof.
  cbn [re_match]. destruct s as [|x s]; [done|]. cbn [atom_ok take_while].
  destruct (is_digit x) eqn:Hx; [|done].
  rewrite star_digits_ic_u, star_digits_u by (intros; eexists; reflexivity).
  cbn [length]. f_equal.
  replace (S pos + length (take_while is_digit s))
    with (pos + S (length (take_while is_digit s))) by lia.
  f_equal. f_equal.
  replace (pos + S (length (take_while is_digit s)) - pos)
    with (S (length (take_while is_digit s))) by lia.
  cbn [take]. by rewrite take_take_while_u.
Qed.

Lemma strip_zeros_cons0_u (x : N) (d : text) :
  is_zero x = true -> d <> [] -> strip_zeros (x :: d) = strip_zeros d.
Proof.
  intros Hx Hd. unfold strip_zeros. cbn [drop_while]. rewrite Hx.
  destruct (drop_while is_zero d); [|done]. by destruct d.
Qed.

Lemma strip_zeros_nonzero_u (x : N) (d : text) :
  is_zero x = false -> strip_zeros (x :: d) = x :: d.
Proof. intros Hx. unfold strip_zeros. cbn [drop_while]. by rewrite Hx. Qed.

(** [0*(\d+)]: the zeros are given back one at a time until a digit is left
    for the group. *)
Lemma zeros_then_digits_u (pos : nat) (s : text) (g : option text) :
  star true (Lit 48%N) pos s g
    (fun pos' s' g' => re_match true (Group (Plus Digit)) pos' s' g' accept) =
  match take_while is_digit s with
  | [] => None
  | d => Some (pos + length d, Some (strip_zeros d))
  end.
Proof.
  revert pos. induction s as [|x s IH]; intros pos.
  - done.
  - cbn [star]. rewrite zero_atom_u. destruct (is_zero x) eqn:Hz.
    + rewrite IH. cbn [take_while]. rewrite (zero_is_digit_u _ Hz).
      destruct (take_while is_digit s) as [|y d] eqn:Hd.
      * rewrite digits_group_u. cbn [take_while]. rewrite (zero_is_digit_u _ Hz), Hd.
        f_equal. f_equal. f_equal. unfold strip_zeros. cbn [drop_while]. rewrite Hz.
        apply N.eqb_eq in Hz. by subst.
      * rewrite (strip_zeros_cons0_u x (y :: d) Hz) by discriminate.
        f_equal. f_equal. cbn [length]. lia.
    + rewrite digits_group_u. cbn [take_while]. destruct (is_digit x) eqn:Hx; [|done].
      by rewrite strip_zeros_nonzero_u.
Qed.

(** The vendor pattern at one position. *)
Lemma vendor_match_here_u (pos : nat) (s : text) :
  re_match true Unicode.VENDOR_RE pos s None accept =
  if vendor_here s
  then Some (pos + length TOKEN + length (take_while is_digit (drop (length TOKEN) s)),
             Some (strip_zeros (take_while is_digit (drop (length TOKEN) s))))
  else None.
Proof.
  unfold Unicode.VENDOR_RE. cbn [re_match]. rewrite word_match_u by done.
  fold TOKEN. unfold vendor_here.
  destruct (has_prefix_ci TOKEN s); cbn [andb]; [|done].
  rewrite zeros_then_digits_u.
  destruct (drop (length TOKEN) s) as [|x t]; [done|].
  cbn [take_while]. by destruct (is_digit x).
Qed.

Lemma vendor_search_from_u (pos : nat) (s : text) :
  m_group <$> search_from true Unicode.VENDOR_RE pos s
  = (fun d => Some (strip_zeros d)) <$> vendor_digits s.
Proof.
  revert pos. induction s as [|x s IH]; intros pos.
  - done.
  - cbn [search_from vendor_digits]. rewrite vendor_match_here_u.
    destruct (vendor_here (x :: s)).
    + reflexivity.
    + apply IH.
Qed.

Lemma digits_search_from_u (pos : nat) (s : text) :
  m_group <$> search_from false Unicode.DIGITS_RE pos s = Some <$> first_digit_run s.
Proof.
  revert pos. induction s as [|x s IH]; intros pos.
  - done.
  - cbn [search_from]. unfold Unicode.DIGITS_RE. rewrite digits_group_u.
    unfold first_digit_run. cbn [take_while drop_while].
    destruct (is_digit x) eqn:Hx; cbn [negb].
    + cbn [take_while]. by rewrite Hx.
    + apply IH.
Qed.

End UReFacts.

Module UCorrelatorFacts.
Import UChars URe UPolicy UReFacts.

(** The correlator is the two-tier policy applied to the stem. *)
Lemma correlator_on_stem_u (f : text) :
  Unicode.extract_integer_from_filename f = identifier (UPathlib.stem f).
Proof.
  unfold Unicode.extract_integer_from_filename, identifier, search.
  pose proof (vendor_search_from_u 0 (UPathlib.stem f)) as Hv.
  pose proof (digits_search_from_u 0 (UPathlib.stem f)) as Hd.
  destruct (search_from true Unicode.VENDOR_RE 0 _) as [m|];
    destruct (vendor_digits _) as [d|]; simplify_eq/=; [done|].
  destruct (search_from false Unicode.DIGITS_RE 0 _) as [m|];
    destruct (first_digit_run _) as [d|]; simplify_eq/=; done.
Qed.

Lemma take_while_app_stop_u (p : N -> bool) (t e : text) (y : N) :
  p y = false -> take_while p (t ++ y :: e) = take_while p t.
Proof.
  intros Hy. induction t as [|x t IH]; cbn [app take_while]; [by rewrite Hy|].
  destruct (p x); [by rewrite IH|done].
Qed.

Lemma no_digit_run_u (s : text) : has_digit s = false -> first_digit_run s = None.
Proof.
  unfold first_digit_run, has_digit.
  induction s as [|x s IH]; cbn [existsb drop_while]; [done|].
  destruct (is_digit x); cbn [negb orb]; [done|]. apply IH.
Qed.

Lemma digit_run_some_u (s : text) : has_digit s = true -> is_Some (first_digit_run s).
Proof.
  unfold first_digit_run, has_digit.
  induction s as [|x s IH]; cbn [existsb drop_while]; [done|].
  destruct (is_digit x); cbn [negb orb]; [eauto|]. apply IH.
Qed.

Lemma has_digit_app_u (s t : text) : has_digit (s ++ t) = has_digit s || has_digit t.
Proof. apply existsb_app. Qed.

Lemma has_digit_drop_u (n : nat) (s : text) :
  has_digit (drop n s) = true -> has_digit s = true.
Proof.
  unfold has_digit. revert s. induction n as [|n IH]; intros [|x s]; cbn [drop existsb]; try done.
  intros H. rewrite (IH _ H). apply orb_true_r.
Qed.

Lemma vendor_here_digit_u (s : text) : vendor_here s = true -> has_digit s = true.
Proof.
  unfold vendor_here. intros [_ H]%andb_true_iff.
  apply (has_digit_drop_u (length TOKEN)).
  destruct (drop (length TOKEN) s); [done|]. unfold has_digit. cbn [existsb]. by rewrite H.
Qed.

Lemma vendor_digits_digit_u (s : text) : is_Some (vendor_digits s) -> has_digit s = true.
Proof.
  induction s as [|x s IH]; cbn [vendor_digits].
  - by intros [? ?].
  - destruct (vendor_here (x :: s)) eqn:Hv; [intros _; by apply vendor_here_digit_u|].
    intros H. unfold has_digit in *. cbn [existsb]. rewrite (IH H). apply orb_true_r.
Qed.

Lemma identifier_none_u (s : text) : identifier s = None <-> has_digit s = false.
Proof.
  unfold identifier. split.
  - destruct (vendor_digits s); [done|]. intros H.
    destruct (has_digit s) eqn:Hd; [|done].
    destruct (digit_run_some_u s Hd) as [? ?]; congruence.
  - intros Hd. destruct (vendor_digits s) eqn:Hv.
    + assert (has_digit s = true) by (apply vendor_digits_digit_u; eauto). congruence.
    + by apply no_digit_run_u.
Qed.

(** *** A suffix without digits changes nothing *)

Section SuffixU.
Variable e : text.
Hypothesis e_no_digit : has_digit e = false.

Local Abbreviation sfx := (UPathlib.dot :: e).

Lemma sfx_no_digit_u : has_digit sfx = false.
Proof. done. Qed.

Lemma first_digit_run_sfx_u (t : text) :
  first_digit_run (t ++ sfx) = first_digit_run t.
Proof.
  induction t as [|x t IH].
  - cbn [app]. by rewrite (no_digit_run_u sfx).
  - unfold first_digit_run in *. cbn [app drop_while].
    destruct (is_digit x) eqn:Hx; cbn [negb]; [|apply IH].
    f_equal. cbn [take_while]. rewrite Hx. f_equal.
    by apply take_while_app_stop_u.
Qed.

Lemma prefix_sfx_u (w t : text) :
  forallb (fun c => negb (lit_ok true c UPathlib.dot)) w = true ->
  has_prefix_ci w (t ++ sfx) = has_prefix_ci w t.
Proof.
  revert t. induction w as [|c w IH]; intros t Hw; [done|].
  apply andb_true_iff in Hw as [Hc Hw].
  destruct t as [|x t]; cbn [app has_prefix_ci].
  - apply negb_true_iff in Hc. by rewrite Hc.
  - by rewrite IH.
Qed.

Lemma vendor_here_sfx_u (t : text) : vendor_here (t ++ sfx) = vendor_here t.
Proof.
  unfold vendor_here. rewrite prefix_sfx_u by reflexivity.
  destruct (has_prefix_ci TOKEN t) eqn:Hp; cbn [andb]; [|done].
  destruct (decide (length TOKEN < length t)) as [Hl|Hl].
  - rewrite drop_app_le by lia.
    destruct (drop (length TOKEN) t) eqn:Hd; [|done].
    apply (f_equal length) in Hd. rewrite length_drop in Hd. cbn [length] in Hd. lia.
  - assert (length t = length TOKEN) as Hlen.
    { assert (length TOKEN <= length t); [|lia]. clear -Hp.
      revert t Hp. generalize TOKEN. intros w.
      induction w as [|c w IH]; intros [|x t] Hp; cbn [has_prefix_ci length] in *;
        try done; try lia.
      apply andb_true_iff in Hp as [_ H]. apply IH in H. lia. }
    rewrite drop_app_length' by done. rewrite drop_ge by lia. done.
Qed.

Lemma vendor_digits_sfx_u (t : text) : vendor_digits (t ++ sfx) = vendor_digits t.
Proof.
  induction t as [|x t IH].
  - cbn [app vendor_digits]. destruct (vendor_digits sfx) eqn:Hv; [|done].
    assert (has_digit sfx = true) by (apply vendor_digits_digit_u; eauto).
    by rewrite sfx_no_digit_u in *.
  - change ((x :: t) ++ sfx) with (x :: (t ++ sfx)). cbn [vendor_digits].
    change (x :: (t ++ sfx)) with ((x :: t) ++ sfx).
    rewrite vendor_here_sfx_u, IH.
    destruct (vendor_here (x :: t)) eqn:Hv; [|done].
    f_equal.
    assert (length TOKEN < length (x :: t)) as Hl.
    { unfold vendor_here in Hv. apply andb_true_iff in Hv as [_ Hv].
      destruct (drop (length TOKEN) (x :: t)) eqn:Hd; [done|].
      apply (f_equal length) in Hd. rewrite length_drop in Hd. cbn [length] in *. lia. }
    rewrite drop_app_le by lia. by apply take_while_app_stop_u.
Qed.

Lemma identifier_sfx_u (t : text) : identifier (t ++ sfx) = identifier t.
Proof. unfold identifier. by rewrite vendor_digits_sfx_u, first_digit_run_sfx_u. Qed.
End SuffixU.

(** What is removed by [strip_zeros] is a run of the character 0, and what is
    left does not start with it unless it is that character alone. *)
Lemma strip_zeros_spec_u (d : text) :
  d <> [] ->
  exists k,
    d = replicate k 48%N ++ strip_zeros d
    /\ (strip_zeros d = [48%N]
        \/ exists x r, strip_zeros d = x :: r /\ x <> 48%N).
Proof.
  induction d as [|x d IH]; [done|]. intros _.
  destruct (is_zero x) eqn:Hx.
  - assert (x = 48%N) as -> by (by apply N.eqb_eq in Hx).
    destruct d as [|y d].
    + exists 0. split; [done|by left].
    + destruct IH as (k & Hk & Ht); [done|].
      exists (S k). rewrite strip_zeros_cons0_u by done.
      split; [|done]. cbn [replicate app]. by rewrite <- Hk.
  - exists 0. rewrite strip_zeros_nonzero_u by done.
    split; [done|]. right. exists x, d. split; [done|]. by apply N.eqb_neq.
Qed.

Lemma vendor_digits_run_u (s d : text) : vendor_digits s = Some d -> d <> [].
Proof.
  revert d. induction s as [|x s IH]; intros d; cbn [vendor_digits].
  - destruct (vendor_here []) eqn:Hv; [|done]. by vm_compute in Hv.
  - destruct (vendor_here (x :: s)) eqn:Hv; [|apply IH].
    intros Heq. assert (d = take_while is_digit (drop (length TOKEN) (x :: s))) as ->
      by congruence.
    unfold vendor_here in Hv. apply andb_true_iff in Hv as [_ Hv].
    destruct (drop (length TOKEN) (x :: s)) as [|y t]; [done|].
    cbn [take_while]. by rewrite Hv.
Qed.

End UCorrelatorFacts.

Module UItemFacts.
Import UChars URe UPolicy UReFacts UCorrelatorFacts.

Lemma split_no_sep_u (cur s : text) :
  forallb (fun c => negb (c =? UPathlib.sep)%N) s = true ->
  UPathlib.split_sep cur s = [rev cur ++ s].
Proof.
  revert cur. induction s as [|x s IH]; intros cur H; cbn [UPathlib.split_sep forallb] in *.
  - by rewrite app_nil_r.
  - apply andb_true_iff in H as [Hx H]. apply negb_true_iff in Hx. rewrite Hx.
    rewrite IH by done. cbn [rev]. by rewrite <- app_assoc.
Qed.

Lemma name_no_sep_u (s : text) :
  forallb (fun c => negb (c =? UPathlib.sep)%N) s = true ->
  UPathlib.name s = s \/ UPathlib.name s = [].
Proof.
  intros H. unfold UPathlib.name, UPathlib.parts. rewrite split_no_sep_u by done.
  cbn [rev app]. rewrite filter_cons, filter_nil. case_decide; cbn [List.last]; auto.
Qed.

Lemma rfind_dot_spec_u (s : text) (i : nat) :
  UPathlib.rfind_dot s = Some i ->
  exists e, drop i s = UPathlib.dot :: e.
Proof.
  revert i. induction s as [|x s IH]; intros i; cbn [UPathlib.rfind_dot]; [done|].
  destruct (UPathlib.rfind_dot s) as [j|].
  - intros [= <-]. cbn [drop]. by apply IH.
  - destruct (N.eqb_spec x UPathlib.dot) as [->|]; [|done]. intros [= <-].
    cbn [drop]. eauto.
Qed.

(** Below code point 128 the decimal digits are '0'..'9'. *)
Lemma is_digit_ascii (c : N) :
  (c < 128)%N -> is_digit c = (48 <=? c)%N && (c <=? 57)%N.
Proof.
  intros Hc. unfold is_digit, DECIMAL_DIGITS. cbn [existsb].
  unfold in_range at 1. cbn [fst snd].
  match goal with |- _ || ?r = _ => assert (r = false) as ->; [|apply orb_false_r] end.
  repeat (apply orb_false_intro;
          [unfold in_range; cbn [fst snd]; apply andb_false_intro1, N.leb_gt; lia|]).
  reflexivity.
Qed.

Lemma lower_char_digit (c l : N) :
  lower_char c = Some l -> is_digit l = false -> is_digit c = false.
Proof.
  unfold lower_char. destruct (N.ltb_spec c 128) as [Hc|Hc].
  - intros [= <-]. rewrite (is_digit_ascii c Hc). unfold to_lower.
    destruct (is_upper c) eqn:Hu.
    + intros _. unfold is_upper in Hu. apply andb_true_iff in Hu as [Hu _].
      apply N.leb_le in Hu. apply andb_false_intro2, N.leb_gt. lia.
    + by rewrite (is_digit_ascii c Hc).
  - destruct (N.eqb_spec c 8490) as [->|]; [|done]. intros _ _. reflexivity.
Qed.

Lemma ascii_lower_digit (s e : text) :
  ascii_lower s = Some e -> has_digit e = false -> has_digit s = false.
Proof.
  unfold ascii_lower. intros HF%mapM_Some He.
  induction HF as [|c l s e Hc HF IH]; [done|].
  unfold has_digit in *. cbn [existsb] in *.
  apply orb_false_elim in He as [Hl He].
  rewrite (lower_char_digit c l Hc Hl). by apply IH.
Qed.

Lemma extension_no_digit_u (e : text) : e ∈ Unicode.EXTENSIONS -> has_digit e = false.
Proof.
  unfold Unicode.EXTENSIONS, EXTENSIONS. cbn [fmap list_fmap]. intros H.
  set_unfold in H. destruct H as [->|[->|[->|[->|[->|[]]]]]]; reflexivity.
Qed.

(** An item name is its stem followed by a dot and an extension without
    digits. *)
Lemma item_name_shape_u (n : text) :
  Unicode.is_item_name n = true ->
  exists e, has_digit e = false /\ n = UPathlib.stem n ++ UPathlib.dot :: e.
Proof.
  unfold Unicode.is_item_name, Unicode.has_image_suffix.
  intros [Hsep Hsuf]%andb_true_iff.
  destruct (ascii_lower (UPathlib.suffix n)) as [e'|] eqn:He'; [|done].
  apply bool_decide_eq_true in Hsuf.
  pose proof (ascii_lower_digit _ _ He' (extension_no_digit_u _ Hsuf)) as Hnd.
  unfold UPathlib.suffix, UPathlib.stem in *.
  destruct (UPathlib.suffix_at (UPathlib.name n)) as [i|] eqn:Hi.
  - destruct (name_no_sep_u _ Hsep) as [Hn|Hn]; rewrite Hn in *; [|done].
    unfold UPathlib.suffix_at in Hi.
    destruct (UPathlib.rfind_dot n) as [j|] eqn:Hj; [|done].
    destruct (_ && _); [|done]. injection Hi as ->.
    destruct (rfind_dot_spec_u _ _ Hj) as [e He].
    exists e. split.
    + rewrite He in Hnd. exact Hnd.
    + by rewrite <- He, take_drop.
  - exfalso. injection He' as <-. vm_compute in Hsuf. set_unfold in Hsuf.
    destruct Hsuf as [?|[?|[?|[?|[?|[]]]]]]; discriminate.
Qed.

Lemma item_name_identifier_u (n : text) :
  Unicode.is_item_name n = true ->
  identifier (UPathlib.stem n) = identifier n
  /\ has_digit (UPathlib.stem n) = has_digit n.
Proof.
  intros H. destruct (item_name_shape_u n H) as (e & He & Hn).
  rewrite Hn at 2 4. rewrite identifier_sfx_u by done. split; [done|].
  rewrite has_digit_app_u. unfold has_digit at 3. cbn [existsb].
  change (existsb is_digit e) with (has_digit e). rewrite He.
  change (is_digit UPathlib.dot) with false. by rewrite orb_false_r.
Qed.

End UItemFacts.

(** ** The two models of the correlator agree

    On a name of the 8-bit model the correlator on code points gives the
    result of the correlator above. *)

Module UAgree.
Import UChars UReFacts UCorrelatorFacts UItemFacts.

Lemma code_inj (a b : ascii) : code a = code b -> a = b.
Proof.
  unfold code. intros H. by rewrite <- (ascii_N_embedding a), <- (ascii_N_embedding b), H.
Qed.

Lemma code_eqb (a b : ascii) : (code a =? code b)%N = eqc a b.
Proof.
  unfold eqc. destruct (Ascii.eqb_spec a b) as [->|Hab].
  - apply N.eqb_refl.
  - apply N.eqb_neq. intros H. by apply Hab, code_inj.
Qed.

Lemma of_chars_inj (s t : chars) : of_chars s = of_chars t -> s = t.
Proof.
  revert t. induction s as [|a s IH]; intros [|b t]; cbn; try done.
  intros [= Hab Hst]. f_equal; [by apply code_inj|by apply IH].
Qed.

(** *** pathlib *)

Lemma of_chars_rev (s : chars) : of_chars (rev s) = rev (of_chars s).
Proof.
  unfold of_chars. induction s as [|x s IH]; [done|].
  cbn [rev fmap list_fmap]. rewrite fmap_app. cbn [fmap list_fmap]. by f_equal.
Qed.

Lemma split_sep_agree (cur s : chars) :
  UPathlib.split_sep (of_chars cur) (of_chars s)
  = of_chars <$> Pathlib.split_sep cur s.
Proof.
  revert cur. induction s as [|c s IH]; intros cur.
  - cbn [of_chars fmap list_fmap UPathlib.split_sep Pathlib.split_sep].
    by rewrite <- of_chars_rev.
  - cbn [of_chars fmap list_fmap UPathlib.split_sep Pathlib.split_sep].
    change UPathlib.sep with (code Pathlib.sep). rewrite code_eqb.
    destruct (eqc c Pathlib.sep).
    + rewrite fmap_cons, of_chars_rev. f_equal. apply (IH []).
    + apply (IH (c :: cur)).
Qed.

Lemma parts_agree (s : chars) :
  UPathlib.parts (of_chars s) = of_chars <$> Pathlib.parts s.
Proof.
  unfold UPathlib.parts, Pathlib.parts.
  change (UPathlib.split_sep [] (of_chars s))
    with (UPathlib.split_sep (of_chars []) (of_chars s)).
  rewrite split_sep_agree.
  induction (Pathlib.split_sep [] s) as [|x l IH]; [done|].
  rewrite fmap_cons, !filter_cons.
  assert (of_chars x <> [] /\ of_chars x <> [UPathlib.dot]
          <-> x <> [] /\ x <> [Pathlib.dot]) as Hiff.
  { split.
    - intros [H1 H2]. split; intros ->; [by apply H1|by apply H2].
    - intros [H1 H2]. split; intros H.
      + apply H1. by destruct x.
      + apply H2. apply of_chars_inj. exact H. }
  repeat case_decide; try tauto; try (rewrite fmap_cons; f_equal); exact IH.
Qed.

Lemma last_agree (l : list chars) :
  List.last (of_chars <$> l) [] = of_chars (List.last l []).
Proof.
  induction l as [|x l IH]; [done|].
  destruct l as [|y l]; [done|]. exact IH.
Qed.

Lemma name_agree (s : chars) : UPathlib.name (of_chars s) = of_chars (Pathlib.name s).
Proof. unfold UPathlib.name, Pathlib.name. by rewrite parts_agree, last_agree. Qed.

Lemma rfind_dot_agree (s : chars) : UPathlib.rfind_dot (of_chars s) = Pathlib.rfind_dot s.
Proof.
  induction s as [|c s IH]; [done|].
  cbn [of_chars fmap list_fmap UPathlib.rfind_dot Pathlib.rfind_dot].
  fold (of_chars s). rewrite IH. change UPathlib.dot with (code Pathlib.dot).
  by rewrite code_eqb.
Qed.

Lemma stem_agree (s : chars) : UPathlib.stem (of_chars s) = of_chars (Pathlib.stem s).
Proof.
  unfold UPathlib.stem, Pathlib.stem, UPathlib.suffix_at, Pathlib.suffix_at.
  rewrite name_agree, rfind_dot_agree. unfold of_chars. rewrite length_fmap.
  destruct (Pathlib.rfind_dot (Pathlib.name s)) as [i|]; [|done].
  destruct (_ && _); [|done]. by rewrite fmap_take.
Qed.

(** *** The characters *)

Lemma is_digit_below (c : N) :
  (c < 1632)%N -> is_digit c = (48 <=? c)%N && (c <=? 57)%N.
Proof.
  intros Hc. unfold is_digit, DECIMAL_DIGITS. cbn [existsb].
  unfold in_range at 1. cbn [fst snd].
  match goal with |- _ || ?r = _ => assert (r = false) as ->; [|apply orb_false_r] end.
  repeat (apply orb_false_intro;
          [unfold in_range; cbn [fst snd]; apply andb_false_intro1, N.leb_gt; lia|]).
  reflexivity.
Qed.

Lemma is_digit_agree (x : ascii) : is_digit (code x) = Chars.is_digit x.
Proof.
  unfold Chars.is_digit. apply is_digit_below.
  pose proof (N_ascii_bounded x). unfold code. lia.
Qed.

Lemma is_zero_agree (x : ascii) : UPolicy.is_zero (code x) = Policy.is_zero x.
Proof. unfold UPolicy.is_zero, Policy.is_zero. change 48%N with (code "0"%char). apply code_eqb. Qed.

(** The letters of the token match the same characters in both models. *)
Lemma token_letter_agree (c x : ascii) :
  c ∈ Policy.TOKEN ->
  lit_ok true (code c) (code x) = eqc (lower x) (lower c).
Proof.
  unfold Policy.TOKEN. cbn [of_string list_ascii_of_string]. intros H.
  set_unfold in H.
  destruct H as [->|[->|[->|[->|[->|[->|[->|[]]]]]]]];
    ReFacts.each_char x; vm_compute; reflexivity.
Qed.

(** *** The policy *)

Lemma take_while_agree (p : N -> bool) (q : ascii -> bool) (s : chars) :
  (forall x, p (code x) = q x) ->
  take_while p (of_chars s) = of_chars (Chars.take_while q s).
Proof.
  intros H. induction s as [|x s IH]; [done|].
  cbn [of_chars fmap list_fmap take_while Chars.take_while]. rewrite H.
  destruct (q x); [|done]. cbn [fmap list_fmap]. f_equal. exact IH.
Qed.

Lemma drop_while_agree (p : N -> bool) (q : ascii -> bool) (s : chars) :
  (forall x, p (code x) = q x) ->
  drop_while p (of_chars s) = of_chars (Chars.drop_while q s).
Proof.
  intros H. induction s as [|x s IH]; [done|].
  cbn [of_chars fmap list_fmap drop_while Chars.drop_while]. rewrite H.
  destruct (q x); [exact IH|done].
Qed.

Lemma has_prefix_ci_agree (w s : chars) :
  (forall c, c ∈ w -> c ∈ Policy.TOKEN) ->
  UPolicy.has_prefix_ci (of_chars w) (of_chars s) = Policy.has_prefix_ci w s.
Proof.
  revert s. induction w as [|c w IH]; intros s Hw; [done|].
  destruct s as [|x s]; [done|].
  cbn [of_chars fmap list_fmap UPolicy.has_prefix_ci Policy.has_prefix_ci].
  rewrite token_letter_agree by (apply Hw, elem_of_cons; by left).
  f_equal. apply IH. intros c' Hc'. apply Hw, elem_of_cons. by right.
Qed.

Lemma vendor_here_agree (s : chars) :
  UPolicy.vendor_here (of_chars s) = Policy.vendor_here s.
Proof.
  unfold UPolicy.vendor_here, Policy.vendor_here.
  change UPolicy.TOKEN with (of_chars Policy.TOKEN).
  rewrite has_prefix_ci_agree by done. f_equal.
  change (length (of_chars Policy.TOKEN)) with (length Policy.TOKEN).
  unfold of_chars. rewrite <- fmap_drop.
  destruct (drop (length Policy.TOKEN) s) as [|x t]; [done|].
  cbn [fmap list_fmap]. apply is_digit_agree.
Qed.

Lemma vendor_digits_agree (s : chars) :
  UPolicy.vendor_digits (of_chars s) = of_chars <$> Policy.vendor_digits s.
Proof.
  induction s as [|x s IH].
  - done.
  - change (of_chars (x :: s)) with (code x :: of_chars s) at 1.
    cbn [UPolicy.vendor_digits Policy.vendor_digits].
    change (code x :: of_chars s) with (of_chars (x :: s)).
    rewrite vendor_here_agree. destruct (Policy.vendor_here (x :: s)); [|exact IH].
    cbn [fmap option_fmap option_map]. f_equal.
    change (length UPolicy.TOKEN) with (length Policy.TOKEN).
    change (drop (length Policy.TOKEN) (of_chars (x :: s)))
      with (drop (length Policy.TOKEN) (code <$> (x :: s))).
    rewrite <- fmap_drop. apply take_while_agree, is_digit_agree.
Qed.

Lemma strip_zeros_agree (d : chars) :
  UPolicy.strip_zeros (of_chars d) = of_chars (Policy.strip_zeros d).
Proof.
  unfold UPolicy.strip_zeros, Policy.strip_zeros.
  rewrite (drop_while_agree _ Policy.is_zero) by apply is_zero_agree.
  destruct (Chars.drop_while Policy.is_zero d); [|done]. by destruct d.
Qed.

Lemma first_digit_run_agree (s : chars) :
  UPolicy.first_digit_run (of_chars s) = of_chars <$> Policy.first_digit_run s.
Proof.
  unfold UPolicy.first_digit_run, Policy.first_digit_run.
  rewrite (drop_while_agree _ (fun c => negb (Chars.is_digit c)))
    by (intros x; by rewrite is_digit_agree).
  destruct (Chars.drop_while _ s) as [|y r]; [done|].
  cbn [fmap option_fmap option_map]. f_equal.
  exact (take_while_agree is_digit Chars.is_digit (y :: r) is_digit_agree).
Qed.

Lemma identifier_agree (s : chars) :
  UPolicy.identifier (of_chars s) = of_chars <$> Policy.identifier s.
Proof.
  unfold UPolicy.identifier, Policy.identifier.
  rewrite vendor_digits_agree. destruct (Policy.vendor_digits s) as [d|].
  - cbn. by rewrite strip_zeros_agree.
  - apply first_digit_run_agree.
Qed.

(** The correlator on code points, on a name of the 8-bit model. *)
Lemma correlator_agree (f : string) :
  Unicode.extract_integer_from_filename (of_chars (of_string f))
  = (fun r => of_chars (of_string r)) <$> extract_integer_from_filename f.
Proof.
  rewrite correlator_on_stem_u, CorrelatorFacts.correlator_on_stem.
  rewrite stem_agree, identifier_agree.
  destruct (Policy.identifier _) as [d|]; [|done].
  cbn. by rewrite CorrelatorFacts.of_to_string.
Qed.

End UAgree.

(** C5, amended.  The correlator is a total function: for every file name
    it returns the two-tier identifier of the stem.  For every item name
    (one path component with a recognised image extension): when the vendor
    token followed by digits occurs, the result is those digits with the
    leading characters 0 (U+0030) stripped; when it does not occur, the
    result is the first run of digits of the name; the result is none exactly
    when the name has no digit.  A digit is a decimal digit of any script, as
    [\d] matches them, and only U+0030 is stripped.  On a name of the 8-bit
    model this is the result of [extract_integer_from_filename] above.
    "DunnLab000187.jpg" gives "187", "vial_42_after.png" gives "42" and
    "nocode.png" gives none. *)
Theorem filename_correlator_two_tier :
  (forall f : UChars.text,
      Unicode.extract_integer_from_filename f
      = UPolicy.identifier (UPathlib.stem f))
  /\ (forall n : UChars.text, Unicode.is_item_name n = true ->
        (forall d, UPolicy.vendor_digits n = Some d ->
           Unicode.extract_integer_from_filename n = Some (UPolicy.strip_zeros d))
        /\ (UPolicy.vendor_digits n = None ->
           Unicode.extract_integer_from_filename n = UPolicy.first_digit_run n)
        /\ (Unicode.extract_integer_from_filename n = None
            <-> UPolicy.has_digit n = false))
  /\ (forall f : string,
        Unicode.extract_integer_from_filename (UChars.of_chars (of_string f))
        = (fun r => UChars.of_chars (of_string r)) <$> extract_integer_from_filename f)
  /\ extract_integer_from_filename "DunnLab000187.jpg" = Some "187"
  /\ extract_integer_from_filename "vial_42_after.png" = Some "42"
  /\ extract_integer_from_filename "nocode.png" = None.
Proof.
  split; [exact UCorrelatorFacts.correlator_on_stem_u|].
  split; [|split; [exact UAgree.correlator_agree|by repeat split]].
  intros n Hn. rewrite UCorrelatorFacts.correlator_on_stem_u.
  destruct (UItemFacts.item_name_identifier_u n Hn) as [-> Hd].
  repeat split.
  - intros d Hv. unfold UPolicy.identifier. by rewrite Hv.
  - intros Hv. unfold UPolicy.identifier. by rewrite Hv.
  - intros H. by apply UCorrelatorFacts.identifier_none_u.
  - intros H. by apply UCorrelatorFacts.identifier_none_u.
Qed.

Lemma filename_correlator_two_tier_witness :
  Unicode.is_item_name (UChars.of_chars (of_string "DunnLab000187.jpg")) = true
  /\ Unicode.extract_integer_from_filename (UChars.of_chars (of_string "DunnLab000187.jpg"))
     = Some (UPolicy.strip_zeros (UChars.of_chars (of_string "000187"))).
Proof.
  split; [reflexivity|].
  apply (proj1 (proj1 (proj2 filename_correlator_two_tier)
                  (UChars.of_chars (of_string "DunnLab000187.jpg")) eq_refl)).
  reflexivity.
Defined.

(** The zeros of another script are digits, and they are not stripped: in
    the item name "DunnLab" + full-width 00187 + ".jpg" the vendor token is
    followed by zero-padded digits, and the correlator returns all five of
    them, the two zeros included. *)
Lemma fullwidth_zeros_are_not_stripped :
  Unicode.is_item_name FULLWIDTH_NAME = true
  /\ UPolicy.vendor_digits FULLWIDTH_NAME = Some [65296; 65296; 65297; 65304; 65303]%N
  /\ Unicode.extract_integer_from_filename FULLWIDTH_NAME
     = Some [65296; 65296; 65297; 65304; 65303]%N
  /\ UChars.digit_value <$> [65296; 65296; 65297; 65304; 65303]%N
     = [Some 0; Some 0; Some 1; Some 8; Some 7]%N
  /\ Unicode.extract_integer_from_filename FULLWIDTH_NAME
     <> Some [65297; 65304; 65303]%N.
Proof. repeat split; vm_compute; (reflexivity || discriminate). Qed.

(** ** One item, and the whole run *)

Section PipelineFacts.
Variable json_loads : string -> res value.

Lemma row_of_eq (it : item) :
  row_of json_loads it =
  (transcribed ← py_get (extracted_of json_loads it) "transcribed_text";
   dm_from_image ← py_get (extracted_of json_loads it) "datamatrix_integer";
   build_row it.1 (filename_integer_of it)
     (datamatrix_match dm_from_image (filename_integer_of it))
     (extracted_of json_loads it) (parsed_of json_loads it transcribed)).
Proof.
  destruct it as [path sv]. unfold row_of, extracted_of, parsed_of, filename_integer_of.
  cbn [fst snd process_one extract_from_image mbind proc_bind proc_bind_def run].
  destruct (py_get _ "transcribed_text") as [t|e] eqn:Hget; cbn; [|done].
  unfold parse_stage. destruct (truthy t); cbn; done.
Qed.

Lemma calls_of_eq (it : item) :
  calls_of json_loads it =
  CallVision it.1 ::
    match py_get (extracted_of json_loads it) "transcribed_text" with
    | Ok transcribed => if truthy transcribed then [CallParse transcribed] else []
    | Raise _ => []
    end.
Proof.
  destruct it as [path sv]. unfold calls_of, extracted_of.
  cbn [fst snd process_one extract_from_image mbind proc_bind proc_bind_def run].
  destruct (py_get _ "transcribed_text") as [t|e] eqn:Hget; cbn; [|done].
  unfold parse_stage. destruct (truthy t); cbn; done.
Qed.

(** The entry of a key in the row that [build_row] makes. *)
Lemma build_row_lookup (path : string) (fn : option string) (m : value)
    (e p : dict) (key : string) :
  exists row,
    build_row path fn m (VDict e) (VDict p) = Ok row
    /\ row !! key =
       match p !! key with
       | Some v => Some v
       | None =>
           match e !! key with
           | Some v => Some v
           | None =>
               (<["image_file" := VStr path]>
                (<["filename_integer" := of_option fn]>
                (<["datamatrix_match" := m]> ∅)) : dict) !! key
           end
       end.
Proof.
  eexists. split; [reflexivity|].
  rewrite !lookup_union.
  destruct (p !! key), (e !! key); by destruct (_ !! key).
Qed.

Lemma extraction_failed_get (e : exn) :
  py_get (VDict (extraction_failed e)) "transcribed_text" = Ok VNone
  /\ py_get (VDict (extraction_failed e)) "datamatrix_integer" = Ok VNone.
Proof. split; reflexivity. Qed.

(** The row of an item whose first stage raised. *)
Lemma failed_extraction_row (it : item) (e : exn) :
  decode json_loads (vision_reply it.2 it.1) = Raise e ->
  row_of json_loads it =
  build_row it.1 (filename_integer_of it) VNone
    (VDict (extraction_failed e)) (VDict no_text).
Proof.
  intros He. rewrite row_of_eq. unfold extracted_of, parsed_of. rewrite He.
  reflexivity.
Qed.

(** *** process_all *)

Lemma collect_rows (items : list item) (order : list nat) (acc rs : list dict) :
  Forall (fun j => j < length items) order ->
  collect json_loads items order acc = Ok rs ->
  exists rows, rs = acc ++ rows /\ Forall2 (row_at json_loads items) order rows.
Proof.
  revert acc. induction order as [|j order IH]; intros acc Hv H; simpl in H.
  - injection H as <-. exists []. by rewrite app_nil_r.
  - apply Forall_cons in Hv as [Hj Hv].
    destruct (lookup_lt_is_Some_2 items j Hj) as [it Hit]. rewrite Hit in H.
    destruct (row_of json_loads it) as [r|] eqn:Hr; [|done].
    destruct (IH _ Hv H) as (rows & -> & HF).
    exists (r :: rows). split; [by rewrite <- app_assoc|].
    constructor; [|done]. by exists it.
Qed.

Lemma collect_total (items : list item) (order : list nat) (acc : list dict) :
  Forall (fun j => forall it, items !! j = Some it ->
                   exists r, row_of json_loads it = Ok r) order ->
  exists rs, collect json_loads items order acc = Ok rs.
Proof.
  revert acc. induction order as [|j order IH]; intros acc Hv; simpl; [eauto|].
  apply Forall_cons in Hv as [Hj Hv].
  destruct (items !! j) as [it|] eqn:Hit; [|by apply IH].
  destruct (Hj it eq_refl) as [r ->]. by apply IH.
Qed.

Lemma collect_raises (items : list item) (order : list nat) (acc : list dict)
    (j : nat) (it : item) (e : exn) :
  j ∈ order -> items !! j = Some it -> row_of json_loads it = Raise e ->
  exists e', collect json_loads items order acc = Raise e'.
Proof.
  intros Hin Hit Hr. revert acc.
  induction order as [|j' order IH]; intros acc; [by apply elem_of_nil in Hin|].
  simpl. destruct (items !! j') as [it'|] eqn:Hit'.
  - destruct (row_of json_loads it') as [r|e'] eqn:Hr'; [|eauto].
    apply elem_of_cons in Hin as [->|Hin]; [congruence|]. by apply IH.
  - apply elem_of_cons in Hin as [->|Hin]; [congruence|]. by apply IH.
Qed.

Lemma completion_order_valid (n : nat) (order : list nat) :
  completion_order n order ->
  length order = n /\ Forall (fun j => j < n) order /\ forall j, j < n -> j ∈ order.
Proof.
  unfold completion_order. intros Hp. split; [|split].
  - by rewrite Hp, length_seq.
  - rewrite Hp. apply Forall_forall. intros j Hj%elem_of_seq. lia.
  - intros j Hj. rewrite Hp. apply elem_of_seq. lia.
Qed.

(** One row per item when no task raises. *)
Lemma process_all_rows (order : list nat) (items : list item) :
  completion_order (length items) order ->
  (forall it, it ∈ items -> exists r, row_of json_loads it = Ok r) ->
  exists rows,
    process_all json_loads order items = Ok rows
    /\ length rows = length items
    /\ Forall2 (row_at json_loads items) order rows.
Proof.
  intros Hc Hok. destruct (completion_order_valid _ _ Hc) as (Hlen & Hv & _).
  destruct (collect_total items order []) as [rs Hrs].
  { apply Forall_forall. intros j _ it Hit. apply Hok.
    by apply list_elem_of_lookup_2 in Hit. }
  destruct (collect_rows _ _ _ _ Hv Hrs) as (rows & -> & HF).
  exists rows. split; [done|]. split; [|done].
  apply Forall2_length in HF. lia.
Qed.
End PipelineFacts.

Section RowFacts.
Variable json_loads : string -> res value.

(** A dictionary is a mapping with a [get]. *)
Lemma row_of_dicts (it : item) (e p : dict) (t : value) :
  extracted_of json_loads it = VDict e ->
  t = default VNone (e !! "transcribed_text") ->
  parsed_of json_loads it t = VDict p ->
  row_of json_loads it =
  build_row it.1 (filename_integer_of it)
    (datamatrix_match (default VNone (e !! "datamatrix_integer")) (filename_integer_of it))
    (VDict e) (VDict p).
Proof. intros He -> Hp. rewrite row_of_eq, He. cbn. by rewrite Hp. Qed.

(** When every reply that decodes is an object, the task returns a row. *)
Lemma row_of_objects (it : item) :
  (forall v, decode json_loads (vision_reply it.2 it.1) = Ok v -> exists d, v = VDict d) ->
  (forall t v, decode json_loads (parse_reply it.2 t) = Ok v -> exists d, v = VDict d) ->
  exists row, row_of json_loads it = Ok row.
Proof.
  intros Hv Hp.
  assert (exists e, extracted_of json_loads it = VDict e) as [e He].
  { unfold extracted_of. destruct (decode json_loads _) as [v|x]; simpl; [|eauto].
    by apply Hv. }
  set (t := default VNone (e !! "transcribed_text")).
  assert (exists p, parsed_of json_loads it t = VDict p) as [p Hpd].
  { unfold parsed_of. destruct (truthy t); [|eauto].
    destruct (decode json_loads (parse_reply it.2 t)) as [v|x] eqn:Hd; simpl; [|eauto].
    by apply (Hp t). }
  rewrite (row_of_dicts it e p t) by done. eexists. reflexivity.
Qed.

(** A reply that decodes to something else makes the task raise. *)
Lemma row_of_non_object (it : item) (v : value) :
  decode json_loads (vision_reply it.2 it.1) = Ok v ->
  (forall d, v <> VDict d) ->
  row_of json_loads it = Raise (AttributeError v "get").
Proof.
  intros Hd Hv. rewrite row_of_eq. unfold extracted_of. rewrite Hd. simpl.
  destruct v; try done. by destruct (Hv d).
Qed.

End RowFacts.

(** C2.  When the first stage of an item raises (the request fails or times
    out, or the reply cannot be decoded), the task does not raise: it returns
    a row whose [transcription_confidence] is 0 and whose
    [transcription_comments] is "Extraction failed: " followed by the text of
    the error, and the second request is not made.  In a run where no other
    task raises, [process_all] returns one row per item.  The rows of the
    other items are the same whatever the item is replaced with, in every
    completion order. *)
Theorem extraction_failure_is_contained (json_loads : string -> res value) :
  (forall (it : item) (e : exn),
      decode json_loads (vision_reply it.2 it.1) = Raise e ->
      calls_of json_loads it = [CallVision it.1]
      /\ exists row,
          row_of json_loads it = Ok row
          /\ row !! "transcription_confidence" = Some (VInt 0)
          /\ row !! "transcription_comments"
             = Some (VStr ("Extraction failed: " +:+ exn_str e)))
  /\ (forall (order : list nat) (items : list item) (i : nat) (it : item) (e : exn),
        completion_order (length items) order ->
        items !! i = Some it ->
        decode json_loads (vision_reply it.2 it.1) = Raise e ->
        (forall j it', j <> i -> items !! j = Some it' ->
                       exists r, row_of json_loads it' = Ok r) ->
        exists rows,
          process_all json_loads order items = Ok rows
          /\ length rows = length items)
  /\ (forall (order order' : list nat) (items : list item) (i : nat) (it' : item)
             (rows rows' : list dict),
        completion_order (length items) order ->
        completion_order (length items) order' ->
        process_all json_loads order items = Ok rows ->
        process_all json_loads order' (<[i := it']> items) = Ok rows' ->
        forall k k' j, j <> i -> order !! k = Some j -> order' !! k' = Some j ->
                       rows !! k = rows' !! k').
Proof.
  split; [|split].
  - intros it e He. split.
    + rewrite calls_of_eq. unfold extracted_of. by rewrite He.
    + rewrite (failed_extraction_row json_loads it e He).
      destruct (build_row_lookup it.1 (filename_integer_of it) VNone
                  (extraction_failed e) no_text "transcription_confidence")
        as (row & Hrow & _).
      exists row. split; [done|]. injection Hrow as <-. split; reflexivity.
  - intros order items i it e Hc Hi He Hothers.
    destruct (process_all_rows json_loads order items Hc) as (rows & Hrows & Hlen & _).
    + intros it' [j Hj]%list_elem_of_lookup_1.
      destruct (decide (j = i)) as [->|Hne]; [|by apply (Hothers j)].
      assert (it' = it) as -> by congruence.
      rewrite (failed_extraction_row json_loads it e He). eexists. reflexivity.
    + by exists rows.
  - intros order order' items i it' rows rows' Hc Hc' Hr Hr' k k' j Hne Hk Hk'.
    destruct (completion_order_valid _ _ Hc) as (_ & Hv & _).
    destruct (completion_order_valid _ _ Hc') as (_ & Hv' & _).
    destruct (collect_rows json_loads items order [] rows Hv Hr) as (rs & -> & HF).
    destruct (collect_rows json_loads (<[i:=it']> items) order' [] rows') as (rs' & -> & HF');
      [by rewrite length_insert|done|].
    simpl.
    destruct (Forall2_lookup_l _ _ _ _ _ HF Hk) as (r & -> & it1 & Hit1 & Hrow1).
    destruct (Forall2_lookup_l _ _ _ _ _ HF' Hk') as (r' & -> & it2 & Hit2 & Hrow2).
    rewrite list_lookup_insert_ne in Hit2 by done. congruence.
Qed.

Lemma extraction_failure_is_contained_witness :
  calls_of Json.loads timeout_item = [CallVision timeout_item.1]
  /\ (exists row,
        row_of Json.loads timeout_item = Ok row
        /\ row !! "transcription_confidence" = Some (VInt 0)
        /\ row !! "transcription_comments"
           = Some (VStr "Extraction failed: Request timed out."))
  /\ exists rows,
      process_all Json.loads [1; 0] [good_item; timeout_item] = Ok rows
      /\ length rows = 2.
Proof.
  pose proof (extraction_failure_is_contained Json.loads) as (H1 & H2 & _).
  destruct (H1 timeout_item (Exn "APITimeoutError" "Request timed out.") eq_refl)
    as [Hcalls Hrow].
  split; [exact Hcalls|]. split; [exact Hrow|].
  apply (H2 [1; 0] [good_item; timeout_item] 1 timeout_item
            (Exn "APITimeoutError" "Request timed out.")).
  - unfold completion_order. simpl. apply Permutation_swap.
  - reflexivity.
  - reflexivity.
  - intros [|[|j]] it' Hj Hit'; simplify_eq/=.
    exists (the_row (row_of Json.loads good_item)).
    apply ok_the_row. vm_compute. reflexivity.
Defined.

(** C6.  When the [transcribed_text] of the extraction result is missing,
    null or the empty string, the second request is never made, and the row
    carries the substitute with [parse_confidence] 0 and the comment
    "No transcribed text to parse.". *)
Theorem no_text_skips_the_parser (json_loads : string -> res value)
    (it : item) (e : dict) :
  extracted_of json_loads it = VDict e ->
  e !! "transcribed_text" = None
  \/ e !! "transcribed_text" = Some VNone
  \/ e !! "transcribed_text" = Some (VStr "") ->
  Forall (fun c => is_parse_call c = false) (calls_of json_loads it)
  /\ exists row,
      row_of json_loads it = Ok row
      /\ row !! "parse_confidence" = Some (VInt 0)
      /\ row !! "parse_comments" = Some (VStr "No transcribed text to parse.").
Proof.
  intros He Ht.
  assert (truthy (default VNone (e !! "transcribed_text")) = false) as Hf.
  { by destruct Ht as [->|[->| ->]]. }
  split.
  - rewrite calls_of_eq, He. cbn [py_get]. rewrite Hf. by repeat constructor.
  - rewrite (row_of_dicts json_loads it e no_text _ He eq_refl).
    + destruct (build_row_lookup it.1 (filename_integer_of it)
                  (datamatrix_match (default VNone (e !! "datamatrix_integer"))
                     (filename_integer_of it)) e no_text "parse_confidence")
        as (row & Hrow & _).
      exists row. split; [done|]. injection Hrow as <-.
      split; (rewrite lookup_union_l'; [reflexivity|by eexists]).
    + unfold parsed_of. by rewrite Hf.
Qed.

Lemma no_text_skips_the_parser_witness :
  Forall (fun c => is_parse_call c = false) (calls_of Json.loads empty_text_item)
  /\ exists row,
      row_of Json.loads empty_text_item = Ok row
      /\ row !! "parse_confidence" = Some (VInt 0)
      /\ row !! "parse_comments" = Some (VStr "No transcribed text to parse.").
Proof.
  refine (no_text_skips_the_parser Json.loads empty_text_item
            (match extracted_of Json.loads empty_text_item with
             | VDict d => d | _ => ∅ end) _ _).
  - vm_compute. reflexivity.
  - right. right. vm_compute. reflexivity.
Defined.

(** A reply with a [datamatrix_match] entry of its own replaces the computed
    value in the row.  Both identifiers of [clash_item] are present and
    equal, and the row says [False]. *)
Lemma reply_overrides_datamatrix_match :
  filename_integer_of clash_item = Some "190"
  /\ py_get (extracted_of Json.loads clash_item) "datamatrix_integer" = Ok (VStr "190")
  /\ exists row,
      row_of Json.loads clash_item = Ok row
      /\ row !! "datamatrix_match" = Some (VBool false)
      /\ row !! "datamatrix_match" <> Some (VBool true).
Proof.
  split; [vm_compute; reflexivity|]. split; [vm_compute; reflexivity|].
  exists (the_row (row_of Json.loads clash_item)).
  split; [apply ok_the_row; vm_compute; reflexivity|].
  split; [vm_compute; reflexivity|].
  vm_compute. discriminate.
Qed.

(** C3, amended.  The value computed for [datamatrix_match] is [True]
    exactly when both identifiers are present and equal, [False] exactly when
    both are present and differ, and [None] exactly when one is absent.  It
    is the [datamatrix_match] entry of the row whenever neither decoded reply
    has an entry of that name. *)
Theorem datamatrix_match_is_tri_state (json_loads : string -> res value) :
  (forall (dm : value) (fn : option string),
      (datamatrix_match dm fn = VBool true <-> exists s, fn = Some s /\ dm = VStr s)
      /\ (datamatrix_match dm fn = VBool false
          <-> exists s, fn = Some s /\ dm <> VNone /\ dm <> VStr s)
      /\ (datamatrix_match dm fn = VNone <-> dm = VNone \/ fn = None))
  /\ (forall (it : item) (e p : dict),
        extracted_of json_loads it = VDict e ->
        parsed_of json_loads it (default VNone (e !! "transcribed_text")) = VDict p ->
        e !! "datamatrix_match" = None ->
        p !! "datamatrix_match" = None ->
        exists row,
          row_of json_loads it = Ok row
          /\ row !! "datamatrix_match"
             = Some (datamatrix_match (default VNone (e !! "datamatrix_integer"))
                       (filename_integer_of it))).
Proof.
  split.
  - intros dm fn. repeat split.
    + destruct dm as [|b|n|t|l|d], fn as [s|]; simpl; try done.
      intros [= H]. apply String.eqb_eq in H as ->. eauto.
    + intros (s & -> & ->). simpl. by rewrite String.eqb_refl.
    + destruct dm as [|b|n|t|l|d], fn as [s|]; simpl; try done;
        intros H; exists s; repeat split; try done.
      injection H as H. apply String.eqb_neq in H. congruence.
    + intros (s & -> & Hn & Hs). destruct dm; simpl; try done.
      f_equal. apply String.eqb_neq. congruence.
    + destruct dm, fn; simpl; try done; auto.
    + intros [->| ->]; [done|]. by destruct dm.
  - intros it e p He Hp Hne Hnp.
    rewrite (row_of_dicts json_loads it e p _ He eq_refl Hp).
    destruct (build_row_lookup it.1 (filename_integer_of it)
                (datamatrix_match (default VNone (e !! "datamatrix_integer"))
                   (filename_integer_of it)) e p "datamatrix_match")
      as (row & Hrow & Hl).
    exists row. split; [done|]. by rewrite Hl, Hnp, Hne.
Qed.

Lemma datamatrix_match_is_tri_state_witness :
  exists row,
    row_of Json.loads good_item = Ok row
    /\ row !! "datamatrix_match" = Some (VBool true).
Proof.
  destruct (proj2 (datamatrix_match_is_tri_state Json.loads) good_item
              (match extracted_of Json.loads good_item with VDict d => d | _ => ∅ end)
              (match Json.loads PARSED_OK with Ok (VDict d) => d | _ => ∅ end))
    as (row & Hrow & Hm).
  - vm_compute. reflexivity.
  - vm_compute. reflexivity.
  - vm_compute. reflexivity.
  - vm_compute. reflexivity.
  - exists row. split; [exact Hrow|]. rewrite Hm. vm_compute. reflexivity.
Defined.

(** C9.  The reply "[]" is valid JSON and not an object: the task of an item
    that receives it raises [AttributeError], and no row is made.  So does
    every reply that decodes to something that is not an object.  When every
    reply that decodes is an object, the task returns a row. *)
Theorem non_object_reply_escapes :
  (decode_reply Json.loads (Some "[]") = Ok (VList [])
   /\ forall (path : string) (parse : value -> reply),
        row_of Json.loads (path, Service (fun _ => Replies (Some "[]")) parse)
        = Raise (AttributeError (VList []) "get"))
  /\ (forall (json_loads : string -> res value) (it : item) (v : value),
        decode json_loads (vision_reply it.2 it.1) = Ok v ->
        (forall d, v <> VDict d) ->
        row_of json_loads it = Raise (AttributeError v "get"))
  /\ (forall (json_loads : string -> res value) (it : item),
        (forall v, decode json_loads (vision_reply it.2 it.1) = Ok v ->
                   exists d, v = VDict d) ->
        (forall t v, decode json_loads (parse_reply it.2 t) = Ok v ->
                     exists d, v = VDict d) ->
        exists row, row_of json_loads it = Ok row).
Proof.
  split; [split|split].
  - reflexivity.
  - intros path parse. by apply row_of_non_object.
  - exact row_of_non_object.
  - exact row_of_objects.
Qed.

Lemma non_object_reply_escapes_witness :
  row_of Json.loads array_item = Raise (AttributeError (VList []) "get")
  /\ exists row, row_of Json.loads timeout_item = Ok row.
Proof.
  pose proof non_object_reply_escapes as (_ & Hraise & Hrow). split.
  - apply (Hraise Json.loads array_item (VList [])); [reflexivity|done].
  - apply (Hrow Json.loads timeout_item).
    + intros v Hv. vm_compute in Hv. discriminate.
    + intros t v Hv. vm_compute in Hv. injection Hv as <-. eexists. reflexivity.
Defined.

(** C1, at the failing input.  With two items, one of them answered by the
    JSON array "[]", [process_all] raises and returns no row at all, in both
    completion orders. *)
Theorem process_all_raises_on_array_reply :
  process_all Json.loads [0; 1] [good_item; array_item]
  = Raise (AttributeError (VList []) "get")
  /\ process_all Json.loads [1; 0] [good_item; array_item]
     = Raise (AttributeError (VList []) "get").
Proof. split; vm_compute; reflexivity. Qed.

(** ** The report sink *)

(** The fill of a row whose two scores are integers other than 0. *)
Lemma row_fill_nonzero (row : dict) (t p : Z) :
  row !! "transcription_confidence" = Some (VInt t) ->
  row !! "parse_confidence" = Some (VInt p) ->
  t <> 0%Z -> p <> 0%Z ->
  row_fill row =
  Ok (if (Z.min t p <=? 3)%Z then Some RED_FILL
      else if (Z.min t p <=? 6)%Z then Some YELLOW_FILL
      else None).
Proof.
  intros Ht Hp Ht0 Hp0. unfold row_fill, row_get, py_or. rewrite Ht, Hp. simpl.
  apply Z.eqb_neq in Ht0, Hp0. rewrite Ht0, Hp0. simpl.
  unfold confidence_fill. simpl. by repeat case_match.
Qed.

(** A score of 0 is read as 10. *)
Lemma row_fill_zero_is_ten (row : dict) (p : value) :
  row !! "transcription_confidence" = Some (VInt 0) ->
  row_fill row
  = confidence_fill (VInt 10) (py_or (row_get row "parse_confidence") (VInt 10)).
Proof. intros Ht. unfold row_fill, row_get at 1. by rewrite Ht. Qed.

(** The cell of a false [datamatrix_match] is red whatever the row's fill. *)
Lemma mismatch_cell_is_red (row : dict) (f : option fill) :
  row_fill row = Ok f ->
  row !! "datamatrix_match" = Some (VBool false) ->
  cell_fill row "datamatrix_match" = Ok (Some RED_FILL).
Proof.
  intros Hf Hm. unfold cell_fill, row_get. rewrite Hf, Hm. reflexivity.
Qed.

(** C4, at the failing input.  The row of an item whose request timed out
    has both scores 0, so their minimum is at most 3; no cell of the row is
    filled. *)
Theorem failed_row_is_left_unflagged :
  exists row,
    row_of Json.loads timeout_item = Ok row
    /\ row_get row "transcription_confidence" = VInt 0
    /\ row_get row "parse_confidence" = VInt 0
    /\ row_fill row = Ok None
    /\ write_spreadsheet [row] = Ok [replicate (length COLUMNS) None].
Proof.
  exists (the_row (row_of Json.loads timeout_item)).
  split; [apply ok_the_row; vm_compute; reflexivity|].
  repeat split; vm_compute; reflexivity.
Qed.

(** ** The semaphore *)

Section Scheduler.
Variable json_loads : string -> res value.

Lemma count_insert (p : task -> bool) (ts : list task) (i : nat) (t t' : task) :
  ts !! i = Some t ->
  count p (<[i := t']> ts) + (if p t then 1 else 0)
  = count p ts + (if p t' then 1 else 0).
Proof.
  unfold count. revert i. induction ts as [|x ts IH]; intros i Hi; [done|].
  destruct i as [|i]; simpl in *.
  - injection Hi as ->. rewrite !filter_cons.
    destruct (p t), (p t'); repeat case_decide; simpl; try done; lia.
  - specialize (IH i Hi). rewrite !filter_cons.
    case_decide; simpl; lia.
Qed.

Lemma count_waiting (p : task -> bool) (paths : list string) :
  (forall path, p (Waiting path) = false) ->
  count p (Waiting <$> paths) = 0.
Proof.
  intros Hp. unfold count. induction paths as [|x paths IH]; [done|].
  rewrite fmap_cons, filter_cons. case_decide; [|done]. by rewrite Hp in *.
Qed.

Lemma in_flight_holds (ts : list task) : count in_flight ts <= count holds ts.
Proof.
  unfold count. induction ts as [|t ts IH]; [done|].
  rewrite !filter_cons. destruct t as [|[]|]; repeat case_decide; simpl in *; try done; lia.
Qed.

(** The counter and the holders add up to the size of the semaphore. *)
Lemma step_keeps_permits (s s' : sched) :
  step json_loads s s' ->
  sem_value s' + count holds (tasks s') = sem_value s + count holds (tasks s).
Proof.
  intros Hs.
  destruct Hs as [v ts i path Hi|v ts i path k o Hi|v ts i text k o Hi|v ts i r Hi];
    simpl.
  - pose proof (count_insert holds ts i _ (Running (process_one json_loads path)) Hi) as H.
    simpl in H. lia.
  - pose proof (count_insert holds ts i _ (Running (k o)) Hi) as H. simpl in H. lia.
  - pose proof (count_insert holds ts i _ (Running (k o)) Hi) as H. simpl in H. lia.
  - pose proof (count_insert holds ts i _ (Finished r) Hi) as H. simpl in H. lia.
Qed.

Lemma reachable_permits (batch_size : nat) (paths : list string) (s : sched) :
  rtc (step json_loads) (start batch_size paths) s ->
  sem_value s + count holds (tasks s) = batch_size.
Proof.
  intros Hr.
  refine (rtc_ind_r (R := step json_loads)
            (fun s => sem_value s + count holds (tasks s) = batch_size)
            (start batch_size paths) _ _ s Hr).
  - simpl. rewrite count_waiting by done. lia.
  - intros s1 s2 _ Hs IH. by rewrite (step_keeps_permits _ _ Hs).
Qed.

(** A task that holds the semaphore runs to its end on the answers of the
    service and gives the semaphore back: the run is the one that [run]
    computes. *)
Lemma running_task_finishes (sv : service) (p : proc (res dict)) (v : nat) :
  rtc (step json_loads) (Sched v [Running p]) (Sched (S v) [Finished (run sv p).2]).
Proof.
  induction p as [r|path k IH|text k IH]; simpl.
  - apply rtc_once. exact (step_release json_loads v [Running (Ret r)] 0 r eq_refl).
  - destruct (run sv (k (vision_reply sv path))) as [t a] eqn:Hrun. simpl.
    eapply rtc_l.
    + exact (step_vision json_loads v [Running (Vision path k)] 0 path k
               (vision_reply sv path) eq_refl).
    + specialize (IH (vision_reply sv path)). by rewrite Hrun in IH.
  - destruct (run sv (k (parse_reply sv text))) as [t a] eqn:Hrun. simpl.
    eapply rtc_l.
    + exact (step_parse json_loads v [Running (Parse text k)] 0 text k
               (parse_reply sv text) eq_refl).
    + specialize (IH (parse_reply sv text)). by rewrite Hrun in IH.
Qed.

(** With one permit a single item is processed to the row of [row_of]. *)
Lemma single_item_completes (it : item) :
  rtc (step json_loads) (start 1 [it.1]) (Sched 1 [Finished (row_of json_loads it)]).
Proof.
  eapply rtc_l.
  - exact (step_acquire json_loads 0 [Waiting it.1] 0 it.1 eq_refl).
  - apply running_task_finishes.
Qed.

End Scheduler.

(** C8.  In every state that a run with a semaphore of size [batch_size] can
    reach, whatever the number of items and whatever the service answers, at
    most [batch_size] tasks have a request in flight. *)
Theorem semaphore_bounds_in_flight (json_loads : string -> res value)
    (batch_size : nat) (paths : list string) (s : sched) :
  rtc (step json_loads) (start batch_size paths) s ->
  count in_flight (tasks s) <= batch_size.
Proof.
  intros Hr. pose proof (reachable_permits json_loads _ _ _ Hr) as Hp.
  pose proof (in_flight_holds (tasks s)). lia.
Qed.

Lemma semaphore_bounds_in_flight_witness :
  count in_flight
    [Running (process_one Json.loads "a.png"); Waiting "b.png"; Waiting "c.png"] <= 1.
Proof.
  apply (semaphore_bounds_in_flight Json.loads 1 ["a.png"; "b.png"; "c.png"]
           (Sched 0 [Running (process_one Json.loads "a.png");
                     Waiting "b.png"; Waiting "c.png"])).
  apply rtc_once.
  exact (step_acquire Json.loads 0 [Waiting "a.png"; Waiting "b.png"; Waiting "c.png"]
           0 "a.png" eq_refl).
Defined.

(** ** The response decoder *)

Module FenceFacts.
Import Re.

Lemma starts_with_app (w s : chars) :
  starts_with w s = true -> s = w ++ drop (length w) s.
Proof.
  revert s. induction w as [|c w IH]; intros [|x s]; simpl; try done.
  intros [Hx Hw]%andb_true_iff. apply Ascii.eqb_eq in Hx as ->.
  f_equal. by apply IH.
Qed.

Lemma starts_with_prefix (w s : chars) : starts_with w (w ++ s) = true.
Proof.
  induction w as [|c w IH]; simpl; [done|].
  unfold eqc. by rewrite Ascii.eqb_refl.
Qed.

Lemma lit_atom_exact (c x : ascii) : atom_ok false (Lit c) x = eqc x c.
Proof. unfold atom_ok. simpl. by rewrite orb_false_r. Qed.

(** Without [re.IGNORECASE] a literal word matches itself only. *)
Lemma word_match_exact (w : chars) (pos : nat) (s : chars) (g : option chars) (k : cont) :
  w <> [] ->
  re_match false (word w) pos s g k =
  if starts_with w s then k (pos + length w) (drop (length w) s) g else None.
Proof.
  revert pos s. induction w as [|c w IH]; intros pos s Hw; [done|].
  destruct w as [|c' w].
  - cbn [word re_match starts_with]. destruct s as [|x s]; [done|].
    rewrite lit_atom_exact. destruct (eqc x c); cbn [andb]; [|done].
    destruct s; cbn [length drop]; by rewrite Nat.add_1_r.
  - change (word (c :: c' :: w)) with (Seq (Atom (Lit c)) (word (c' :: w))).
    cbn [re_match]. destruct s as [|x s]; [done|].
    rewrite lit_atom_exact. cbn [starts_with].
    destruct (eqc x c); cbn [andb]; [|done].
    rewrite IH by done. cbn [length drop].
    by replace (S pos + S (length w)) with (pos + S (S (length w))) by lia.
Qed.

(** *** The opening fence *)

Lemma open_not_at_start (pos : nat) (s : chars) (g : option chars) (k : cont) :
  pos <> 0 -> re_match false FENCE_OPEN_RE pos s g k = None.
Proof. intros Hp. unfold FENCE_OPEN_RE. cbn [re_match]. by destruct pos. Qed.

Lemma open_search_later (pos : nat) (s : chars) :
  pos <> 0 -> search_from false FENCE_OPEN_RE pos s = None.
Proof.
  revert pos. induction s as [|x s IH]; intros pos Hp; cbn [search_from];
    rewrite open_not_at_start by done; [done|]. by apply IH.
Qed.

Lemma open_search (s : chars) :
  search_from false FENCE_OPEN_RE 0 s =
  match re_match false FENCE_OPEN_RE 0 s None accept with
  | Some (e, g) => Some (Found 0 e g)
  | None => None
  end.
Proof.
  destruct s as [|x s]; cbn [search_from];
    destruct (re_match false FENCE_OPEN_RE 0 _ None accept) as [[e g]|]; try done.
  by apply open_search_later.
Qed.

Lemma open_without_fence (s : chars) :
  starts_with FENCE s = false ->
  re_match false FENCE_OPEN_RE 0 s None accept = None.
Proof.
  intros Hs. unfold FENCE_OPEN_RE. cbn [re_match Nat.eqb].
  rewrite word_match_exact by done. fold FENCE. by rewrite Hs.
Qed.

Lemma sub_open_unfenced (s : chars) :
  starts_with FENCE s = false -> sub_delete false FENCE_OPEN_RE s = s.
Proof.
  intros Hs. unfold sub_delete. cbn [sub_loop].
  by rewrite open_search, open_without_fence.
Qed.

Lemma sub_open_match (s : chars) (e : nat) (g : option chars) :
  re_match false FENCE_OPEN_RE 0 s None accept = Some (e, g) ->
  e <> 0 ->
  sub_delete false FENCE_OPEN_RE s = drop e s.
Proof.
  intros Hm He. unfold sub_delete. cbn [sub_loop].
  rewrite open_search, Hm.
  destruct e as [|e]; [done|]. cbn [Nat.eqb]. rewrite Nat.sub_0_r. cbn [take app].
  destruct (length s); cbn [sub_loop]; [done|].
  by rewrite open_search_later.
Qed.

(** The opening fence in front of a record is matched whole, and nothing of
    the record with it. *)
Lemma open_match_fenced (tagged break_after : bool) (rest : chars) :
  re_match false FENCE_OPEN_RE 0
    (FENCE ++ (if tagged then of_string "json" else [])
       ++ (if break_after then ["010"%char] else []) ++ "{"%char :: rest)
    None accept
  = Some (length (FENCE ++ (if tagged then of_string "json" else [])
                    ++ (if break_after then ["010"%char] else [])), None).
Proof. by destruct tagged, break_after. Qed.

End FenceFacts.

Module CloseFacts.
Import Re FenceFacts.

Lemma close_match_eq (pos : nat) (s : chars) :
  re_match false FENCE_CLOSE_RE pos s None accept =
  match s with
  | x :: s' =>
      if eqc x NL then
        match close_tail (S pos) s' with
        | Some o => Some o
        | None => close_tail pos s
        end
      else close_tail pos s
  | [] => close_tail pos s
  end.
Proof.
  assert (forall p t,
            (if starts_with FENCE t
             then match drop (length FENCE) t with
                  | [] => accept (p + length FENCE) (drop (length FENCE) t) None
                  | [x] => if eqc x NL
                           then accept (p + length FENCE) (drop (length FENCE) t) None
                           else None
                  | _ => None
                  end
             else None) = close_tail p t) as Ht.
  { intros p t. unfold close_tail. destruct (starts_with FENCE t); [|done].
    change (length FENCE) with 3. by destruct (drop 3 t) as [|x [|y u]]. }
  unfold FENCE_CLOSE_RE. cbn [re_match]. fold FENCE.
  destruct s as [|x s].
  - rewrite word_match_exact by done. apply Ht.
  - rewrite lit_atom_exact. fold NL. rewrite !word_match_exact by done.
    rewrite !Ht. by destruct (eqc x NL).
Qed.

Lemma close_tail_chars (pos : nat) (s : chars) (o : outcome) :
  close_tail pos s = Some o -> forallb fence_char s = true.
Proof.
  unfold close_tail. destruct (starts_with FENCE s) eqn:Hs; [|done].
  apply starts_with_app in Hs. intros H. rewrite Hs.
  change (length FENCE) with 3 in *.
  destruct (drop 3 s) as [|x [|y t]]; [done| |done].
  destruct (eqc x NL) eqn:Hx; [|done]. apply Ascii.eqb_eq in Hx as ->. done.
Qed.

(** A match of the closing pattern covers fence characters only. *)
Lemma close_match_chars (pos : nat) (s : chars) (o : outcome) :
  re_match false FENCE_CLOSE_RE pos s None accept = Some o ->
  forallb fence_char s = true.
Proof.
  rewrite close_match_eq. destruct s as [|x s]; [apply close_tail_chars|].
  destruct (eqc x NL) eqn:Hx; [|apply close_tail_chars].
  destruct (close_tail (S pos) s) as [o'|] eqn:Ht; [|apply close_tail_chars].
  intros _. cbn [forallb]. rewrite (close_tail_chars _ _ _ Ht).
  unfold fence_char. by rewrite Hx, orb_true_r.
Qed.

(** A match of the closing pattern reaches the end of the text, or the line
    break that ends it. *)
Lemma close_match_end (pos : nat) (s : chars) (o : outcome) :
  re_match false FENCE_CLOSE_RE pos s None accept = Some o ->
  ends_with FENCE s = true \/ ends_with (FENCE ++ [NL]) s = true.
Proof.
  assert (forall p t o', close_tail p t = Some o' ->
            t = FENCE \/ t = FENCE ++ [NL]) as Htail.
  { intros p t o'. unfold close_tail.
    destruct (starts_with FENCE t) eqn:Hs; [|done].
    apply starts_with_app in Hs. change (length FENCE) with 3 in Hs.
    destruct (drop 3 t) as [|x [|y u]]; [|destruct (eqc x NL) eqn:Hx|]; try done.
    - intros _. left. by rewrite Hs, app_nil_r.
    - intros _. right. apply Ascii.eqb_eq in Hx as ->. done. }
  assert (forall t, t = FENCE \/ t = FENCE ++ [NL] ->
            forall x, ends_with FENCE (x :: t) = true
                      \/ ends_with (FENCE ++ [NL]) (x :: t) = true) as Hcons.
  { intros t [-> | ->] x; [left|right]; reflexivity. }
  rewrite close_match_eq. destruct s as [|x s].
  - intros H. by destruct (Htail _ _ _ H) as [-> | ->]; [left|right].
  - destruct (eqc x NL).
    + destruct (close_tail (S pos) s) as [o'|] eqn:Ht.
      * intros _. apply Hcons. by eapply Htail.
      * intros H. by destruct (Htail _ _ _ H) as [-> | ->]; [left|right].
    + intros H. by destruct (Htail _ _ _ H) as [-> | ->]; [left|right].
Qed.

Lemma ends_with_cons (w s : chars) (x : ascii) :
  ends_with w s = true -> ends_with w (x :: s) = true.
Proof.
  unfold ends_with. simpl. generalize (rev w) (rev s). clear.
  intros w. induction w as [|c w IH]; intros [|y s]; simpl; try done.
  intros [-> H]%andb_true_iff. simpl. by apply IH.
Qed.

Lemma close_search_end (pos : nat) (s : chars) (m : found) :
  search_from false FENCE_CLOSE_RE pos s = Some m ->
  ends_with FENCE s = true \/ ends_with (FENCE ++ [NL]) s = true.
Proof.
  revert pos. induction s as [|x s IH]; intros pos; cbn [search_from].
  - destruct (re_match false FENCE_CLOSE_RE pos [] None accept) as [[e g]|] eqn:Hm; [|done].
    intros _. by eapply close_match_end.
  - destruct (re_match false FENCE_CLOSE_RE pos (x :: s) None accept) as [[e g]|] eqn:Hm.
    + intros _. by eapply close_match_end.
    + intros H. destruct (IH _ H); [left|right]; by apply ends_with_cons.
Qed.

Lemma sub_close_unfenced (s : chars) :
  ends_with FENCE s = false -> ends_with (FENCE ++ [NL]) s = false ->
  sub_delete false FENCE_CLOSE_RE s = s.
Proof.
  intros H1 H2. unfold sub_delete. cbn [sub_loop].
  destruct (search_from false FENCE_CLOSE_RE 0 s) as [m|] eqn:Hm; [|done].
  destruct (close_search_end _ _ _ Hm); congruence.
Qed.

(** In front of a closing brace there is no match. *)
Lemma close_search_skip (u t : chars) (pos : nat) :
  search_from false FENCE_CLOSE_RE pos (u ++ "}"%char :: t)
  = search_from false FENCE_CLOSE_RE (pos + length u + 1) t.
Proof.
  assert (forall v p, re_match false FENCE_CLOSE_RE p (v ++ "}"%char :: t) None accept = None)
    as Hno.
  { intros v p. destruct (re_match _ _ _ _ _ _) as [o|] eqn:Hm; [|done].
    apply close_match_chars in Hm. rewrite forallb_app in Hm.
    by apply andb_true_iff in Hm as [_ Hm]. }
  revert pos. induction u as [|x u IH]; intros pos.
  - cbn [app search_from]. rewrite (Hno []). f_equal. simpl. lia.
  - change ((x :: u) ++ "}"%char :: t) with (x :: (u ++ "}"%char :: t)).
    cbn [search_from].
    change (x :: (u ++ "}"%char :: t)) with ((x :: u) ++ "}"%char :: t).
    rewrite Hno, IH. f_equal. simpl. lia.
Qed.

Lemma close_search_fence (break_before : bool) (pos : nat) :
  search_from false FENCE_CLOSE_RE pos ((if break_before then [NL] else []) ++ FENCE)
  = Some (Found pos (pos + length ((if break_before then [NL] else []) ++ FENCE)) None).
Proof.
  destruct break_before; cbn; repeat f_equal; lia.
Qed.

Lemma sub_close_fenced (u : chars) (break_before : bool) :
  sub_delete false FENCE_CLOSE_RE
    (u ++ "}"%char :: (if break_before then [NL] else []) ++ FENCE)
  = u ++ ["}"%char].
Proof.
  unfold sub_delete. cbn [sub_loop].
  rewrite close_search_skip, close_search_fence.
  set (c := (if break_before then [NL] else []) ++ FENCE).
  assert (0 < length c) as Hc by (unfold c; destruct break_before; simpl; lia).
  replace (0 + length u + 1 =? 0 + length u + 1 + length c) with false
    by (symmetry; apply Nat.eqb_neq; lia).
  rewrite !Nat.sub_0_r.
  replace (u ++ "}"%char :: c) with ((u ++ ["}"%char]) ++ c) by (by rewrite <- app_assoc).
  rewrite take_app_length' by (rewrite length_app; simpl; lia).
  rewrite drop_ge by (rewrite !length_app; simpl; lia).
  destruct (length ((u ++ ["}"%char]) ++ c)); cbn [sub_loop]; by rewrite app_nil_r.
Qed.

End CloseFacts.

Module StripFacts.
Import Re FenceFacts CloseFacts.

Lemma drop_while_head (p : ascii -> bool) (s : chars) (z : ascii) (r : chars) :
  drop_while p s = z :: r -> p z = false.
Proof.
  induction s as [|x s IH]; simpl; [done|].
  destruct (p x) eqn:Hx; [done|]. by intros [= <- <-].
Qed.

(** What [strip] returns does not end with white space. *)
Lemma strip_last (s v : chars) (y : ascii) :
  strip s = v ++ [y] -> is_space y = false.
Proof.
  unfold strip. destruct (drop_while is_space (rev _)) as [|z r] eqn:Hd.
  - by destruct v.
  - simpl. intros [_ <-]%app_inj_tail. by eapply drop_while_head.
Qed.

(** A text with no white space at either end is left as it is. *)
Lemma strip_keep (s u v : chars) (x y : ascii) :
  s = x :: u -> s = v ++ [y] -> is_space x = false -> is_space y = false ->
  strip s = s.
Proof.
  intros Hx Hy Hsx Hsy. unfold strip.
  rewrite Hx at 1. cbn [drop_while]. rewrite Hsx, <- Hx.
  rewrite Hy at 1. rewrite rev_app_distr. cbn [rev app drop_while]. rewrite Hsy.
  change (y :: rev v) with (rev [y] ++ rev v). by rewrite <- rev_app_distr, rev_involutive.
Qed.

Lemma ends_with_last (w s : chars) (c : ascii) :
  ends_with (w ++ [c]) s = true -> exists v, s = v ++ [c].
Proof.
  unfold ends_with. rewrite rev_app_distr. simpl.
  destruct (rev s) as [|y r] eqn:Hr; [done|].
  intros [Hy _]%andb_true_iff. apply Ascii.eqb_eq in Hy as ->.
  exists (rev r). by rewrite <- (rev_involutive s), Hr.
Qed.

Lemma strip_no_break (s : chars) : ends_with (FENCE ++ [NL]) (strip s) = false.
Proof.
  destruct (ends_with _ _) eqn:He; [|done].
  apply ends_with_last in He as [v Hv]. by apply strip_last in Hv.
Qed.

(** The two ends of the text of a record. *)
Lemma record_text_ends (inner : string) :
  is_record_text inner = true ->
  exists rest u, of_string inner = "{"%char :: rest /\ of_string inner = u ++ ["}"%char].
Proof.
  unfold is_record_text, ends_with. intros [H1 H2]%andb_true_iff.
  destruct (of_string inner) as [|x rest] eqn:Hi; [done|].
  simpl in H1. apply andb_true_iff in H1 as [Hx _]. apply Ascii.eqb_eq in Hx as ->.
  rewrite <- Hi in *. destruct (rev (of_string inner)) as [|y r] eqn:Hr; [done|].
  simpl in H2. apply andb_true_iff in H2 as [Hy _]. apply Ascii.eqb_eq in Hy as ->.
  exists rest, (rev r). split; [done|].
  by rewrite <- (rev_involutive (of_string inner)), Hr.
Qed.

Lemma strip_code_fences_unfenced (t : chars) :
  starts_with FENCE t = false -> ends_with FENCE t = false ->
  ends_with (FENCE ++ [NL]) t = false ->
  strip_code_fences t = t.
Proof.
  intros H1 H2 H3. unfold strip_code_fences.
  rewrite sub_open_unfenced by done. by apply sub_close_unfenced.
Qed.

Lemma strip_code_fences_record (inner : string) :
  is_record_text inner = true ->
  strip_code_fences (strip (of_string inner)) = of_string inner.
Proof.
  intros Hr. destruct (record_text_ends inner Hr) as (rest & u & H1 & H2).
  rewrite (strip_keep _ rest u "{"%char "}"%char H1 H2 eq_refl eq_refl).
  apply strip_code_fences_unfenced.
  - by rewrite H1.
  - rewrite H2. unfold ends_with. by rewrite (rev_app_distr u).
  - rewrite H2. unfold ends_with. by rewrite (rev_app_distr u).
Qed.

Lemma strip_code_fences_fenced (tagged break_after break_before : bool) (inner : string) :
  is_record_text inner = true ->
  strip_code_fences (strip (of_string (fenced tagged break_after break_before inner)))
  = of_string inner.
Proof.
  intros Hr. destruct (record_text_ends inner Hr) as (rest & u & H1 & H2).
  unfold fenced. rewrite CorrelatorFacts.of_to_string.
  set (opening := FENCE ++ (if tagged then of_string "json" else [])
                    ++ (if break_after then ["010"%char] else [])).
  set (closing := (if break_before then [NL] else []) ++ FENCE).
  assert (FENCE ++ (if tagged then of_string "json" else [])
            ++ (if break_after then ["010"%char] else [])
            ++ of_string inner
            ++ (if break_before then ["010"%char] else []) ++ FENCE
          = opening ++ of_string inner ++ closing) as ->.
  { unfold opening, closing. by rewrite <- !app_assoc. }
  assert (strip (opening ++ of_string inner ++ closing)
          = opening ++ of_string inner ++ closing) as ->.
  { apply (strip_keep _ (tail (opening ++ of_string inner ++ closing))
             (opening ++ of_string inner ++ (if break_before then [NL] else []) ++ [BT; BT])
             BT BT); [done| |reflexivity|reflexivity].
    unfold closing. rewrite <- !app_assoc. by destruct break_before. }
  unfold strip_code_fences.
  rewrite (sub_open_match _ (length opening) None).
  - rewrite drop_app_length. rewrite H2, <- app_assoc. apply sub_close_fenced.
  - rewrite H1. unfold opening. rewrite <- !app_assoc.
    change (("{"%char :: rest) ++ closing) with ("{"%char :: (rest ++ closing)).
    by rewrite (open_match_fenced tagged break_after (rest ++ closing)).
  - unfold opening. by destruct tagged, break_after.
Qed.

End StripFacts.

Import StripFacts.

(** C7, amended.  A reply that is a record between fences (the opening fence
    with or without the tag [json] and a line break, the closing fence with
    or without a line break in front) decodes to what the record alone
    decodes to, which is what [json.loads] makes of the record.  A reply that, once
    stripped of surrounding white space, neither starts nor ends with a fence
    is handed to [json.loads] as it is. *)
Theorem fence_stripping_is_transparent (json_loads : string -> res value) :
  (forall (tagged break_after break_before : bool) (inner : string),
      is_record_text inner = true ->
      decode_reply json_loads (Some (fenced tagged break_after break_before inner))
      = decode_reply json_loads (Some inner)
      /\ decode_reply json_loads (Some inner) = json_loads inner)
  /\ (forall raw : string,
        starts_with FENCE (strip (of_string raw)) = false ->
        ends_with FENCE (strip (of_string raw)) = false ->
        decode_reply json_loads (Some raw)
        = json_loads (to_string (strip (of_string raw)))).
Proof.
  split.
  - intros tagged b1 b2 inner Hr. unfold decode_reply.
    rewrite strip_code_fences_fenced, strip_code_fences_record by done.
    split; [done|]. f_equal. apply string_of_list_ascii_of_string.
  - intros raw H1 H2. unfold decode_reply.
    rewrite strip_code_fences_unfenced; [done|done|done|apply strip_no_break].
Qed.

Lemma fence_stripping_is_transparent_witness :
  decode_reply Json.loads (Some (fenced true true true "{}"))
  = decode_reply Json.loads (Some "{}")
  /\ decode_reply Json.loads (Some " [1, 2] ")
     = Json.loads (to_string (strip (of_string " [1, 2] "))).
Proof.
  split.
  - apply (proj1 (fence_stripping_is_transparent Json.loads) true true true "{}").
    reflexivity.
  - apply (proj2 (fence_stripping_is_transparent Json.loads) " [1, 2] "); reflexivity.
Defined.

(** The only tag that the opening pattern knows is the lower-case word
    [json].  Under the tag [JSON] the same record is not decoded: the tag
    stays in front of it, and the decoder raises where the record alone
    decodes to the empty object. *)
Lemma other_tag_is_not_stripped :
  to_string (strip_code_fences
               (strip (of_string ("```JSON" +:+ nl +:+ "{}" +:+ nl +:+ "```"))))
  = "JSON" +:+ nl +:+ "{}"
  /\ is_ok (decode_reply Json.loads (Some ("```JSON" +:+ nl +:+ "{}" +:+ nl +:+ "```")))
     = false
  /\ decode_reply Json.loads (Some "{}") = Ok (VDict ∅)
  /\ decode_reply Json.loads (Some ("```JSON" +:+ nl +:+ "{}" +:+ nl +:+ "```"))
     <> decode_reply Json.loads (Some "{}").
Proof.
  split; [reflexivity|]. split; [reflexivity|]. split; [reflexivity|].
  vm_compute. discriminate.
Qed.

(* ===================================================================== *)
(** * Further properties *)
(* ===================================================================== *)

Set Warnings "-clear-no-such-hyp".

(** ** More on the filename correlator *)

Section CorrelatorMore.
Import Policy ReFacts CorrelatorFacts ItemFacts.

Lemma take_while_all (p : ascii -> bool) (s : chars) : forallb p (take_while p s) = true.
Proof. induction s as [|x s IH]; simpl; [done|]. destruct (p x) eqn:Hx; simpl; [by rewrite Hx|done]. Qed.

Lemma drop_while_suffix_all (p q : ascii -> bool) (s : chars) :
  forallb q s = true -> forallb q (drop_while p s) = true.
Proof.
  induction s as [|x s IH]; simpl; [done|].
  intros [Hx Hs]%andb_true_iff. destruct (p x); [by apply IH|]. simpl. by rewrite Hx, Hs.
Qed.

Lemma strip_zeros_digits (d : chars) :
  d <> [] -> forallb is_digit d = true ->
  strip_zeros d <> [] /\ forallb is_digit (strip_zeros d) = true.
Proof.
  intros Hd Hall. unfold strip_zeros.
  pose proof (drop_while_suffix_all is_zero is_digit d Hall) as H.
  destruct (drop_while is_zero d); [|done]. by destruct d.
Qed.

Lemma vendor_here_run (s : chars) :
  vendor_here s = true ->
  take_while is_digit (drop (length TOKEN) s) <> [].
Proof.
  unfold vendor_here. intros [_ Hv]%andb_true_iff.
  destruct (drop (length TOKEN) s) as [|y t]; [done|].
  cbn [take_while]. by rewrite Hv.
Qed.

Lemma vendor_digits_run (s d : chars) :
  vendor_digits s = Some d -> d <> [] /\ forallb is_digit d = true.
Proof.
  revert d. induction s as [|x s IH]; intros d; cbn [vendor_digits].
  - destruct (vendor_here []) eqn:Hv; [|done]. by vm_compute in Hv.
  - destruct (vendor_here (x :: s)) eqn:Hv; [|apply IH].
    intros Heq. assert (d = take_while is_digit (drop (length TOKEN) (x :: s))) as ->
      by congruence.
    split; [by apply vendor_here_run|apply take_while_all].
Qed.

Lemma first_digit_run_run (s d : chars) :
  first_digit_run s = Some d -> d <> [] /\ forallb is_digit d = true.
Proof.
  unfold first_digit_run.
  destruct (drop_while (fun c => negb (is_digit c)) s) as [|y t] eqn:Hd; [done|].
  intros Heq. assert (d = take_while is_digit (y :: t)) as -> by congruence.
  split; [|apply take_while_all].
  apply StripFacts.drop_while_head in Hd. apply negb_false_iff in Hd.
  cbn [take_while]. by rewrite Hd.
Qed.

Lemma identifier_digits (s d : chars) :
  identifier s = Some d -> d <> [] /\ forallb is_digit d = true.
Proof.
  unfold identifier. destruct (vendor_digits s) as [v|] eqn:Hv.
  - intros [= <-]. apply vendor_digits_run in Hv as [Hne Hall].
    by apply strip_zeros_digits.
  - apply first_digit_run_run.
Qed.

(** The last component of a path that ends with a separator and a name. *)
Lemma split_sep_last (cur dir n : chars) :
  forallb (fun c => negb (eqc c Pathlib.sep)) n = true ->
  exists front, Pathlib.split_sep cur (dir ++ Pathlib.sep :: n) = front ++ [n].
Proof.
  intros Hn. revert cur. induction dir as [|x dir IH]; intros cur.
  - cbn [app Pathlib.split_sep]. unfold eqc. rewrite Ascii.eqb_refl.
    rewrite (split_no_sep [] n Hn). by exists [rev cur].
  - cbn [app Pathlib.split_sep]. destruct (eqc x Pathlib.sep).
    + destruct (IH []) as [front ->]. by exists (rev cur :: front).
    + apply IH.
Qed.

Lemma name_of_joined (dir n : chars) :
  forallb (fun c => negb (eqc c Pathlib.sep)) n = true ->
  n <> [] -> n <> [Pathlib.dot] ->
  Pathlib.name (dir ++ Pathlib.sep :: n) = n /\ Pathlib.name n = n.
Proof.
  intros Hn H1 H2. unfold Pathlib.name, Pathlib.parts. split.
  - destruct (split_sep_last [] dir n Hn) as [front ->].
    rewrite filter_app, filter_cons, filter_nil.
    case_decide as Hd; [|by destruct Hd]. apply List.last_last.
  - rewrite split_no_sep by done. simpl. rewrite filter_cons, filter_nil.
    case_decide as Hd; [done|by destruct Hd].
Qed.

End CorrelatorMore.

(** X1.  Whatever the correlator returns is a non-empty string of decimal
    digits. *)
Theorem correlator_returns_digits (f r : string) :
  extract_integer_from_filename f = Some r ->
  r <> "" /\ forallb is_digit (of_string r) = true.
Proof.
  rewrite CorrelatorFacts.correlator_on_stem.
  destruct (Policy.identifier _) as [d|] eqn:Hd; [|done].
  intros [= <-]. apply identifier_digits in Hd as [Hne Hall].
  rewrite CorrelatorFacts.of_to_string. split; [|done].
  intros H. apply Hne. by rewrite <- (CorrelatorFacts.of_to_string d), H.
Qed.

Lemma correlator_returns_digits_witness :
  "42" <> "" /\ forallb is_digit (of_string "42") = true.
Proof. apply (correlator_returns_digits "vial_42_after.png" "42"). reflexivity. Defined.

(** X2.  In the vendor tier, for a name of any script, the digits after
    the token are some characters 0 (U+0030) followed by the identifier
    returned, and the identifier starts with that character only when it is
    "0".  The zero of another script is a digit that is not stripped. *)
Theorem vendor_zeros_are_stripped (f d : UChars.text) :
  UPolicy.vendor_digits (UPathlib.stem f) = Some d ->
  exists (r : UChars.text) (k : nat),
    Unicode.extract_integer_from_filename f = Some r
    /\ d = replicate k 48%N ++ r
    /\ (r = [48%N] \/ exists x t, r = x :: t /\ x <> 48%N).
Proof.
  intros Hv. rewrite UCorrelatorFacts.correlator_on_stem_u.
  unfold UPolicy.identifier. rewrite Hv.
  pose proof (UCorrelatorFacts.vendor_digits_run_u _ _ Hv) as Hne.
  destruct (UCorrelatorFacts.strip_zeros_spec_u d Hne) as (k & Hk & Hc).
  by exists (UPolicy.strip_zeros d), k.
Qed.

Lemma vendor_zeros_are_stripped_witness :
  exists (r : UChars.text) (k : nat),
    Unicode.extract_integer_from_filename
      (UChars.of_chars (of_string "DunnLab000187.jpg")) = Some r
    /\ UChars.of_chars (of_string "000187") = replicate k 48%N ++ r
    /\ (r = [48%N] \/ exists x t, r = x :: t /\ x <> 48%N).
Proof.
  apply (vendor_zeros_are_stripped
           (UChars.of_chars (of_string "DunnLab000187.jpg"))
           (UChars.of_chars (of_string "000187"))).
  reflexivity.
Defined.

(** X3.  Only the last component of a path counts: in front of a name, a
    directory part changes nothing, whatever digits or tokens it holds. *)
Theorem correlator_ignores_directories (dir n : chars) :
  forallb (fun c => negb (eqc c Pathlib.sep)) n = true ->
  n <> [] -> n <> [Pathlib.dot] ->
  extract_integer_from_filename (to_string (dir ++ Pathlib.sep :: n))
  = extract_integer_from_filename (to_string n).
Proof.
  intros Hn H1 H2. rewrite !CorrelatorFacts.correlator_on_stem.
  rewrite !CorrelatorFacts.of_to_string. unfold Pathlib.stem.
  destruct (name_of_joined dir n Hn H1 H2) as [-> ->]. done.
Qed.

Lemma correlator_ignores_directories_witness :
  extract_integer_from_filename "DunnLab12/run7/nocode.png"
  = extract_integer_from_filename "nocode.png".
Proof.
  exact (correlator_ignores_directories (of_string "DunnLab12/run7")
           (of_string "nocode.png") eq_refl ltac:(discriminate) ltac:(discriminate)).
Defined.

(** ** Which files are images *)

Section Discovery.
Import Policy ReFacts CorrelatorFacts ItemFacts.

Lemma lower_is_dot (c : ascii) : eqc (lower c) Pathlib.dot = eqc c Pathlib.dot.
Proof. each_char c; reflexivity. Qed.

Lemma no_dot_lower (s : chars) : no_dot (map lower s) = no_dot s.
Proof. unfold no_dot. induction s as [|x s IH]; simpl; [done|]. by rewrite lower_is_dot, IH. Qed.

Lemma rfind_dot_none (s : chars) : no_dot s = true -> Pathlib.rfind_dot s = None.
Proof.
  unfold no_dot. induction s as [|x s IH]; simpl; [done|].
  intros [Hx Hs]%andb_true_iff. rewrite IH by done.
  apply negb_true_iff in Hx. by rewrite Hx.
Qed.

Lemma rfind_dot_last (st e : chars) :
  no_dot e = true ->
  Pathlib.rfind_dot (st ++ Pathlib.dot :: e) = Some (length st).
Proof.
  intros He. induction st as [|x st IH]; simpl.
  - by rewrite rfind_dot_none.
  - by rewrite IH.
Qed.

(** The extensions are a dot and letters. *)
Lemma extension_shape (ext : chars) :
  to_string (map lower ext) ∈ EXTENSIONS ->
  exists e, ext = Pathlib.dot :: e /\ e <> [] /\ no_dot e = true.
Proof.
  intros H.
  assert (exists l, map lower ext = Pathlib.dot :: l /\ l <> [] /\ no_dot l = true)
    as (l & Hl & Hne & Hnd).
  { rewrite <- (of_to_string (map lower ext)).
    unfold EXTENSIONS in H. set_unfold in H.
    destruct H as [->|[->|[->|[->|[->|[]]]]]]; eexists; (split; [reflexivity|done]). }
  destruct ext as [|x e]; [done|]. simpl in Hl. injection Hl as Hx Hl.
  exists e. split; [|split].
  - f_equal. pose proof (lower_is_dot x) as Hd. rewrite Hx in Hd.
    unfold eqc in Hd. rewrite Ascii.eqb_refl in Hd. symmetry in Hd.
    by apply Ascii.eqb_eq in Hd.
  - intros ->. by subst l.
  - by rewrite <- no_dot_lower, Hl.
Qed.

End Discovery.

(** X4.  A path passes the test of [find_images] exactly when its last
    component is a non-empty stem followed by an extension that, in lower
    case, is one of the five of [EXTENSIONS].  A name that is only an
    extension (".png") has no suffix and is left out. *)
Theorem image_suffix_criterion (p : string) :
  has_image_suffix p = true
  <-> exists st ext : chars,
        st <> []
        /\ Pathlib.name (of_string p) = st ++ ext
        /\ to_string (map lower ext) ∈ EXTENSIONS.
Proof.
  unfold has_image_suffix. rewrite bool_decide_eq_true. unfold Pathlib.suffix. split.
  - intros H.
    destruct (Pathlib.suffix_at (Pathlib.name (of_string p))) as [i|] eqn:Hi.
    + unfold Pathlib.suffix_at in Hi.
      destruct (Pathlib.rfind_dot _) as [j|]; [|done].
      destruct (_ && _) eqn:Hb; [|done]. injection Hi as ->.
      apply andb_true_iff in Hb as [H0 H1].
      apply Nat.ltb_lt in H0, H1.
      exists (take i (Pathlib.name (of_string p))), (drop i (Pathlib.name (of_string p))).
      split; [|split; [by rewrite take_drop|done]].
      intros Ht. apply (f_equal length) in Ht. rewrite length_take in Ht. simpl in Ht. lia.
    + exfalso. simpl in H. unfold EXTENSIONS in H. set_unfold in H.
      destruct H as [?|[?|[?|[?|[?|[]]]]]]; discriminate.
  - intros (st & ext & Hst & Hn & Hext).
    destruct (extension_shape ext Hext) as (e & -> & Hne & Hnd).
    rewrite Hn. unfold Pathlib.suffix_at. rewrite rfind_dot_last by done.
    assert ((0 <? length st) && (S (length st) <? length (st ++ Pathlib.dot :: e)) = true)
      as ->.
    { apply andb_true_iff. split; apply Nat.ltb_lt.
      - destruct st; [done|simpl; lia].
      - rewrite length_app. destruct e; [done|simpl; lia]. }
    by rewrite drop_app_length.
Qed.

Lemma image_suffix_criterion_witness : has_image_suffix "scans/b.JPG" = true.
Proof.
  apply (proj2 (image_suffix_criterion "scans/b.JPG")).
  exists (of_string "b"), (of_string ".JPG"). split; [done|]. split; [reflexivity|].
  vm_compute. set_solver.
Defined.

Example hidden_png_is_not_an_image : has_image_suffix "scans/.png" = false.
Proof. reflexivity. Qed.

(** ** More on one item *)

Section RowMore.
Variable json_loads : string -> res value.

(** A row is returned exactly when both results are dictionaries, and it is
    their merge over the three computed entries. *)
Lemma row_of_ok (it : item) (row : dict) :
  row_of json_loads it = Ok row ->
  exists e p : dict,
    extracted_of json_loads it = VDict e
    /\ parsed_of json_loads it (default VNone (e !! "transcribed_text")) = VDict p
    /\ row = p ∪ (e ∪ (<["image_file" := VStr it.1]>
                       (<["filename_integer" := of_option (filename_integer_of it)]>
                       (<["datamatrix_match" :=
                            datamatrix_match (default VNone (e !! "datamatrix_integer"))
                              (filename_integer_of it)]> ∅)))).
Proof.
  rewrite row_of_eq.
  destruct (extracted_of json_loads it) as [| | | | |e] eqn:He; try done.
  cbn [py_get mbind res_bind].
  destruct (parsed_of json_loads it (default VNone (e !! "transcribed_text")))
    as [| | | | |p] eqn:Hp; try done.
  intros [= <-]. by exists e, p.
Qed.

End RowMore.

(** X5.  When the second stage raises, the task still returns a row: its
    [parse_confidence] is 0, its [parse_comments] is "Parsing failed: "
    followed by the text of the error, both requests were made, and every
    entry of the extraction result outside the eight parse fields is kept. *)
Theorem parse_failure_is_contained (json_loads : string -> res value)
    (it : item) (e : dict) (t : value) (x : exn) :
  extracted_of json_loads it = VDict e ->
  e !! "transcribed_text" = Some t ->
  truthy t = true ->
  decode json_loads (parse_reply it.2 t) = Raise x ->
  calls_of json_loads it = [CallVision it.1; CallParse t]
  /\ exists row,
      row_of json_loads it = Ok row
      /\ row !! "parse_confidence" = Some (VInt 0)
      /\ row !! "parse_comments" = Some (VStr ("Parsing failed: " +:+ exn_str x))
      /\ forall key v, e !! key = Some v -> parsing_failed x !! key = None ->
                       row !! key = Some v.
Proof.
  intros He Ht Htr Hx. split.
  - rewrite calls_of_eq, He. cbn [py_get]. rewrite Ht. simpl. by rewrite Htr.
  - assert (parsed_of json_loads it (default VNone (e !! "transcribed_text"))
            = VDict (parsing_failed x)) as Hp.
    { unfold parsed_of. rewrite Ht. simpl. by rewrite Htr, Hx. }
    rewrite (row_of_dicts json_loads it e (parsing_failed x) _ He eq_refl Hp).
    eexists. split; [reflexivity|]. split; [|split].
    + rewrite lookup_union_l'; [reflexivity|by eexists].
    + rewrite lookup_union_l'; [reflexivity|by eexists].
    + intros key v Hk Hnone. rewrite lookup_union_r by done.
      by apply lookup_union_Some_l.
Qed.

Lemma parse_failure_is_contained_witness :
  calls_of Json.loads parse_timeout_item
  = [CallVision parse_timeout_item.1; CallParse (VStr "Nanomia necto")]
  /\ exists row,
      row_of Json.loads parse_timeout_item = Ok row
      /\ row !! "parse_confidence" = Some (VInt 0)
      /\ row !! "parse_comments" = Some (VStr "Parsing failed: Request timed out.")
      /\ forall key v,
           the_dict (extracted_of Json.loads parse_timeout_item) !! key = Some v ->
           parsing_failed (Exn "APITimeoutError" "Request timed out.") !! key = None ->
           row !! key = Some v.
Proof.
  apply (parse_failure_is_contained Json.loads parse_timeout_item
           (the_dict (extracted_of Json.loads parse_timeout_item))
           (VStr "Nanomia necto") (Exn "APITimeoutError" "Request timed out.")).
  - vm_compute. reflexivity.
  - vm_compute. reflexivity.
  - reflexivity.
  - reflexivity.
Defined.

(** X6.  When the reply of the second stage decodes to something that is not
    an object, the task raises [TypeError] at the dict display: the error is
    not turned into a row. *)
Theorem non_object_parse_reply_escapes (json_loads : string -> res value)
    (it : item) (e : dict) (t v : value) :
  extracted_of json_loads it = VDict e ->
  e !! "transcribed_text" = Some t ->
  truthy t = true ->
  decode json_loads (parse_reply it.2 t) = Ok v ->
  (forall d, v <> VDict d) ->
  row_of json_loads it = Raise (NotAMapping v).
Proof.
  intros He Ht Htr Hv Hnd. rewrite row_of_eq, He. cbn [py_get mbind res_bind].
  unfold parsed_of. rewrite Ht. simpl. rewrite Htr, Hv. simpl.
  destruct v; try done. by destruct (Hnd d).
Qed.

Lemma non_object_parse_reply_escapes_witness :
  row_of Json.loads parse_array_item = Raise (NotAMapping (VList [VInt 1; VInt 2])).
Proof.
  apply (non_object_parse_reply_escapes Json.loads parse_array_item
           (the_dict (extracted_of Json.loads parse_array_item))
           (VStr "Nanomia necto")).
  - vm_compute. reflexivity.
  - vm_compute. reflexivity.
  - reflexivity.
  - reflexivity.
  - done.
Defined.

(** X7.  An item makes its vision request first and at most one parse
    request; the parse request is made exactly when the transcribed text of
    the extraction result is truthy, and it carries that text. *)
Theorem requests_of_an_item (json_loads : string -> res value) (it : item) :
  (calls_of json_loads it = [CallVision it.1]
   /\ forall t, py_get (extracted_of json_loads it) "transcribed_text" = Ok t ->
                truthy t = false)
  \/ exists t,
       calls_of json_loads it = [CallVision it.1; CallParse t]
       /\ py_get (extracted_of json_loads it) "transcribed_text" = Ok t
       /\ truthy t = true.
Proof.
  rewrite calls_of_eq.
  destruct (py_get (extracted_of json_loads it) "transcribed_text") as [t|x] eqn:Hg.
  - destruct (truthy t) eqn:Ht.
    + right. by exists t.
    + left. split; [done|]. by intros t' [= <-].
  - left. by split.
Qed.

Lemma requests_of_an_item_witness :
  (calls_of Json.loads good_item = [CallVision good_item.1]
   /\ forall t, py_get (extracted_of Json.loads good_item) "transcribed_text" = Ok t ->
                truthy t = false)
  \/ exists t,
       calls_of Json.loads good_item = [CallVision good_item.1; CallParse t]
       /\ py_get (extracted_of Json.loads good_item) "transcribed_text" = Ok t
       /\ truthy t = true.
Proof. exact (requests_of_an_item Json.loads good_item). Defined.

(** X8.  In a row the entries of the parse result come first, then those of
    the extraction result, then the three computed ones; so every row has an
    [image_file], a [filename_integer] and a [datamatrix_match] entry, and
    its keys are those of the two results and these three. *)
Theorem row_is_the_merge (json_loads : string -> res value) (it : item) (row : dict) :
  row_of json_loads it = Ok row ->
  exists e p : dict,
    extracted_of json_loads it = VDict e
    /\ parsed_of json_loads it (default VNone (e !! "transcribed_text")) = VDict p
    /\ (forall key,
          row !! key =
          match p !! key with
          | Some v => Some v
          | None =>
              match e !! key with
              | Some v => Some v
              | None =>
                  if decide (key = "image_file") then Some (VStr it.1)
                  else if decide (key = "filename_integer")
                  then Some (of_option (filename_integer_of it))
                  else if decide (key = "datamatrix_match")
                  then Some (datamatrix_match (default VNone (e !! "datamatrix_integer"))
                               (filename_integer_of it))
                  else None
              end
          end)
    /\ is_Some (row !! "image_file")
    /\ is_Some (row !! "filename_integer")
    /\ is_Some (row !! "datamatrix_match")
    /\ dom row = dom p ∪ dom e
                 ∪ {["image_file"; "filename_integer"; "datamatrix_match"]}.
Proof.
  intros Hrow. destruct (row_of_ok json_loads it row Hrow) as (e & p & He & Hp & ->).
  exists e, p. split; [done|]. split; [done|].
  assert (forall key,
    (p ∪ (e ∪ (<["image_file" := VStr it.1]>
                (<["filename_integer" := of_option (filename_integer_of it)]>
                (<["datamatrix_match" :=
                     datamatrix_match (default VNone (e !! "datamatrix_integer"))
                       (filename_integer_of it)]> ∅))))) !! key
    = match p !! key with
      | Some v => Some v
      | None =>
          match e !! key with
          | Some v => Some v
          | None =>
              if decide (key = "image_file") then Some (VStr it.1)
              else if decide (key = "filename_integer")
              then Some (of_option (filename_integer_of it))
              else if decide (key = "datamatrix_match")
              then Some (datamatrix_match (default VNone (e !! "datamatrix_integer"))
                           (filename_integer_of it))
              else None
          end
      end) as Hl.
  { intros key. rewrite !lookup_union.
    destruct (p !! key), (e !! key); simpl;
      try (by destruct (_ !! key)).
    rewrite !lookup_insert. rewrite lookup_empty.
    repeat case_decide; simplify_eq; done. }
  split; [exact Hl|].
  split; [|split; [|split]].
  - rewrite Hl. destruct (p !! "image_file"); [by eexists|].
    destruct (e !! "image_file"); [by eexists|].
    repeat (case_decide; [by eexists|]). done.
  - rewrite Hl. destruct (p !! "filename_integer"); [by eexists|].
    destruct (e !! "filename_integer"); [by eexists|].
    repeat (case_decide; [by eexists|]). done.
  - rewrite Hl. destruct (p !! "datamatrix_match"); [by eexists|].
    destruct (e !! "datamatrix_match"); [by eexists|].
    repeat (case_decide; [by eexists|]). done.
  - rewrite !dom_union_L, !dom_insert_L, dom_empty_L. set_solver.
Qed.

Lemma row_is_the_merge_witness :
  is_Some (the_row (row_of Json.loads good_item) !! "image_file").
Proof.
  destruct (row_is_the_merge Json.loads good_item (the_row (row_of Json.loads good_item)))
    as (e & p & _ & _ & _ & H & _).
  - apply ok_the_row. vm_compute. reflexivity.
  - exact H.
Defined.

(** X9.  The row of an item whose first stage raised has exactly the fifteen
    columns of the report as its keys. *)
Theorem failed_row_has_all_columns (json_loads : string -> res value)
    (it : item) (e : exn) (row : dict) :
  decode json_loads (vision_reply it.2 it.1) = Raise e ->
  row_of json_loads it = Ok row ->
  dom row = list_to_set COLUMNS.
Proof.
  intros He. rewrite (failed_extraction_row json_loads it e He).
  intros [= <-]. unfold no_text, parse_sentinel, extraction_failed, COLUMNS.
  rewrite !dom_union_L, !dom_insert_L, !dom_empty_L. simpl. set_solver.
Qed.

Lemma failed_row_has_all_columns_witness :
  dom (the_row (row_of Json.loads timeout_item)) = list_to_set COLUMNS.
Proof.
  apply (failed_row_has_all_columns Json.loads timeout_item
           (Exn "APITimeoutError" "Request timed out.")).
  - reflexivity.
  - apply ok_the_row. vm_compute. reflexivity.
Defined.

(** ** More on the whole run *)

Section RunMore.
Variable json_loads : string -> res value.

Lemma rows_by_number (items : list item) (order : list nat) (rows : list dict) :
  Forall2 (row_at json_loads items) order rows ->
  rows = row_number json_loads items <$> order.
Proof.
  induction 1 as [|j r order rows (it & Hit & Hr) _ IH]; [done|].
  rewrite fmap_cons, <- IH. f_equal. unfold row_number. by rewrite Hit, Hr.
Qed.


End RunMore.

(** X10.  When [process_all] returns, its k-th result is the row of the k-th
    task to complete; so the rows of two runs over the same items are the
    same up to their order. *)
Theorem results_follow_completion_order (json_loads : string -> res value)
    (items : list item) (order order' : list nat) (rows rows' : list dict) :
  completion_order (length items) order ->
  completion_order (length items) order' ->
  process_all json_loads order items = Ok rows ->
  process_all json_loads order' items = Ok rows' ->
  rows = row_number json_loads items <$> order
  /\ rows ≡ₚ rows'.
Proof.
  intros Hc Hc' Hr Hr'.
  destruct (completion_order_valid _ _ Hc) as (_ & Hv & _).
  destruct (completion_order_valid _ _ Hc') as (_ & Hv' & _).
  destruct (collect_rows json_loads items order [] rows Hv Hr) as (rs & -> & HF).
  destruct (collect_rows json_loads items order' [] rows' Hv' Hr') as (rs' & -> & HF').
  simpl. rewrite (rows_by_number _ _ _ _ HF), (rows_by_number _ _ _ _ HF').
  split; [done|]. apply fmap_Permutation.
  unfold completion_order in *. by rewrite Hc, Hc'.
Qed.

Lemma results_follow_completion_order_witness :
  match process_all Json.loads [0; 1] [good_item; timeout_item] with
  | Ok rows => rows | Raise _ => [] end
  ≡ₚ match process_all Json.loads [1; 0] [good_item; timeout_item] with
     | Ok rows => rows | Raise _ => [] end.
Proof.
  assert (forall order, is_ok (process_all Json.loads order [good_item; timeout_item]) = true ->
          process_all Json.loads order [good_item; timeout_item]
          = Ok (match process_all Json.loads order [good_item; timeout_item] with
                | Ok rows => rows | Raise _ => [] end)) as Hok.
  { intros order. by destruct (process_all _ _ _). }
  apply (results_follow_completion_order Json.loads [good_item; timeout_item]
              [0; 1] [1; 0]).
  - unfold completion_order. reflexivity.
  - unfold completion_order. apply Permutation_swap.
  - apply Hok. vm_compute. reflexivity.
  - apply Hok. vm_compute. reflexivity.
Defined.



(** ** More on the response decoder *)

Section DecoderMore.
Import Re FenceFacts CloseFacts StripFacts.

Lemma drop_while_all (p : ascii -> bool) (ws c : chars) :
  forallb p ws = true -> drop_while p (ws ++ c) = drop_while p c.
Proof.
  induction ws as [|x ws IH]; simpl; [done|].
  intros [-> H]%andb_true_iff. by apply IH.
Qed.

Lemma drop_while_app_rest (p : ascii -> bool) (c ws : chars) :
  drop_while p c <> [] -> drop_while p (c ++ ws) = drop_while p c ++ ws.
Proof.
  induction c as [|x c IH]; simpl; [done|]. destruct (p x); [apply IH|done].
Qed.

Lemma drop_while_nil (p : ascii -> bool) (c : chars) :
  drop_while p c = [] -> forallb p c = true.
Proof.
  induction c as [|x c IH]; simpl; [done|]. destruct (p x); [apply IH|done].
Qed.

Lemma forallb_rev (p : ascii -> bool) (s : chars) : forallb p (rev s) = forallb p s.
Proof.
  induction s as [|x s IH]; simpl; [done|].
  rewrite forallb_app, IH. simpl. by rewrite andb_true_r, andb_comm.
Qed.

(** [strip] removes the white space at both ends and nothing else. *)
Lemma strip_padding (ws1 c ws2 : chars) :
  all_space ws1 = true -> all_space ws2 = true ->
  strip (ws1 ++ c ++ ws2) = strip c.
Proof.
  unfold all_space, strip. intros H1 H2. rewrite drop_while_all by done.
  destruct (drop_while is_space c) as [|y t] eqn:Hc.
  - apply drop_while_nil in Hc.
    assert (drop_while is_space (c ++ ws2) = []) as ->; [|done].
    rewrite <- (app_nil_r (c ++ ws2)), drop_while_all; [done|].
    by rewrite forallb_app, Hc, H2.
  - rewrite drop_while_app_rest by (by rewrite Hc). rewrite Hc.
    rewrite rev_app_distr, drop_while_all; [done|]. by rewrite forallb_rev.
Qed.

Lemma strip_code_fences_opening_only (tagged break_after : bool) (inner : string) :
  is_record_text inner = true ->
  strip_code_fences
    (strip (FENCE ++ (if tagged then of_string "json" else [])
              ++ (if break_after then [NL] else []) ++ of_string inner))
  = of_string inner.
Proof.
  intros Hr. destruct (record_text_ends inner Hr) as (rest & u & H1 & H2).
  set (opening := FENCE ++ (if tagged then of_string "json" else [])
                    ++ (if break_after then [NL] else [])).
  assert (FENCE ++ (if tagged then of_string "json" else [])
            ++ (if break_after then [NL] else []) ++ of_string inner
          = opening ++ of_string inner) as ->.
  { unfold opening. by rewrite <- !app_assoc. }
  assert (strip (opening ++ of_string inner) = opening ++ of_string inner) as ->.
  { apply (strip_keep _ (tail (opening ++ of_string inner)) (opening ++ u) BT "}"%char);
      [done| |reflexivity|reflexivity].
    by rewrite H2, app_assoc. }
  unfold strip_code_fences.
  rewrite (sub_open_match _ (length opening) None).
  - rewrite drop_app_length. apply sub_close_unfenced.
    + rewrite H2. unfold ends_with. by rewrite (rev_app_distr u).
    + rewrite H2. unfold ends_with. by rewrite (rev_app_distr u).
  - rewrite H1. unfold opening, NL. rewrite <- !app_assoc.
    by rewrite (open_match_fenced tagged break_after rest).
  - unfold opening. by destruct tagged, break_after.
Qed.

Lemma strip_code_fences_closing_only (break_before : bool) (inner : string) :
  is_record_text inner = true ->
  strip_code_fences
    (strip (of_string inner ++ (if break_before then [NL] else []) ++ FENCE))
  = of_string inner.
Proof.
  intros Hr. destruct (record_text_ends inner Hr) as (rest & u & H1 & H2).
  set (closing := (if break_before then [NL] else []) ++ FENCE).
  assert (strip (of_string inner ++ closing) = of_string inner ++ closing) as ->.
  { apply (strip_keep _ (rest ++ closing)
             (of_string inner ++ (if break_before then [NL] else []) ++ [BT; BT])
             "{"%char BT); [by rewrite H1| |reflexivity|reflexivity].
    unfold closing. rewrite <- !app_assoc. by destruct break_before. }
  unfold strip_code_fences. rewrite sub_open_unfenced by (by rewrite H1).
  rewrite H2, <- app_assoc. apply sub_close_fenced.
Qed.

End DecoderMore.

(** X12.  White space around a reply does not matter: the decoder gives the
    same result for a reply and for the reply between two runs of white
    space. *)
Theorem decoder_ignores_padding (json_loads : string -> res value)
    (ws1 ws2 : chars) (content : string) :
  all_space ws1 = true -> all_space ws2 = true ->
  decode_reply json_loads (Some (to_string (ws1 ++ of_string content ++ ws2)))
  = decode_reply json_loads (Some content).
Proof.
  intros H1 H2. unfold decode_reply.
  by rewrite CorrelatorFacts.of_to_string, strip_padding.
Qed.

Lemma decoder_ignores_padding_witness :
  decode_reply Json.loads (Some (to_string ([NL; " "%char] ++ of_string "{}" ++ [NL])))
  = decode_reply Json.loads (Some "{}").
Proof. apply decoder_ignores_padding; reflexivity. Defined.

(** X13.  The two fences are removed independently of each other: a record
    with an opening fence only, or with a closing fence only, decodes to what
    [json.loads] makes of the record. *)
Theorem half_fenced_reply_is_decoded (json_loads : string -> res value)
    (tagged break_after break_before : bool) (inner : string) :
  is_record_text inner = true ->
  decode_reply json_loads
    (Some (to_string (FENCE ++ (if tagged then of_string "json" else [])
                        ++ (if break_after then [NL] else []) ++ of_string inner)))
  = json_loads inner
  /\ decode_reply json_loads
       (Some (to_string (of_string inner ++ (if break_before then [NL] else []) ++ FENCE)))
     = json_loads inner.
Proof.
  intros Hr. unfold decode_reply. rewrite !CorrelatorFacts.of_to_string.
  rewrite strip_code_fences_opening_only, strip_code_fences_closing_only by done.
  by rewrite CorrelatorFacts.to_of_string.
Qed.

Lemma half_fenced_reply_is_decoded_witness :
  decode_reply Json.loads (Some ("```json" +:+ nl +:+ "{}")) = Json.loads "{}"
  /\ decode_reply Json.loads (Some ("{}" +:+ nl +:+ "```")) = Json.loads "{}".
Proof.
  exact (half_fenced_reply_is_decoded Json.loads true true true "{}" eq_refl).
Defined.

(** ** More on the report sink *)

Lemma mapM_res_ok {A B : Type} (f : A -> res B) (l : list A) (bs : list B) :
  mapM_res f l = Ok bs <-> Forall2 (fun a b => f a = Ok b) l bs.
Proof.
  revert bs. induction l as [|a l IH]; intros bs; simpl.
  - split; [intros [= <-]; constructor|by inversion 1].
  - destruct (f a) as [b|e] eqn:Hb; simpl.
    + destruct (mapM_res f l) as [bs'|e] eqn:Hl; simpl.
      * split.
        -- intros [= <-]. constructor; [done|]. by apply IH.
        -- inversion 1 as [|? b' ? bs'' Hb' HF]; subst.
           apply IH in HF. unfold mret, res_ret. congruence.
      * split; [done|]. inversion 1 as [|? b' ? bs'' Hb' HF]; subst.
        by apply IH in HF.
    + split; [done|]. inversion 1; congruence.
Qed.

Lemma mapM_res_raise {A B : Type} (f : A -> res B) (l : list A) (a : A) (e : exn) :
  a ∈ l -> f a = Raise e ->
  (forall a' e', f a' = Raise e' -> e' = e) ->
  mapM_res f l = Raise e.
Proof.
  intros Hin Ha Hall. induction l as [|x l IH]; [by apply elem_of_nil in Hin|].
  simpl. destruct (f x) as [b|e'] eqn:Hx; simpl.
  - apply elem_of_cons in Hin as [->|Hin]; [congruence|]. by rewrite IH.
  - f_equal. by apply (Hall x).
Qed.

Lemma mapM_res_head_raise {A B : Type} (f : A -> res B) (a : A) (l : list A) (e : exn) :
  f a = Raise e -> mapM_res f (a :: l) = Raise e.
Proof. intros H. cbn [mapM_res]. by rewrite H. Qed.

Lemma cell_fill_raise (row : dict) (e : exn) (column : string) :
  row_fill row = Raise e -> cell_fill row column = Raise e.
Proof. intros H. unfold cell_fill. by rewrite H. Qed.

Lemma row_fill_raises (row : dict) (e : exn) : row_fill row = Raise e -> e = NotComparable.
Proof.
  unfold row_fill, confidence_fill. repeat case_match; congruence.
Qed.

Lemma cells_raise (row : dict) (e : exn) :
  mapM_res (cell_fill row) COLUMNS = Raise e -> e = NotComparable.
Proof.
  destruct (row_fill row) as [f|e'] eqn:Hf.
  - assert (mapM_res (cell_fill row) COLUMNS
            = Ok ((fun column =>
                     if String.eqb column "datamatrix_match"
                        && is_False (row_get row "datamatrix_match")
                     then Some RED_FILL else f) <$> COLUMNS)) as ->; [|done].
    apply mapM_res_ok. apply Forall2_fmap_r, Forall_Forall2_diag, Forall_forall.
    intros column _. unfold cell_fill. by rewrite Hf.
  - unfold COLUMNS. rewrite (mapM_res_head_raise _ _ _ e') by (by apply cell_fill_raise).
    intros [= <-]. by apply row_fill_raises in Hf.
Qed.

(** X14.  For a row whose two scores are integers other than 0, the row is
    red exactly when the smaller score is at most 3, yellow exactly when it
    is above 3 and at most 6, and unflagged exactly when it is above 6. *)
Theorem confidence_thresholds (row : dict) (t p : Z) :
  row !! "transcription_confidence" = Some (VInt t) ->
  row !! "parse_confidence" = Some (VInt p) ->
  t <> 0%Z -> p <> 0%Z ->
  (row_fill row = Ok (Some RED_FILL) <-> (Z.min t p <= 3)%Z)
  /\ (row_fill row = Ok (Some YELLOW_FILL) <-> (3 < Z.min t p <= 6)%Z)
  /\ (row_fill row = Ok None <-> (6 < Z.min t p)%Z).
Proof.
  intros Ht Hp Ht0 Hp0. rewrite (row_fill_nonzero row t p Ht Hp Ht0 Hp0).
  destruct (Z.leb_spec (Z.min t p) 3), (Z.leb_spec (Z.min t p) 6);
    repeat split; intros; try done; try lia.
Qed.

Lemma confidence_thresholds_witness :
  row_fill (<["transcription_confidence" := VInt 9]>
            (<["parse_confidence" := VInt 5]> ∅)) = Ok (Some YELLOW_FILL).
Proof.
  apply (confidence_thresholds _ 9 5); [reflexivity|reflexivity|done|done|]. lia.
Defined.

(** X15.  A score that is missing or null counts as 10: a row with neither
    score is unflagged, and a row with only its parse score, an integer other
    than 0, is flagged by that score alone. *)
Theorem absent_scores_count_as_ten (row : dict) :
  (row !! "transcription_confidence" = None
   \/ row !! "transcription_confidence" = Some VNone) ->
  ((row !! "parse_confidence" = None \/ row !! "parse_confidence" = Some VNone) ->
   row_fill row = Ok None)
  /\ (forall p, row !! "parse_confidence" = Some (VInt p) -> p <> 0%Z ->
        row_fill row =
        Ok (if (p <=? 3)%Z then Some RED_FILL
            else if (p <=? 6)%Z then Some YELLOW_FILL else None)).
Proof.
  intros Ht. split.
  - intros Hp. unfold row_fill, row_get.
    by destruct Ht as [-> | ->], Hp as [-> | ->].
  - intros p Hp Hp0. unfold row_fill, row_get. rewrite Hp.
    apply Z.eqb_neq in Hp0.
    assert (py_or (default VNone (row !! "transcription_confidence")) (VInt 10) = VInt 10)
      as -> by (by destruct Ht as [-> | ->]).
    unfold py_or. simpl. rewrite Hp0. simpl. unfold confidence_fill. simpl.
    destruct (Z.leb_spec p 3), (Z.leb_spec p 6),
      (Z.leb_spec (Z.min 10 p) 3), (Z.leb_spec (Z.min 10 p) 6); try done; lia.
Qed.

Lemma absent_scores_count_as_ten_witness :
  row_fill (<["image_file" := VStr "a.png"]> ∅) = Ok None.
Proof.
  apply (absent_scores_count_as_ten (<["image_file" := VStr "a.png"]> ∅));
    left; reflexivity.
Defined.

Lemma mapM_res_raise_inv {A B : Type} (f : A -> res B) (l : list A) (e : exn) :
  mapM_res f l = Raise e -> exists a, a ∈ l /\ f a = Raise e.
Proof.
  induction l as [|x l IH]; [done|]. cbn [mapM_res].
  destruct (f x) as [b|e'] eqn:Hx.
  - destruct (mapM_res f l) as [bs|e''] eqn:Hl; [done|].
    intros [= <-]. destruct (IH eq_refl) as (a & Ha & Hfa).
    exists a. split; [apply elem_of_cons; by right|done].
  - intros [= <-]. exists x. split; [apply elem_of_cons; by left|done].
Qed.

Lemma mapM_res_some_raise {A B : Type} (f : A -> res B) (l : list A) (a : A) (e : exn) :
  a ∈ l -> f a = Raise e -> exists e', mapM_res f l = Raise e'.
Proof.
  intros Hin Ha. induction l as [|x l IH]; [by apply elem_of_nil in Hin|].
  cbn [mapM_res]. destruct (f x) as [b|e'] eqn:Hx; [|by exists e'].
  apply elem_of_cons in Hin as [->|Hin]; [congruence|].
  destruct (IH Hin) as [e' ->]. by exists e'.
Qed.

Lemma zip_fmap_same {A B C : Type} (f : A -> B) (g : A -> C) (l : list A) :
  zip (f <$> l) (g <$> l) = (fun a => (f a, g a)) <$> l.
Proof. induction l as [|a l IH]; [done|]. cbn [fmap list_fmap zip zip_with]. by f_equal. Qed.

(** A loop that checks every element and keeps a value for it. *)
Lemma checked_ok {A B : Type} (g : A -> res unit) (h : A -> B) (l : list A) (bs : list B) :
  mapM_res (fun a => g a ;; mret (h a)) l = Ok bs ->
  bs = h <$> l /\ Forall (fun a => g a = Ok tt) l.
Proof.
  intros HF%mapM_res_ok. induction HF as [|a b l bs Hab HF IH]; [done|].
  destruct IH as [-> IH]. destruct (g a) as [[]|e] eqn:Hg; [|done].
  injection Hab as <-. split; [done|]. by constructor.
Qed.

Lemma checked_raise {A B : Type} (g : A -> res unit) (h : A -> B) (l : list A) (e : exn) :
  mapM_res (fun a => g a ;; mret (h a)) l = Raise e ->
  exists a, a ∈ l /\ g a = Raise e.
Proof.
  intros (a & Ha & Hg)%mapM_res_raise_inv. exists a. split; [done|].
  destruct (g a) as [[]|e']; [done|]. by injection Hg as <-.
Qed.

Lemma cells_ok (row : dict) (fills : list (option fill)) :
  mapM_res (cell_fill row) COLUMNS = Ok fills ->
  exists f,
    row_fill row = Ok f
    /\ fills = (fun column =>
                  if String.eqb column "datamatrix_match"
                     && is_False (row_get row "datamatrix_match")
                  then Some RED_FILL else f) <$> COLUMNS.
Proof.
  intros Hrow. destruct (row_fill row) as [f|e] eqn:Hf.
  - exists f. split; [done|].
    assert (mapM_res (cell_fill row) COLUMNS
            = Ok ((fun column =>
                     if String.eqb column "datamatrix_match"
                        && is_False (row_get row "datamatrix_match")
                     then Some RED_FILL else f) <$> COLUMNS)) as Heq; [|congruence].
    apply mapM_res_ok. apply Forall2_fmap_r, Forall_Forall2_diag, Forall_forall.
    intros column _. unfold cell_fill. by rewrite Hf.
  - exfalso. unfold COLUMNS in Hrow.
    rewrite (mapM_res_head_raise _ _ _ e) in Hrow by (by apply cell_fill_raise).
    discriminate.
Qed.

Section SinkMore.
Variable ws_cell : value -> res unit.

Lemma write_row_ok (row : dict) (cells : list cell) :
  Sink.write_row ws_cell row = Ok cells ->
  exists f,
    row_fill row = Ok f
    /\ cells = (fun column =>
                  (Sink.cell_value row column,
                   if String.eqb column "datamatrix_match"
                      && is_False (row_get row "datamatrix_match")
                   then Some RED_FILL else f)) <$> COLUMNS
    /\ Forall (fun column => ws_cell (Sink.cell_value row column) = Ok tt) COLUMNS.
Proof.
  unfold Sink.write_row, mbind at 1, res_bind at 1.
  destruct (mapM_res _ COLUMNS) as [values|e] eqn:Hv; [|done].
  apply checked_ok in Hv as [-> Hall]. unfold mbind, res_bind.
  destruct (mapM_res (cell_fill row) COLUMNS) as [fills|e] eqn:Hf; [|done].
  apply cells_ok in Hf as (f & Hf & ->). rewrite zip_fmap_same.
  unfold mret, res_ret. intros Hc. exists f. split; [done|]. split; [congruence|done].
Qed.

Lemma write_row_raise (row : dict) (e : exn) :
  Sink.write_row ws_cell row = Raise e ->
  e = NotComparable \/ exists v, ws_cell v = Raise e.
Proof.
  unfold Sink.write_row, mbind at 1, res_bind at 1.
  destruct (mapM_res _ COLUMNS) as [values|e'] eqn:Hv.
  - unfold mbind, res_bind.
    destruct (mapM_res (cell_fill row) COLUMNS) as [fills|e'] eqn:Hf; [done|].
    intros [= <-]. left. by eapply cells_raise.
  - intros [= <-]. right. apply checked_raise in Hv as (name & _ & Hv). by eexists.
Qed.

Lemma write_header_raise (e : exn) :
  Sink.write_header ws_cell = Raise e -> exists v, ws_cell v = Raise e.
Proof.
  unfold Sink.write_header, mbind, res_bind.
  destruct (mapM_res _ COLUMNS) as [us|e'] eqn:Hv; [done|].
  intros [= <-]. apply mapM_res_raise_inv in Hv as (name & _ & Hv). by eexists.
Qed.

(** A row with a score that cannot be compared is not written. *)
Lemma write_row_not_comparable (row : dict) (key : string) (v : value) :
  key = "transcription_confidence" \/ key = "parse_confidence" ->
  row !! key = Some v -> truthy v = true -> as_number v = None ->
  exists e, Sink.write_row ws_cell row = Raise e.
Proof.
  intros Hkey Hv Htr Hn.
  assert (row_fill row = Raise NotComparable) as Hf.
  { unfold row_fill, row_get, confidence_fill.
    assert (py_or (default VNone (Some v)) (VInt 10) = v) as Hor
      by (unfold py_or; simpl; by rewrite Htr).
    destruct Hkey as [-> | ->]; rewrite Hv, Hor, Hn; [done|].
    destruct (as_number (py_or _ _)); reflexivity. }
  unfold Sink.write_row, mbind, res_bind.
  destruct (mapM_res _ COLUMNS) as [values|e'] eqn:Hvs; [|by exists e'].
  exists NotComparable. unfold COLUMNS at 1.
  by rewrite (mapM_res_head_raise _ _ _ NotComparable) by (by apply cell_fill_raise).
Qed.

Lemma write_spreadsheet_ok (wb_save : list (list cell) -> res unit)
    (rows : list dict) (sheet : list (list cell)) :
  Sink.write_spreadsheet ws_cell wb_save rows = Ok sheet ->
  mapM_res (Sink.write_row ws_cell) rows = Ok sheet /\ wb_save sheet = Ok tt.
Proof.
  unfold Sink.write_spreadsheet, mbind, res_bind.
  destruct (Sink.write_header ws_cell) as [[]|e]; [|done].
  destruct (mapM_res _ rows) as [sh|e]; [|done].
  destruct (wb_save sh) as [[]|e] eqn:Hs; [|done]. by intros [= <-].
Qed.


End SinkMore.

(** X16.  One row with a score that is a non-empty string, list or
    dictionary makes [write_spreadsheet] raise before the workbook is saved,
    whatever the other rows are; when openpyxl accepts every cell value the
    exception is the [TypeError] of the comparison. *)
Theorem non_numeric_score_aborts_report (ws_cell : value -> res unit)
    (rows : list dict) (row : dict) (key : string) (v : value) :
  row ∈ rows ->
  key = "transcription_confidence" \/ key = "parse_confidence" ->
  row !! key = Some v -> truthy v = true -> as_number v = None ->
  exists e,
    (forall wb_save, Sink.write_spreadsheet ws_cell wb_save rows = Raise e)
    /\ ((forall v', ws_cell v' = Ok tt) -> e = NotComparable).
Proof.
  intros Hin Hkey Hv Htr Hn.
  destruct (write_row_not_comparable ws_cell row key v Hkey Hv Htr Hn) as [e0 He0].
  destruct (mapM_res_some_raise _ rows row e0 Hin He0) as [e1 He1].
  unfold Sink.write_spreadsheet, mbind, res_bind.
  destruct (Sink.write_header ws_cell) as [[]|e] eqn:Hh.
  - exists e1. rewrite He1. split; [done|]. intros Hall.
    apply mapM_res_raise_inv in He1 as (row' & _ & Hr).
    apply write_row_raise in Hr as [->|[v' Hr]]; [done|]. by rewrite Hall in Hr.
  - exists e. split; [done|]. intros Hall.
    apply write_header_raise in Hh as [v' Hh]. by rewrite Hall in Hh.
Qed.

Lemma non_numeric_score_aborts_report_witness :
  exists e,
    (forall wb_save,
       Sink.write_spreadsheet any_cell wb_save
         [the_row (row_of Json.loads good_item);
          <["transcription_confidence" := VStr "8"]> ∅] = Raise e)
    /\ ((forall v', any_cell v' = Ok tt) -> e = NotComparable).
Proof.
  apply (non_numeric_score_aborts_report any_cell _
           (<["transcription_confidence" := VStr "8"]> ∅)
           "transcription_confidence" (VStr "8")).
  - set_solver.
  - by left.
  - reflexivity.
  - reflexivity.
  - reflexivity.
Defined.

(** X17.  When [write_spreadsheet] returns, the workbook was saved and has
    one line of cells per row and fifteen cells per line.  The value of a
    cell is the row's entry for the column, or the empty string when the row
    has none, and openpyxl accepted it; the cells of a line all carry the
    fill of the row, except that the [datamatrix_match] cell is red when the
    row's [datamatrix_match] is [False]. *)
Theorem sheet_shape (ws_cell : value -> res unit)
    (wb_save : list (list cell) -> res unit)
    (rows : list dict) (sheet : list (list cell)) :
  Sink.write_spreadsheet ws_cell wb_save rows = Ok sheet ->
  wb_save sheet = Ok tt
  /\ length sheet = length rows
  /\ forall k row, rows !! k = Some row ->
       exists f,
         row_fill row = Ok f
         /\ sheet !! k =
            Some ((fun column =>
                     (default (VStr "") (row !! column),
                      if String.eqb column "datamatrix_match"
                         && is_False (row_get row "datamatrix_match")
                      then Some RED_FILL else f)) <$> COLUMNS)
         /\ forall column, column ∈ COLUMNS ->
              ws_cell (default (VStr "") (row !! column)) = Ok tt.
Proof.
  intros [HF Hs]%write_spreadsheet_ok. apply mapM_res_ok in HF.
  split; [done|]. split; [symmetry; by eapply Forall2_length|].
  intros k row Hk.
  destruct (Forall2_lookup_l _ _ _ _ _ HF Hk) as (cells & Hcells & Hrow).
  apply write_row_ok in Hrow as (f & Hf & -> & Hall).
  exists f. split; [done|]. split; [done|].
  intros column Hc. by apply (proj1 (Forall_forall _ _) Hall).
Qed.

Lemma sheet_shape_witness :
  length (match Sink.write_spreadsheet any_cell saved
                  [the_row (row_of Json.loads good_item)] with
          | Ok sheet => sheet | Raise _ => [] end) = 1.
Proof.
  assert (forall r : res (list (list cell)), is_ok r = true ->
            r = Ok (match r with Ok sheet => sheet | Raise _ => [] end)) as Hok
    by (by intros []).
  apply (sheet_shape any_cell saved [the_row (row_of Json.loads good_item)]).
  apply Hok. vm_compute. reflexivity.
Defined.

(** ** More on the semaphore *)

Section SchedulerMore.
Variable json_loads : string -> res value.

Lemma process_one_suspends (path : string) :
  process_one json_loads path = Vision path (after_vision json_loads path).
Proof. reflexivity. Qed.

(** After the answer to its first request a task is done, or suspended at
    its second request and done after the answer to that. *)
Lemma after_vision_cases (path : string) (o : reply) :
  (exists r, after_vision json_loads path o = Ret r
             /\ forall sv, vision_reply sv path = o ->
                           row_of json_loads (path, sv) = r)
  \/ (exists t k, after_vision json_loads path o = Parse t k
                  /\ forall o' sv, vision_reply sv path = o -> parse_reply sv t = o' ->
                                   k o' = Ret (row_of json_loads (path, sv))).
Proof.
  unfold after_vision.
  destruct (py_get (or_extraction_failed (decode json_loads o)) "transcribed_text")
    as [t|e] eqn:Hg.
  - unfold parse_stage. destruct (truthy t) eqn:Ht.
    + right. eexists t, _. split; [reflexivity|].
      intros o' sv Hv Hp. f_equal. rewrite row_of_eq.
      unfold extracted_of, parsed_of, filename_integer_of. simpl.
      rewrite Hv, Hg. simpl. by rewrite Ht, Hp.
    + left. eexists. split; [reflexivity|].
      intros sv Hv. rewrite row_of_eq.
      unfold extracted_of, parsed_of, filename_integer_of. simpl.
      rewrite Hv, Hg. simpl. by rewrite Ht.
  - left. eexists. split; [reflexivity|].
    intros sv Hv. rewrite row_of_eq. unfold extracted_of. simpl. by rewrite Hv, Hg.
Qed.

Lemma step_keeps_task_of (paths : list string) (s s' : sched) :
  step json_loads s s' ->
  Forall2 (task_of json_loads) paths (tasks s) ->
  Forall2 (task_of json_loads) paths (tasks s').
Proof.
  intros Hs HF.
  destruct Hs as [v ts i p0 Hi|v ts i p0 k o Hi|v ts i text k o Hi|v ts i r Hi];
    simpl in *;
    destruct (Forall2_lookup_r _ _ _ _ _ HF Hi) as (path & Hpath & Ht);
    rewrite <- (list_insert_id paths i path Hpath);
    (apply Forall2_insert; [done|]).
  - destruct Ht as [Ht|[Ht|[[o Ht]|[[sv Ht]|[sv Ht]]]]]; try done.
    injection Ht as ->. right. by left.
  - destruct Ht as [Ht|[Ht|[[o' Ht]|[[sv Ht]|[sv Ht]]]]]; try done.
    + rewrite process_one_suspends in Ht. injection Ht as -> ->.
      right. right. left. by exists o.
    + injection Ht as Ht.
      destruct (after_vision_cases path o') as [(r & Hr & _)|(t & k' & Hk & _)];
        congruence.
  - destruct Ht as [Ht|[Ht|[[o' Ht]|[[sv Ht]|[sv Ht]]]]]; try done.
    injection Ht as Ht.
    destruct (after_vision_cases path o') as [(r & Hr & _)|(t & k' & Hk & Hrow)];
      [congruence|].
    rewrite Hk in Ht. injection Ht as -> ->.
    right. right. right. left.
    exists (Service (fun _ => o') (fun _ => o)). f_equal. by apply Hrow.
  - destruct Ht as [Ht|[Ht|[[o' Ht]|[[sv Ht]|[sv Ht]]]]]; try done.
    + injection Ht as Ht.
      destruct (after_vision_cases path o') as [(r' & Hr & Hrow)|(t & k' & Hk & _)];
        [|congruence].
      rewrite Hr in Ht. injection Ht as ->.
      right. right. right. right.
      exists (Service (fun _ => o') (fun _ => Replies None)). f_equal.
      symmetry. by apply Hrow.
    + injection Ht as ->. right. right. right. right. by exists sv.
Qed.

Lemma reachable_task_of (batch_size : nat) (paths : list string) (s : sched) :
  rtc (step json_loads) (start batch_size paths) s ->
  Forall2 (task_of json_loads) paths (tasks s).
Proof.
  intros Hr.
  refine (rtc_ind_r (R := step json_loads)
            (fun s => Forall2 (task_of json_loads) paths (tasks s))
            (start batch_size paths) _ _ s Hr).
  - simpl. apply Forall2_fmap_r, Forall_Forall2_diag, Forall_forall.
    intros path _. by left.
  - intros s1 s2 _ Hs IH. by eapply step_keeps_task_of.
Qed.

Lemma no_holder (ts : list task) :
  count holds ts = 0 -> forall i t, ts !! i = Some t -> holds t = false.
Proof.
  unfold count. induction ts as [|x ts IH]; intros H i t Hi; [done|].
  rewrite filter_cons in H. case_decide as Hx; [done|].
  destruct i as [|i]; simpl in Hi.
  - injection Hi as <-. by destruct (holds x).
  - by eapply IH.
Qed.

Lemma holder_or_none (ts : list task) :
  (exists i p, ts !! i = Some (Running p)) \/ count holds ts = 0.
Proof.
  unfold count. induction ts as [|x ts IH]; [by right|].
  destruct x as [path|p|r].
  - destruct IH as [(i & p & Hi)|H]; [left; by exists (S i), p|right].
    rewrite filter_cons. by case_decide.
  - left. by exists 0, p.
  - destruct IH as [(i & p & Hi)|H]; [left; by exists (S i), p|right].
    rewrite filter_cons. by case_decide.
Qed.

End SchedulerMore.

(** X19.  With a semaphore of size at least 1 a run cannot get stuck: from
    every state it can reach in which some task is not finished, a step is
    possible. *)
Theorem semaphore_never_deadlocks (json_loads : string -> res value)
    (batch_size : nat) (paths : list string) (s : sched) (i : nat) (t : task) :
  0 < batch_size ->
  rtc (step json_loads) (start batch_size paths) s ->
  tasks s !! i = Some t -> is_finished t = false ->
  exists s', step json_loads s s'.
Proof.
  intros Hb Hr Hi Hf.
  pose proof (reachable_permits json_loads _ _ _ Hr) as Hp.
  pose proof (reachable_task_of json_loads _ _ _ Hr) as HF.
  destruct s as [v ts]. simpl in *.
  destruct (holder_or_none ts) as [(j & p & Hj)|Hnone].
  - destruct p as [r|path k|text k].
    + eexists. by apply (step_release json_loads v ts j r).
    + eexists. by apply (step_vision json_loads v ts j path k (Replies None)).
    + eexists. by apply (step_parse json_loads v ts j text k (Replies None)).
  - rewrite Hnone in Hp. destruct v as [|v]; [lia|].
    pose proof (no_holder ts Hnone i t Hi) as Hh.
    destruct t as [path|p|r]; try done.
    eexists. by apply (step_acquire json_loads v ts i path).
Qed.

Lemma semaphore_never_deadlocks_witness :
  exists s', step Json.loads (start 1 ["a.png"; "b.png"]) s'.
Proof.
  apply (semaphore_never_deadlocks Json.loads 1 ["a.png"; "b.png"] _ 0 (Waiting "a.png"));
    [lia|apply rtc_refl|reflexivity|reflexivity].
Defined.

(** X20.  With [batch_size] 0 nothing ever runs: no task can enter
    [async with sem], so the only state a run reaches is its first one, in
    which every task waits. *)
Theorem zero_batch_size_never_starts (json_loads : string -> res value)
    (paths : list string) (s : sched) :
  rtc (step json_loads) (start 0 paths) s -> s = start 0 paths.
Proof.
  intros Hr.
  refine (rtc_ind_r (R := step json_loads) (fun s => s = start 0 paths)
            (start 0 paths) _ _ s Hr); [done|].
  intros s1 s2 _ Hs ->. exfalso. unfold start in Hs.
  inversion Hs as [v ts i path Hi|v ts i path k o Hi|v ts i text k o Hi|v ts i r Hi];
    subst; rewrite list_lookup_fmap in Hi;
    destruct (paths !! i); simpl in Hi; done.
Qed.

Lemma zero_batch_size_never_starts_witness :
  start 0 ["a.png"] = start 0 ["a.png"].
Proof. apply (zero_batch_size_never_starts Json.loads ["a.png"]). apply rtc_refl. Defined.

(** ** Runs and the answers given in them *)

Section RunsMore.
Variable json_loads : string -> res value.

Lemma step_with_erase (s s' : sched) (ev : event) :
  step_with json_loads s ev s' -> step json_loads s s'.
Proof. destruct 1; by econstructor. Qed.

Lemma step_label (s s' : sched) :
  step json_loads s s' -> exists ev, step_with json_loads s ev s'.
Proof.
  destruct 1 as [v ts i path Hi|v ts i path k o Hi|v ts i text k o Hi|v ts i r Hi].
  - exists (Acquired i). by constructor.
  - exists (VisionAnswered i o). by econstructor.
  - exists (ParseAnswered i o). by econstructor.
  - exists (Released i). by constructor.
Qed.

Lemma reachable_has_events (s0 s : sched) :
  rtc (step json_loads) s0 s -> exists tr, run_with json_loads s0 tr s.
Proof.
  intros Hr.
  refine (rtc_ind_r (R := step json_loads)
            (fun s => exists tr, run_with json_loads s0 tr s) s0 _ _ s Hr).
  - exists []. constructor.
  - intros s1 s2 _ [ev Hs]%step_label [tr Htr]. exists (tr ++ [ev]). by econstructor.
Qed.

Lemma run_with_reachable (s0 s : sched) (tr : list event) :
  run_with json_loads s0 tr s -> rtc (step json_loads) s0 s.
Proof.
  induction 1 as [|s0 tr s1 ev s2 _ IH Hs]; [done|].
  eapply rtc_r; [exact IH|by eapply step_with_erase].
Qed.

Lemma vision_answers_snoc (i : nat) (tr : list event) (ev : event) :
  vision_answers i (tr ++ [ev])
  = vision_answers i tr
      ++ match ev with
         | VisionAnswered j o => if decide (j = i) then [o] else []
         | _ => []
         end.
Proof.
  unfold vision_answers. rewrite omap_app. f_equal.
  destruct ev as [j|j o|j o|j]; cbn; try done. by destruct (decide (j = i)).
Qed.

Lemma parse_answers_snoc (i : nat) (tr : list event) (ev : event) :
  parse_answers i (tr ++ [ev])
  = parse_answers i tr
      ++ match ev with
         | ParseAnswered j o => if decide (j = i) then [o] else []
         | _ => []
         end.
Proof.
  unfold parse_answers. rewrite omap_app. f_equal.
  destruct ev as [j|j o|j o|j]; cbn; try done. by destruct (decide (j = i)).
Qed.

(** One step of the task of [path] itself. *)
Lemma task_after_acquire (path p : string) (vs ps : list reply) :
  task_after json_loads path vs ps (Waiting p) ->
  task_after json_loads path vs ps (Running (process_one json_loads p)).
Proof.
  destruct vs as [|o [|? ?]], ps as [|o' [|? ?]]; cbn [task_after app]; try done.
  - intros [[= ->]|[=]]. by right.
  - by intros [[=]|[=]].
  - by intros [_ [[=]|[=]]].
Qed.

Lemma task_after_vision (path p : string) (k : reply -> proc (res dict))
    (vs ps : list reply) (o : reply) :
  task_after json_loads path vs ps (Running (Vision p k)) ->
  task_after json_loads path (vs ++ [o]) ps (Running (k o)).
Proof.
  destruct vs as [|o0 [|? ?]], ps as [|o' [|? ?]]; cbn [task_after app]; try done.
  - intros [[=]|H]. rewrite process_one_suspends in H.
    injection H as -> ->. by left.
  - intros [H|[=]]. injection H as H.
    destruct (after_vision_cases json_loads path o0)
      as [(r & Hr & _)|(t & k' & Hk & _)]; congruence.
  - by intros [_ [[=]|[=]]].
Qed.

Lemma task_after_parse (path : string) (text : value) (k : reply -> proc (res dict))
    (vs ps : list reply) (o : reply) :
  task_after json_loads path vs ps (Running (Parse text k)) ->
  task_after json_loads path vs (ps ++ [o]) (Running (k o)).
Proof.
  destruct vs as [|o0 [|? ?]], ps as [|o' [|? ?]]; cbn [task_after app]; try done.
  - intros [[=]|H]. by rewrite process_one_suspends in H.
  - intros [H|[=]]. injection H as H.
    destruct (after_vision_cases json_loads path o0)
      as [(r & Hr & _)|(t & k' & Hk & Hrow)]; [congruence|].
    rewrite Hk in H. injection H as -> ->.
    split; [by eexists _, _|]. left. f_equal.
    by apply (Hrow o (Service (fun _ => o0) (fun _ => o))).
  - by intros [_ [[=]|[=]]].
Qed.

Lemma task_after_release (path : string) (r : res dict) (vs ps : list reply) :
  task_after json_loads path vs ps (Running (Ret r)) ->
  task_after json_loads path vs ps (Finished r).
Proof.
  destruct vs as [|o0 [|? ?]], ps as [|o' [|? ?]]; cbn [task_after app]; try done.
  - intros [[=]|H]. by rewrite process_one_suspends in H.
  - intros [H|[=]]. injection H as H. right. f_equal.
    destruct (after_vision_cases json_loads path o0)
      as [(r' & Hr & Hrow)|(t & k' & Hk & _)]; [|congruence].
    rewrite Hr in H. injection H as ->. symmetry.
    by apply (Hrow (Service (fun _ => o0) (fun _ => Replies None))).
  - intros [Hp [H|[=]]]. injection H as ->. split; [done|]. by right.
Qed.

(** In every state of a run, every task is in a state that fits the answers
    it was given. *)
Lemma run_invariant (batch_size : nat) (paths : list string)
    (tr : list event) (s : sched) :
  run_with json_loads (start batch_size paths) tr s ->
  forall i t, tasks s !! i = Some t ->
    exists path,
      paths !! i = Some path
      /\ task_after json_loads path (vision_answers i tr) (parse_answers i tr) t.
Proof.
  remember (start batch_size paths) as s0 eqn:Hs0.
  induction 1 as [s0|s0 tr s1 ev s2 Hrun IH Hstep]; intros i t Hi.
  - subst s0. cbn in Hi. rewrite list_lookup_fmap in Hi.
    destruct (paths !! i) as [path|]; [|done]. injection Hi as <-.
    exists path. split; [done|]. by left.
  - specialize (IH Hs0). rewrite vision_answers_snoc, parse_answers_snoc.
    destruct Hstep as [v ts j p Hj|v ts j p k o Hj|v ts j text k o Hj|v ts j r Hj];
      cbn [tasks] in *;
      (destruct (decide (j = i)) as [->|Hne];
       [ rewrite list_lookup_insert_eq in Hi by (by eapply lookup_lt_Some);
         injection Hi as <-;
         destruct (IH i _ Hj) as (path & Hpath & Ht); exists path; split; [done|]
       | rewrite list_lookup_insert_ne in Hi by done;
         destruct (IH i _ Hi) as (path & Hpath & Ht); exists path; split; [done|];
         by rewrite !app_nil_r ]);
      rewrite ?app_nil_r.
    + by apply task_after_acquire.
    + by eapply task_after_vision.
    + by eapply task_after_parse.
    + by apply task_after_release.
Qed.

End RunsMore.

(** X21.  Every state that a run reaches is reached by a sequence of events;
    and whatever that sequence is, the result of a finished task is the row
    that [process_one] computes from the task's own path and from the
    answers that this task was given in the run: one answer to its vision
    request and at most one to its parse request. *)
Theorem finished_task_has_its_own_row (json_loads : string -> res value)
    (batch_size : nat) (paths : list string) :
  (forall s, rtc (step json_loads) (start batch_size paths) s ->
     exists tr, run_with json_loads (start batch_size paths) tr s)
  /\ forall (tr : list event) (s : sched) (i : nat) (r : res dict),
       run_with json_loads (start batch_size paths) tr s ->
       tasks s !! i = Some (Finished r) ->
       exists path,
         paths !! i = Some path
         /\ r = row_of json_loads (path, answers i tr)
         /\ length (vision_answers i tr) = 1
         /\ length (parse_answers i tr) <= 1.
Proof.
  split; [intros s; apply reachable_has_events|].
  intros tr s i r Hrun Hi.
  destruct (run_invariant json_loads _ _ _ _ Hrun i _ Hi) as (path & Hpath & Ht).
  exists path. split; [done|]. unfold answers.
  destruct (vision_answers i tr) as [|o [|? ?]], (parse_answers i tr) as [|o' [|? ?]];
    cbn [task_after] in Ht; try done; cbn [head default length].
  - by destruct Ht as [[=]|[=]].
  - destruct Ht as [[=]|[= ->]]. repeat split; lia.
  - destruct Ht as [_ [[=]|[= ->]]]. repeat split; lia.
Qed.

Lemma finished_task_has_its_own_row_witness :
  exists tr path,
    [timeout_item.1] !! 0 = Some path
    /\ row_of Json.loads timeout_item = row_of Json.loads (path, answers 0 tr).
Proof.
  destruct (proj1 (finished_task_has_its_own_row Json.loads 1 [timeout_item.1]) _
              (single_item_completes Json.loads timeout_item)) as [tr Htr].
  destruct (proj2 (finished_task_has_its_own_row Json.loads 1 [timeout_item.1])
              tr _ 0 _ Htr eq_refl) as (path & Hpath & Hr & _).
  by exists tr, path.
Defined.

(** ** main *)

Lemma py_slice_to_prefix {A : Type} (l : list A) (n : Z) : py_slice_to l n `prefix_of` l.
Proof. unfold py_slice_to. destruct (0 <=? n)%Z; apply prefix_take. Qed.

(** X22.  The images that [main] processes are a prefix of the images found.
    Without [--limit], or with [--limit 0], they are all of them; a positive
    limit keeps that many from the front; a negative limit drops that many
    from the end, and when it drops them all the run goes on with no image.
    Only an empty list of images found makes [main] exit. *)
Theorem limit_keeps_a_prefix {A : Type} (limit : option Z) (image_paths : list A) :
  (select_images limit image_paths = None <-> image_paths = [])
  /\ forall selected,
       select_images limit image_paths = Some selected ->
       selected `prefix_of` image_paths
       /\ (limit = None \/ limit = Some 0%Z -> selected = image_paths)
       /\ (forall n, limit = Some n -> (0 < n)%Z ->
             length selected = Nat.min (Z.to_nat n) (length image_paths))
       /\ (forall n, limit = Some n -> (n < 0)%Z ->
             length selected = length image_paths - Z.to_nat (- n)).
Proof.
  split.
  - by destruct image_paths.
  - intros selected. unfold select_images.
    destruct image_paths as [|x l] eqn:Hl; [done|]. rewrite <- Hl. clear Hl.
    intros [= <-]. repeat split.
    + destruct limit as [n|]; [|done].
      destruct (n =? 0)%Z; [done|apply py_slice_to_prefix].
    + by intros [-> | ->].
    + intros n -> Hn. destruct (Z.eqb_spec n 0); [lia|].
      unfold py_slice_to. destruct (Z.leb_spec 0 n); [|lia]. by rewrite length_take.
    + intros n -> Hn. destruct (Z.eqb_spec n 0); [lia|].
      unfold py_slice_to. destruct (Z.leb_spec 0 n); [lia|].
      rewrite length_take. lia.
Qed.

Lemma limit_keeps_a_prefix_witness :
  length [1; 2] = length [1; 2; 3; 4; 5] - Z.to_nat (- (-3)).
Proof.
  destruct (proj2 (limit_keeps_a_prefix (Some (-3)%Z) [1; 2; 3; 4; 5]) [1; 2] eq_refl)
    as (_ & _ & _ & H).
  apply (H (-3)%Z); [reflexivity|lia].
Defined.


Section MainMore.
Variable AsyncOpenAI : value -> res unit.


End MainMore.


